(** * UnifiedBetting: odds arithmetic, name normalizer, EV engine, event matcher

    A shallow embedding of [backend/utils/pod_utils.py] and
    [backend/match_games.py], followed by the properties of the
    specification that concern them.

    Conventions of the embedding.
    - Python values that reach the functions (decoded JSON) are the
      inductive [pyval]; a dict is an association list in insertion order,
      looked up by first occurrence.
    - Python floats are IEEE binary64 numbers, [PrimFloat.float]; every
      arithmetic operation of the source is the primitive operation.
    - Strings are sequences of ASCII characters; character classes, case
      folding and whitespace are those of Python restricted to code points
      below 128.
    - A raised exception is the [Raise] constructor of [res]; [try]/[except]
      is [catch].  All the exceptions that occur derive from [Exception].
    - Integers are within the limit the interpreter sets on the conversion
      between [int] and [str] (4300 digits). *)

From Stdlib Require Import ZArith List Bool String Ascii Lia Floats DecimalString.

#[local] Set Warnings "-register-all,-inexact-float".

Import ListNotations.
Open Scope Z_scope.
Open Scope string_scope.
Open Scope list_scope.

(* ===================================================================== *)
(** * Python values, exceptions *)
(* ===================================================================== *)

Inductive pyval : Type :=
| PNone
| PBool (b : bool)
| PInt (z : Z)
| PFloat (f : float)
| PStr (s : string)
| PList (l : list pyval)
| PDict (d : list (string * pyval)).

Inductive exn : Type :=
| AttributeError | TypeError | ValueError | KeyError
| ZeroDivisionError | OverflowError | RecursionError.

Inductive res (A : Type) : Type :=
| Ok (a : A)
| Raise (e : exn).
Arguments Ok {A} a.
Arguments Raise {A} e.

Definition bind {A B} (m : res A) (k : A -> res B) : res B :=
  match m with Ok a => k a | Raise e => Raise e end.

(** [try: m except Exception: h] *)
Definition catch {A} (m : res A) (h : exn -> res A) : res A :=
  match m with Ok a => Ok a | Raise e => h e end.

Declare Scope res_scope.
Delimit Scope res_scope with res.
Notation "x <- m ;; k" := (bind m (fun x => k))
  (at level 61, m at next level, right associativity) : res_scope.
Notation "' p <- m ;; k" := (bind m (fun x => match x with p => k end))
  (at level 61, p pattern, m at next level, right associativity) : res_scope.
Open Scope res_scope.

(** ** Floats *)

(** The double nearest to an integer (ties to even, infinite on overflow):
    the value of [float(str(z))]. *)
Definition float_of_Z (z : Z) : float :=
  SF2Prim (binary_normalize prec emax z 0 false).

(** [float(z)] and the implicit conversion of an [int] operand: raises
    [OverflowError] where the nearest double would be infinite. *)
Definition py_float_of_int (z : Z) : res float :=
  let f := float_of_Z z in
  if is_infinity f then Raise OverflowError else Ok f.

(** Round half to even of [m * 2^e], [m] positive. *)
Definition round_half_even (m : positive) (e : Z) : Z :=
  match e with
  | Zneg p =>
      let d := Z.pow 2 (Zpos p) in
      let q := Z.div (Zpos m) d in
      let r := Z.modulo (Zpos m) d in
      match Z.compare (2 * r) d with
      | Lt => q
      | Gt => q + 1
      | Eq => if Z.even q then q else q + 1
      end
  | _ => Zpos m * Z.pow 2 e
  end.

(** [round(f)] of a float, one argument: the nearest integer, ties to even;
    [ValueError] on NaN, [OverflowError] on an infinity. *)
Definition py_round (f : float) : res Z :=
  match Prim2SF f with
  | S754_nan => Raise ValueError
  | S754_infinity _ => Raise OverflowError
  | S754_zero _ => Ok 0
  | S754_finite s m e => Ok (cond_Zopp s (round_half_even m e))
  end.

(** [sum(l)] of a list of floats: addition from the left, starting at 0. *)
Definition py_sum (l : list float) : float :=
  fold_left PrimFloat.add l 0%float.

(** [z <= f], [z > f] ... between an int and a float compare the exact
    values; the thresholds of this file (1.0001, 0, 2.0) only need the
    sign and the comparison with small integers. *)
Definition truthy (v : pyval) : bool :=
  match v with
  | PNone => false
  | PBool b => b
  | PInt z => negb (Z.eqb z 0)
  | PFloat f => negb (PrimFloat.eqb f 0)
  | PStr s => negb (String.eqb s "")
  | PList l => match l with [] => false | _ => true end
  | PDict d => match d with [] => false | _ => true end
  end.

(** [a or b] on values. *)
Definition py_or (a b : pyval) : pyval := if truthy a then a else b.

(** ** ASCII strings *)

Definition is_digit (c : ascii) : bool :=
  let n := nat_of_ascii c in (48 <=? n)%nat && (n <=? 57)%nat.

(** [str.isspace] below 128: TAB..CR, FS..US and the space. *)
Definition is_space (c : ascii) : bool :=
  let n := nat_of_ascii c in
  ((9 <=? n)%nat && (n <=? 13)%nat) || ((28 <=? n)%nat && (n <=? 32)%nat).

Definition is_upper (c : ascii) : bool :=
  let n := nat_of_ascii c in (65 <=? n)%nat && (n <=? 90)%nat.

Definition is_lower (c : ascii) : bool :=
  let n := nat_of_ascii c in (97 <=? n)%nat && (n <=? 122)%nat.

Definition is_alpha (c : ascii) : bool := is_upper c || is_lower c.

(** [\w] below 128. *)
Definition is_word (c : ascii) : bool :=
  is_alpha c || is_digit c || Ascii.eqb c "_"%char.

Definition lower_char (c : ascii) : ascii :=
  if is_upper c then ascii_of_nat (nat_of_ascii c + 32) else c.

Fixpoint lower (s : string) : string :=
  match s with
  | EmptyString => EmptyString
  | String c r => String (lower_char c) (lower r)
  end.

Fixpoint lstrip (s : string) : string :=
  match s with
  | String c r => if is_space c then lstrip r else s
  | EmptyString => EmptyString
  end.

Fixpoint rstrip (s : string) : string :=
  match s with
  | EmptyString => EmptyString
  | String c r =>
      match rstrip r with
      | EmptyString => if is_space c then EmptyString else String c EmptyString
      | r' => String c r'
      end
  end.

(** [s.strip()] *)
Definition strip (s : string) : string := rstrip (lstrip s).

Fixpoint all_chars (p : ascii -> bool) (s : string) : bool :=
  match s with
  | EmptyString => true
  | String c r => p c && all_chars p r
  end.

(** [s.startswith(p)] *)
Fixpoint startswith (p s : string) : bool :=
  match p, s with
  | EmptyString, _ => true
  | String a p', String b s' => Ascii.eqb a b && startswith p' s'
  | String _ _, EmptyString => false
  end.

(** [p in s] for strings *)
Fixpoint contains (p s : string) : bool :=
  startswith p s ||
  match s with
  | EmptyString => false
  | String _ r => contains p r
  end.

Fixpoint drop (n : nat) (s : string) : string :=
  match n, s with
  | O, _ => s
  | S n', String _ r => drop n' r
  | S _, EmptyString => EmptyString
  end.

(** The value of a run of decimal digits. *)
Fixpoint digits_value (acc : Z) (s : string) : Z :=
  match s with
  | EmptyString => acc
  | String c r => digits_value (10 * acc + Z.of_nat (nat_of_ascii c - 48)) r
  end.

(** [re.match(r"^[+-]?\d+$", t)] on a stripped string [t], with the integer
    it denotes. *)
Definition parse_signed_int (t : string) : option (bool * Z) :=
  let body neg d :=
    match d with
    | EmptyString => None
    | _ => if all_chars is_digit d then Some (neg, digits_value 0 d) else None
    end in
  match t with
  | String "+"%char d => body false d
  | String "-"%char d => body true d
  | _ => body false t
  end.

(** [str(z)] *)
Definition str_of_Z (z : Z) : string := NilZero.string_of_int (Z.to_int z).

(* ===================================================================== *)
(** * pod_utils.py: odds arithmetic *)
(* ===================================================================== *)

(** [american_to_decimal].  [float(str(x).strip())] is [x] itself on a
    float, the nearest double on an int or an integer literal, and raises
    [ValueError] (caught, giving [None]) on the text of any other value.
    A literal ["-0"] gives the float [-0.0]. *)
Definition american_to_decimal (x : pyval) : option float :=
  let conv (odds : float) : option float :=
    if PrimFloat.ltb 0 odds then Some (odds / 100 + 1)%float
    else if PrimFloat.ltb odds 0 then Some (100 / abs odds + 1)%float
    else None in
  match x with
  | PNone => None
  | PStr s =>
      match parse_signed_int (strip s) with
      | Some (neg, n) =>
          conv (if neg then (- float_of_Z n)%float else float_of_Z n)
      | None => None
      end
  | PInt z => conv (float_of_Z z)
  | PFloat f => conv f
  | PBool _ | PList _ | PDict _ => None
  end.

Definition py_of_float_opt (o : option float) : pyval :=
  match o with Some f => PFloat f | None => PNone end.

(** [decimal_to_american]; the result is the text of the American price.
    [round] raises on NaN and on an infinity. *)
Definition decimal_to_american (d : pyval) : res (option string) :=
  match d with
  | PFloat f =>
      if PrimFloat.leb f 1.0001 then Ok None
      else if PrimFloat.leb 2 f then
        n <- py_round ((f - 1) * 100)%float ;;
        Ok (Some ("+" ++ str_of_Z n)%string)
      else
        n <- py_round (-100 / (f - 1))%float ;;
        Ok (Some (str_of_Z n))
  | PInt z =>
      if Z.leb z 1 then Ok None
      else Ok (Some ("+" ++ str_of_Z ((z - 1) * 100))%string)
  | PBool _ => Ok None
  | PNone | PStr _ | PList _ | PDict _ => Ok None
  end.

(** [x <= 0] for the second operand of [calculate_ev]. *)
Definition le_zero (v : pyval) : res bool :=
  match v with
  | PBool _ => Ok false
  | PInt z => Ok (Z.leb z 0)
  | PFloat f => Ok (PrimFloat.leb f 0)
  | PNone | PStr _ | PList _ | PDict _ => Raise TypeError
  end.

(** The float an arithmetic operand stands for. *)
Definition as_float (v : pyval) : res float :=
  match v with
  | PBool b => Ok (if b then 1 else 0)%float
  | PInt z => py_float_of_int z
  | PFloat f => Ok f
  | PNone | PStr _ | PList _ | PDict _ => Raise TypeError
  end.

(** [calculate_ev(bet_decimal, true_decimal)].  Every caller passes the
    float returned by [american_to_decimal] as [bet_decimal]; the second
    argument is whatever the reference record holds. *)
Definition calculate_ev (bet_decimal : float) (true_decimal : pyval) : res pyval :=
  if PrimFloat.eqb bet_decimal 0 then Ok (PFloat 0)
  else if negb (truthy true_decimal) then Ok (PFloat 0)
  else if PrimFloat.leb bet_decimal 0 then Ok (PFloat 0)
  else
    neg <- le_zero true_decimal ;;
    if neg then Ok (PFloat 0)
    else
      t <- as_float true_decimal ;;
      Ok (PFloat (bet_decimal / t - 1)%float).

(** ** Libm and built-ins taken as parameters

    [math.pow], [math.log], [round(x, 3)] and the parser of [float(str)]
    belong to the interpreter; the functions below are parameterised by
    them.  A [Raise] is the exception the built-in raises. *)

Section OddsNoVig.

Variable math_pow : float -> float -> res float.
Variable math_log : float -> res float.
Variable round3 : float -> float.

(** [math.pow(p, k)] for every [p]; [None] when one of them raises
    [ValueError] (the source then returns the proportional fallback), any
    other exception propagates. *)
Fixpoint powered (ps : list float) (k : float) : res (option (list float)) :=
  match ps with
  | [] => Ok (Some [])
  | p :: r =>
      match math_pow p k with
      | Ok v =>
          o <- powered r k ;;
          Ok (match o with Some l => Some (v :: l) | None => None end)
      | Raise ValueError => Ok None
      | Raise e => Raise e
      end
  end.

(** The [except ValueError] branch of the first inner loop. *)
Definition proportional (ps : list float) : list float :=
  let s := py_sum ps in
  if PrimFloat.eqb s 0 then map (fun _ => 0%float) ps
  else map (fun p => (p / s)%float) ps.

(** [math.pow(p, k) * math.log(p)], 0 on [ValueError]. *)
Fixpoint derivative_terms (ps : list float) (k : float) : res (list float) :=
  match ps with
  | [] => Ok []
  | p :: r =>
      t <- match (a <- math_pow p k ;; b <- math_log p ;; Ok (a * b)%float) with
           | Raise ValueError => Ok 0%float
           | o => o
           end ;;
      l <- derivative_terms r k ;;
      Ok (t :: l)
  end.

(** The [for i in range(max_iterations)] loop: [inl l] is a [return l]
    from inside the loop, [inr k] the exponent when the loop ends or
    breaks. *)
Fixpoint newton (max_iterations : nat) (tolerance : float)
    (ps : list float) (k : float) : res (list float + float) :=
  match max_iterations with
  | O => Ok (inr k)
  | S n =>
      cur <- powered ps k ;;
      match cur with
      | None => Ok (inl (proportional ps))
      | Some current_powered_probs =>
          let sum_powered_probs := py_sum current_powered_probs in
          if PrimFloat.eqb sum_powered_probs 0 then Ok (inr k)
          else
            let overround_metric := (sum_powered_probs - 1)%float in
            if PrimFloat.ltb (abs overround_metric) tolerance then Ok (inr k)
            else
              dt <- derivative_terms ps k ;;
              let derivative := py_sum dt in
              if PrimFloat.ltb (abs derivative) 1e-9 then Ok (inr k)
              else newton n tolerance ps (k - overround_metric / derivative)%float
      end
  end.

Fixpoint pow_list (ps : list float) (k : float) : res (list float) :=
  match ps with
  | [] => Ok []
  | p :: r => v <- math_pow p k ;; l <- pow_list r k ;; Ok (v :: l)
  end.

(** [adjust_power_probabilities(probabilities)] with the default tolerance
    and iteration bound.  The integer zeros of [[0] * n] are written 0.0:
    the caller only compares them with [1e-9]. *)
Definition adjust_power_probabilities (probabilities : list float) : res (list float) :=
  let valid_probs_for_power := filter (fun p => PrimFloat.ltb 0 p) probabilities in
  if (List.length valid_probs_for_power <? 2)%nat then
    Ok (map (fun _ => 0%float) valid_probs_for_power)
  else
    r <- newton 100 1e-4 valid_probs_for_power 1 ;;
    match r with
    | inl l => Ok l
    | inr k =>
        final_powered_probs <- pow_list valid_probs_for_power k ;;
        let sum_final_powered_probs := py_sum final_powered_probs in
        if PrimFloat.eqb sum_final_powered_probs 0 then
          Ok (map (fun _ => (1 / float_of_Z (Z.of_nat (List.length valid_probs_for_power)))%float)
                valid_probs_for_power)
        else Ok (map (fun p => (p / sum_final_powered_probs)%float) final_powered_probs)
    end.

(** [odd is not None and isinstance(odd, (int, float)) and odd > 1.0001];
    a bool is an int, and neither [True] nor [False] exceeds 1.0001. *)
Definition valid_odd (odd : pyval) : bool :=
  match odd with
  | PInt z => Z.ltb 1 z
  | PFloat f => PrimFloat.ltb 1.0001 f
  | PNone | PBool _ | PStr _ | PList _ | PDict _ => false
  end.

(** [1.0 / odd] for the valid entries, in order. *)
Fixpoint implied_probs (valid : list pyval) : res (list float) :=
  match valid with
  | [] => Ok []
  | odd :: r =>
      f <- as_float odd ;;
      l <- implied_probs r ;;
      Ok ((1 / f)%float :: l)
  end.

(** [final_nvp_list]: the i-th valid position receives [nvps_for_valid[i]]
    when there is one, every other position [None]. *)
Fixpoint place (odds_list nvps_for_valid : list pyval) : list pyval :=
  match odds_list with
  | [] => []
  | odd :: r =>
      if valid_odd odd then
        match nvps_for_valid with
        | n :: ns => n :: place r ns
        | [] => PNone :: place r []
        end
      else PNone :: place r nvps_for_valid
  end.

Definition all_none (odds_list : list pyval) : list pyval :=
  map (fun _ => PNone) odds_list.

(** [calculate_nvp_for_market(odds_list)] *)
Definition calculate_nvp_for_market (odds_list : list pyval) : res (list pyval) :=
  let current_valid_odds := filter valid_odd odds_list in
  if (List.length current_valid_odds <? 2)%nat then Ok (all_none odds_list)
  else
    probs <- implied_probs current_valid_odds ;;
    if PrimFloat.eqb (py_sum probs) 0 then Ok (all_none odds_list)
    else if PrimFloat.leb (py_sum probs) 1.0001 then
      Ok (place odds_list current_valid_odds)
    else
      true_probs <- adjust_power_probabilities probs ;;
      Ok (place odds_list
            (map (fun p => if PrimFloat.ltb 1e-9 p
                           then PFloat (round3 (1 / p)%float) else PNone)
               true_probs)).

End OddsNoVig.

(* ===================================================================== *)
(** * Regular expressions of the [re] module *)
(* ===================================================================== *)

(** The fragment the source uses: character classes, anchors, ordered
    alternation, greedy and lazy repetition of a class, numbered groups.
    Matching is by backtracking in the order of [re]: the first way to
    match, in the order alternatives and repetitions are tried, wins. *)
Inductive re : Type :=
| Chr (p : ascii -> bool)            (* a literal, a class or [.] *)
| Bol                                (* [^] *)
| Eol                                (* [$]: at the end or before a final newline *)
| Eps
| Seq (a b : re)
| Alt (a b : re)
| Star (greedy : bool) (p : ascii -> bool)
| Group (i : nat) (a : re).

(** Group number, start and end offsets. *)
Definition caps : Type := list (nat * (nat * nat)).

Definition newline : ascii := ascii_of_nat 10.

Fixpoint star_exec {R} (greedy : bool) (p : ascii -> bool) (pos : nat) (s : string)
    (k : nat -> string -> option R) : option R :=
  match s with
  | String c r =>
      if p c then
        if greedy then
          match star_exec greedy p (S pos) r k with
          | Some x => Some x
          | None => k pos s
          end
        else
          match k pos s with
          | Some x => Some x
          | None => star_exec greedy p (S pos) r k
          end
      else k pos s
  | EmptyString => k pos s
  end.

(** [exec r pos s c k]: match [r] at offset [pos], where [s] is the rest of
    the subject, then continue with [k]. *)
Fixpoint exec {R} (r : re) (pos : nat) (s : string) (c : caps)
    (k : nat -> string -> caps -> option R) : option R :=
  match r with
  | Chr p =>
      match s with
      | String a t => if p a then k (S pos) t c else None
      | EmptyString => None
      end
  | Bol => if Nat.eqb pos 0 then k pos s c else None
  | Eol =>
      match s with
      | EmptyString => k pos s c
      | String a EmptyString => if Ascii.eqb a newline then k pos s c else None
      | _ => None
      end
  | Eps => k pos s c
  | Seq a b => exec a pos s c (fun pos' s' c' => exec b pos' s' c' k)
  | Alt a b =>
      match exec a pos s c k with
      | Some x => Some x
      | None => exec b pos s c k
      end
  | Star g p => star_exec g p pos s (fun pos' s' => k pos' s' c)
  | Group i a => exec a pos s c (fun pos' s' c' => k pos' s' ((i, (pos, pos')) :: c'))
  end.

(** A match of [r] starting at offset [pos]: its end and its groups. *)
Definition match_at (r : re) (pos : nat) (s : string) : option (nat * caps) :=
  exec r pos s [] (fun e _ c => Some (e, c)).

(** [re.match(r, s)] *)
Definition re_match (r : re) (s : string) : option (nat * caps) := match_at r 0 s.

(** [re.search(r, s)], scanning from offset [pos]: start, end, groups. *)
Fixpoint search_from (r : re) (pos : nat) (s : string) : option (nat * nat * caps) :=
  match match_at r pos s with
  | Some (e, c) => Some (pos, e, c)
  | None =>
      match s with
      | String _ t => search_from r (S pos) t
      | EmptyString => None
      end
  end.

Definition re_search (r : re) (s : string) : option (nat * nat * caps) :=
  search_from r 0 s.

Fixpoint take (n : nat) (s : string) : string :=
  match n, s with
  | S n', String c r => String c (take n' r)
  | _, _ => EmptyString
  end.

(** [s[a:b]] *)
Definition slice (a b : nat) (s : string) : string := take (b - a) (drop a s).

(** [m.group(i)] *)
Definition group (i : nat) (c : caps) (s : string) : string :=
  match find (fun e => Nat.eqb (fst e) i) c with
  | Some (_, (a, b)) => slice a b s
  | None => EmptyString
  end.

(** [re.sub(r, '', s)]: every leftmost non-overlapping match is deleted.
    [skip] counts the characters of the current match still to drop. *)
Fixpoint sub_all (r : re) (pos skip : nat) (s : string) : string :=
  match s with
  | EmptyString => EmptyString
  | String c t =>
      match skip with
      | S n => sub_all r (S pos) n t
      | O =>
          match match_at r pos s with
          | Some (e, _) =>
              if Nat.eqb e pos then String c (sub_all r (S pos) 0 t)
              else sub_all r (S pos) (e - pos - 1) t
          | None => String c (sub_all r (S pos) 0 t)
          end
      end
  end.

Definition re_sub (r : re) (s : string) : string := sub_all r 0 0 s.

(** [re.sub(r, '', s, count=1)] *)
Definition re_sub1 (r : re) (s : string) : string :=
  match re_search r s with
  | Some (a, b, _) => (take a s ++ drop b s)%string
  | None => s
  end.

(** Regex builders. *)
Definition plus (p : ascii -> bool) : re := Seq (Chr p) (Star true p).
Definition plus_lazy (p : ascii -> bool) : re := Seq (Chr p) (Star false p).
Definition ch (a : ascii) : re := Chr (Ascii.eqb a).
(** A literal character under [re.IGNORECASE]. *)
Definition ch_ci (a : ascii) : re := Chr (fun c => Ascii.eqb (lower_char c) (lower_char a)).

Fixpoint lit (s : string) : re :=
  match s with
  | EmptyString => Eps
  | String a EmptyString => ch a
  | String a r => Seq (ch a) (lit r)
  end.

Fixpoint lit_ci (s : string) : re :=
  match s with
  | EmptyString => Eps
  | String a EmptyString => ch_ci a
  | String a r => Seq (ch_ci a) (lit_ci r)
  end.

Fixpoint seqs (l : list re) : re :=
  match l with
  | [] => Eps
  | [a] => a
  | a :: r => Seq a (seqs r)
  end.

(** Ordered alternation [a|b|c]. *)
Fixpoint alts (l : list re) : re :=
  match l with
  | [] => Chr (fun _ => false)
  | [a] => a
  | a :: r => Alt a (alts r)
  end.

Definition any_char (c : ascii) : bool := negb (Ascii.eqb c newline).

(** [s.replace(old, new)], [old] not empty. *)
Fixpoint replace_aux (old new : string) (skip : nat) (s : string) : string :=
  match s with
  | EmptyString => EmptyString
  | String c t =>
      match skip with
      | S n => replace_aux old new n t
      | O =>
          if startswith old s
          then (new ++ replace_aux old new (String.length old - 1) t)%string
          else String c (replace_aux old new 0 t)
      end
  end.

Definition replace (old new s : string) : string := replace_aux old new 0 s.

(** [s.split()] *)
Fixpoint split_ws (s : string) : list string :=
  match s with
  | EmptyString => []
  | String c t =>
      if is_space c then split_ws t
      else
        match t with
        | EmptyString => [String c EmptyString]
        | String c' _ =>
            if is_space c' then String c EmptyString :: split_ws t
            else
              match split_ws t with
              | w :: ws => String c w :: ws
              | [] => [String c EmptyString]
              end
        end
  end.

(** [" ".join(l)] *)
Fixpoint join_sp (l : list string) : string :=
  match l with
  | [] => EmptyString
  | [w] => w
  | w :: r => (w ++ " " ++ join_sp r)%string
  end.

(* ===================================================================== *)
(** * pod_utils.py: team names *)
(* ===================================================================== *)

Definition TEAM_ALIASES : list (string * list string) :=
  [ ("north korea", ["korea dpr"; "dpr korea"; "democratic people's republic of korea"]);
    ("south korea", ["korea republic"; "republic of korea"]);
    ("ivory coast", ["cote d'ivoire"]);
    ("czech republic", ["czechia"]);
    ("united states", ["usa"; "us"; "united states of america"]);
    ("iran", ["iran"; "iran isl"; "islamic republic of iran"]);
    ("russia", ["russian federation"]);
    ("tottenham", ["tottenham hotspur"; "spurs"]);
    ("psg", ["paris saint germain"; "paris sg"]);
    ("tiger cats", ["tiger-cats"; "hamilton tiger cats"; "hamilton tiger-cats"]);
    ("blue bombers", ["winnipeg blue bombers"]);
    ("roughriders", ["saskatchewan roughriders"]);
    ("stampeders", ["calgary stampeders"]);
    ("eskimos", ["edmonton eskimos"; "edmonton elks"]);
    ("redblacks", ["ottawa redblacks"]);
    ("argonauts", ["toronto argonauts"]);
    ("alouettes", ["montreal alouettes"]);
    ("lions", ["bc lions"; "british columbia lions"]);
    ("new york", ["ny"]);
    ("los angeles", ["la"]);
    ("st louis", ["st. louis"]);
    ("inter", ["inter milan"; "internazionale"]);
    ("altach", ["rheindorf altach"; "scr altach"]) ].

Definition str_in (x : string) (l : list string) : bool :=
  existsb (String.eqb x) l.

(** [alias_normalize(name)] *)
Definition alias_normalize (name : string) : string :=
  let name := strip (lower name) in
  match find (fun e => String.eqb name (fst e) || str_in name (snd e)) TEAM_ALIASES with
  | Some (canonical, _) => canonical
  | None => name
  end.

(** [^\d+\s*] *)
Definition re_leading_number : re :=
  seqs [Bol; plus is_digit; Star true is_space].

Definition alpha_or_space (c : ascii) : bool := is_alpha c || is_space c.
Definition l_or_r (c : ascii) : bool :=
  Ascii.eqb (lower_char c) "l"%char || Ascii.eqb (lower_char c) "r"%char.

(** The tail [\s*-\s*[LR]\s+must\s+start$] shared by the pitcher patterns. *)
Definition must_start_tail : list re :=
  [ Star true is_space; ch "-"%char; Star true is_space; Chr l_or_r;
    plus is_space; lit_ci "must"; plus is_space; lit_ci "start"; Eol ].

(** The three [pitcher_patterns], compiled with [re.IGNORECASE]: [[A-Z]]
    and [[a-z]] then accept a letter of either case. *)
Definition pitcher_patterns : list re :=
  [ seqs ([Bol; Group 1 (plus_lazy alpha_or_space);
            Chr is_alpha; Star true is_alpha; plus is_space;
            Chr is_alpha; Star true is_alpha] ++ must_start_tail);
    seqs ([Bol; Group 1 (plus_lazy alpha_or_space);
            Chr is_alpha; Star true is_alpha] ++ must_start_tail);
    seqs ([Bol; Group 1 (plus_lazy alpha_or_space);
            Chr is_alpha] ++ must_start_tail) ].

(** [(.+?)\s*(?:to lift the trophy|lift the trophy|to win.*|wins.*|\(match\)|series price|to win series|\(corners\))],
    [re.IGNORECASE]. *)
Definition re_trophy : re :=
  seqs [ Group 1 (plus_lazy any_char); Star true is_space;
         alts [ lit_ci "to lift the trophy"; lit_ci "lift the trophy";
                Seq (lit_ci "to win") (Star true any_char);
                Seq (lit_ci "wins") (Star true any_char);
                lit_ci "(match)"; lit_ci "series price"; lit_ci "to win series";
                lit_ci "(corners)" ] ].

(** [\s*\((?:games|sets|match|hits\+runs\+errors|h\+r\+e|hre|corners)\)$] *)
Definition re_market_paren : re :=
  seqs [ Star true is_space; ch "("%char;
         alts [ lit "games"; lit "sets"; lit "match"; lit "hits+runs+errors";
                lit "h+r+e"; lit "hre"; lit "corners" ];
         ch ")"%char; Eol ].

(** [\s*\([^)]*\)] *)
Definition re_paren : re :=
  seqs [ Star true is_space; ch "("%char;
         Star true (fun c => negb (Ascii.eqb c ")"%char)); ch ")"%char ].

Definition league_country_suffixes : list string :=
  [ "mlb"; "nba"; "nfl"; "nhl"; "ncaaf"; "ncaab"; "wnba";
    "poland"; "bulgaria"; "uruguay"; "colombia"; "peru"; "argentina";
    "sweden"; "romania"; "finland"; "england"; "japan"; "austria";
    "liga 1"; "serie a"; "bundesliga"; "la liga"; "ligue 1"; "premier league";
    "epl"; "mls"; "tipico bundesliga" ].

(** [(\s+suffix|suffix)$], [re.IGNORECASE] *)
Definition re_suffix (suffix : string) : re :=
  Seq (Group 1 (Alt (Seq (plus is_space) (lit_ci suffix)) (lit_ci suffix))) Eol.

(** One turn of the suffix loop. *)
Definition strip_suffix (norm_name suffix : string) : string :=
  match re_search (re_suffix suffix) norm_name with
  | Some _ =>
      let temp_name := strip (re_sub1 (re_suffix suffix) norm_name) in
      if negb (String.eqb temp_name "")
         || Nat.eqb (String.length norm_name) (String.length suffix)
      then temp_name else norm_name
  | None => norm_name
  end.

Definition common_prefixes : list string :=
  [ "if "; "fc "; "sc "; "bk "; "sk "; "ac "; "as "; "fk "; "cd "; "ca ";
    "afc "; "cfr "; "kc "; "scr " ].

(** One turn of a prefix loop. *)
Definition strip_prefix (norm_name prefix : string) : string :=
  if startswith prefix norm_name
  then strip (drop (String.length prefix) norm_name) else norm_name.

(** The [if]/[elif] chain of fixed rewrites; [name_l] is [name.lower()]. *)
Definition fixed_rewrites (name_l norm_name : string) : string :=
  if contains "tottenham hotspur" name_l then "tottenham"
  else if contains "paris saint germain" name_l || contains "paris sg" name_l then "psg"
  else if contains "new york" name_l then replace "new york" "ny" norm_name
  else if contains "los angeles" name_l then replace "los angeles" "la" norm_name
  else if contains "st louis" name_l then replace "st louis" "st. louis" norm_name
  else if contains "inter milan" name_l || String.eqb name_l "internazionale" then "inter"
  else if contains "rheindorf altach" name_l then "altach"
  else if contains "scr altach" name_l then "altach"
  else norm_name.

(** [^[^\w]+|[^\w]+$] *)
Definition re_edges : re :=
  Alt (Seq Bol (plus (fun c => negb (is_word c))))
      (Seq (plus (fun c => negb (is_word c))) Eol).

(** [[^\w\s\.\-\+]] *)
Definition kept_char (c : ascii) : bool :=
  is_word c || is_space c || Ascii.eqb c "."%char || Ascii.eqb c "-"%char
  || Ascii.eqb c "+"%char.
Definition re_other : re := Chr (fun c => negb (kept_char c)).

(** The pitcher loop: the first pattern that matches gives the name. *)
Fixpoint strip_pitcher (patterns : list re) (name : string) : string :=
  match patterns with
  | [] => name
  | pattern :: rest =>
      match re_match pattern name with
      | Some (_, c) => strip (group 1 c name)
      | None => strip_pitcher rest name
      end
  end.

(** [normalize_team_name_for_matching(name)] *)
Definition normalize_team_name_for_matching (name : string) : string :=
  let original_name_for_debug := name in
  if String.eqb name "" then ""
  else
    let name := strip (re_sub re_leading_number name) in
    let name := strip_pitcher pitcher_patterns name in
    let name :=
      match re_match re_trophy name with
      | Some (_, c) => strip (group 1 c name)
      | None => name
      end in
    let norm_name := lower name in
    let norm_name := strip (re_sub re_market_paren norm_name) in
    let norm_name := strip (re_sub re_paren norm_name) in
    let norm_name := fold_left strip_suffix league_country_suffixes norm_name in
    let norm_name := fold_left strip_prefix common_prefixes norm_name in
    let norm_name := fold_left strip_prefix common_prefixes norm_name in
    let norm_name := fixed_rewrites (lower name) norm_name in
    let norm_name := re_sub re_edges norm_name in
    let norm_name := re_sub re_other norm_name in
    let final_normalized_name := strip (join_sp (split_ws norm_name)) in
    if negb (String.eqb final_normalized_name "") then final_normalized_name
    else strip (lower original_name_for_debug).

(* ===================================================================== *)
(** * pod_utils.py: market analysis *)
(* ===================================================================== *)

(** ** Access to values *)

Definition dict_get (d : list (string * pyval)) (k : string) : option pyval :=
  match find (fun e => String.eqb (fst e) k) d with
  | Some (_, v) => Some v
  | None => None
  end.

(** [o.get(k, default)]: only a dict has the method. *)
Definition py_get (o : pyval) (k : string) (default : pyval) : res pyval :=
  match o with
  | PDict d => Ok (match dict_get d k with Some v => v | None => default end)
  | _ => Raise AttributeError
  end.

(** [o[k]] with a string key. *)
Definition py_getitem (o : pyval) (k : string) : res pyval :=
  match o with
  | PDict d => match dict_get d k with Some v => Ok v | None => Raise KeyError end
  | _ => Raise TypeError
  end.

(** [o.items()] *)
Definition py_items (o : pyval) : res (list (string * pyval)) :=
  match o with
  | PDict d => Ok d
  | _ => Raise AttributeError
  end.

Fixpoint chars (s : string) : list pyval :=
  match s with
  | EmptyString => []
  | String c r => PStr (String c EmptyString) :: chars r
  end.

(** The elements a [for] loop visits. *)
Definition py_iter (o : pyval) : res (list pyval) :=
  match o with
  | PList l => Ok l
  | PDict d => Ok (map (fun e => PStr (fst e)) d)
  | PStr s => Ok (chars s)
  | PNone | PBool _ | PInt _ | PFloat _ => Raise TypeError
  end.

Definition is_dict (v : pyval) : bool :=
  match v with PDict _ => true | _ => false end.

Definition is_none (v : pyval) : bool :=
  match v with PNone => true | _ => false end.

(** [-x] *)
Definition py_neg (v : pyval) : res pyval :=
  match v with
  | PInt z => Ok (PInt (- z))
  | PFloat f => Ok (PFloat (- f))
  | PBool b => Ok (PInt (if b then -1 else 0))
  | PNone | PStr _ | PList _ | PDict _ => Raise TypeError
  end.

(** [math.isclose(a, b, rel_tol=rel_tol, abs_tol=abs_tol)] on doubles. *)
Definition math_isclose (a b rel_tol abs_tol : float) : bool :=
  if PrimFloat.eqb a b then true
  else if is_infinity a || is_infinity b then false
  else
    let diff := abs (b - a) in
    PrimFloat.leb diff (abs (rel_tol * b))
    || PrimFloat.leb diff (abs (rel_tol * a))
    || PrimFloat.leb diff abs_tol.

(** The call of the source: default [rel_tol], [abs_tol=0.01]. *)
Definition isclose (a b : float) : bool := math_isclose a b 1e-09 0.01.

(** ** Rendered text

    [str(v)], f-strings and [type(v)] are kept as the pieces they are made
    of; no function of the source inspects a rendered text. *)
Inductive piece : Type :=
| Lit (s : string)
| StrOf (v : pyval)        (* [str(v)], [f"{v}"] *)
| Fix2 (f : float)         (* [f"{f:.2f}"] *)
| Fix1 (f : float)         (* [f"{f:.1f}"] *)
| ExnOf (e : exn)          (* [f"{e}"] of a caught exception *)
| TypeOf (v : pyval).      (* [f"{type(v)}"] *)

Definition text : Type := list piece.

Inductive level : Type := INFO | WARNING | ERROR.

(** A call of [logger.info], [logger.warning] or [logger.error]. *)
Definition entry : Type := (level * text)%type.

(** Computations that log: the entries written so far are kept when an
    exception is raised. *)
Definition M (A : Type) : Type := (res A * list entry)%type.

Definition retM {A} (a : A) : M A := (Ok a, []).
Definition lift {A} (r : res A) : M A := (r, []).
Definition logM (l : level) (t : text) : M unit := (Ok tt, [(l, t)]).
Definition bindM {A B} (m : M A) (k : A -> M B) : M B :=
  match fst m with
  | Ok a => let r := k a in (fst r, snd m ++ snd r)
  | Raise e => (Raise e, snd m)
  end.

Notation "x <~ m ;; k" := (bindM m (fun x => k))
  (at level 61, m at next level, right associativity) : res_scope.
Notation "m ;;; k" := (bindM m (fun _ => k))
  (at level 61, right associativity) : res_scope.

(** An entry of [potential_bets].  [pinnacle_limit] is [None] for the one
    dict of the source that has no such key. *)
Record row : Type := mkRow {
  market : string;
  selection : string;
  line : text;
  pinnacle_nvp : pyval;
  pinnacle_limit : option pyval;
  betbck_odds : pyval;
  ev : text;
  home_team : pyval;
  away_team : pyval;
  bet : text
}.

(** [format_bet_description(market, selection, line, home_team, away_team)] *)
Definition format_bet_description (market selection : string) (line : text)
    (home_team away_team : pyval) : text :=
  if String.eqb market "Moneyline" then
    if String.eqb selection "Home" && truthy home_team then [Lit "ML - "; StrOf home_team]
    else if String.eqb selection "Away" && truthy away_team then [Lit "ML - "; StrOf away_team]
    else [Lit "ML - "; Lit selection]
  else if String.eqb market "Spread" then
    if String.eqb selection "Home" && truthy home_team then [StrOf home_team; Lit " "] ++ line
    else if String.eqb selection "Away" && truthy away_team then [StrOf away_team; Lit " "] ++ line
    else [Lit selection; Lit " "] ++ line
  else if String.eqb market "Total" then
    if String.eqb selection "Over" then [Lit "Over "] ++ line
    else if String.eqb selection "Under" then [Lit "Under "] ++ line
    else [Lit selection; Lit " "] ++ line
  else [Lit market; Lit " - "; Lit selection].

(** [f"{ev*100:.2f}%" if ev is not None else 'N/A'].  [calculate_ev] only
    returns floats; the other cases follow the interpreter. *)
Definition ev_text (ev : pyval) : res text :=
  match ev with
  | PNone => Ok [Lit "N/A"]
  | PFloat f => Ok [Fix2 (f * 100)%float; Lit "%"]
  | PInt z => f <- py_float_of_int (z * 100) ;; Ok [Fix2 f; Lit "%"]
  | PBool b => Ok [Fix2 (if b then 100 else 0)%float; Lit "%"]
  | PStr _ => Raise ValueError
  | PList _ | PDict _ => Raise TypeError
  end.

(** [a > b] between EV values. *)
Definition py_gt (a b : pyval) : res bool :=
  x <- as_float a ;; y <- as_float b ;; Ok (PrimFloat.ltb y x).

(** [a or b], [b] evaluated only when [a] is falsy. *)
Definition or_else (a : pyval) (b : res pyval) : res pyval :=
  if truthy a then Ok a else b.

(** [for x in l: potential_bets.extend(body(x))], stopping at an exception. *)
Fixpoint for_rows {A} (l : list A) (body : A -> res (list row)) : res (list row) :=
  match l with
  | [] => Ok []
  | x :: r => a <- body x ;; b <- for_rows r body ;; Ok (a ++ b)
  end.

(** A loop that updates a state. *)
Fixpoint for_state {A S} (l : list A) (st : S) (body : S -> A -> res S) : res S :=
  match l with
  | [] => Ok st
  | x :: r => st' <- body st x ;; for_state r st' body
  end.

(** [try: body except Exception: continue] *)
Definition try_continue (body : res (list row)) : res (list row) :=
  catch body (fun _ => Ok []).

Section Analyzer.

(** [float(s)] on a [str]: [None] stands for [ValueError]. *)
Variable float_of_str : string -> option float.

(** [float(v)] *)
Definition py_float (v : pyval) : res float :=
  match v with
  | PFloat f => Ok f
  | PInt z => py_float_of_int z
  | PBool b => Ok (if b then 1 else 0)%float
  | PStr s => match float_of_str s with Some f => Ok f | None => Raise ValueError end
  | PNone | PList _ | PDict _ => Raise TypeError
  end.

(** Two groups [[0-9]+\.?[0-9]*] separated by one of [,/ ]. *)
Definition re_asian_total : re :=
  let number := seqs [plus is_digit; Alt (ch "."%char) Eps; Star true is_digit] in
  seqs [ Group 1 number;
         Chr (fun c => Ascii.eqb c ","%char || Ascii.eqb c "/"%char || Ascii.eqb c " "%char);
         Group 2 number ].

(** [normalize_total_line(line)].  The text of a list or of a dict starts
    with a bracket: no match, and [float] fails on it.  The replacement of
    the one-half sign does nothing on ASCII text. *)
Definition normalize_total_line (line : pyval) : res (option float) :=
  match line with
  | PNone => Ok None
  | PInt z => f <- py_float_of_int z ;; Ok (Some f)
  | PBool b => Ok (Some (if b then 1 else 0)%float)
  | PFloat f => Ok (Some f)
  | PStr s =>
      let line := replace "," "." (replace " " "" s) in
      match re_match re_asian_total line with
      | Some (_, c) =>
          a <- py_float (PStr (group 1 c line)) ;;
          b <- py_float (PStr (group 2 c line)) ;;
          Ok (Some ((a + b) / 2)%float)
      | None => Ok (float_of_str line)
      end
  | PList _ | PDict _ => Ok None
  end.

(** ** [_validate_period_separation] *)

Definition _validate_period_separation (bet_data pinnacle_data : pyval)
    : bool * list entry :=
  let flags :=
    d1h <- py_get bet_data "1H_data" PNone ;;
    pin_data <- py_get pinnacle_data "data" (PDict []) ;;
    periods <- py_get pin_data "periods" (PDict []) ;;
    n1 <- py_get periods "num_1" PNone ;;
    p1 <- or_else n1 (py_get periods "1" PNone) ;;
    n0 <- py_get periods "num_0" PNone ;;
    p0 <- or_else n0 (py_get periods "0" PNone) ;;
    Ok (truthy d1h, truthy p1, truthy p0) in
  match flags with
  | Ok (has_1h_betbck, has_1h_pinnacle, has_full_game_pinnacle) =>
      let info :=
        (INFO, [Lit "[PeriodValidation] BetBCK 1H: "; StrOf (PBool has_1h_betbck);
                Lit ", Pinnacle 1H: "; StrOf (PBool has_1h_pinnacle);
                Lit ", Pinnacle Full: "; StrOf (PBool has_full_game_pinnacle)]) in
      if has_1h_betbck && negb has_full_game_pinnacle then
        (false, [info; (ERROR, [Lit "[PeriodValidation] ERROR: Have 1H BetBCK data but no full game Pinnacle data!"])])
      else if has_1h_pinnacle && negb has_full_game_pinnacle then
        (false, [info; (ERROR, [Lit "[PeriodValidation] ERROR: Have 1H Pinnacle data but no full game Pinnacle data!"])])
      else (true, [info])
  | Raise e =>
      (false, [(ERROR, [Lit "[PeriodValidation] Error validating period separation: "; ExnOf e])])
  end.

(** ** Selections *)

(** One moneyline block: [bet] is the secondary record of the period, [ml]
    the reference moneyline of the same period, [limit] the expression of
    the [pinnacle_limit] entry, [names] the look-up of the two team names
    (done once on entry in the first-half function, in each block in the
    full-game one). *)
Definition moneyline_rows (mkt sel bet_key nvp_american_key nvp_key : string)
    (bet ml : pyval) (limit : res pyval) (names : res (pyval * pyval)) : res (list row) :=
  b <- py_get bet bet_key PNone ;;
  if negb (truthy b) then Ok []
  else
    n <- py_get ml nvp_american_key PNone ;;
    if negb (truthy n) then Ok []
    else
      odds <- py_getitem bet bet_key ;;
      let bet_odds := american_to_decimal odds in
      true_odds <- py_get ml nvp_key PNone ;;
      if truthy (py_of_float_opt bet_odds) && truthy true_odds then
        match bet_odds with
        | Some bo =>
            e <- calculate_ev bo true_odds ;;
            '(home, away) <- names ;;
            nvp <- py_get ml nvp_american_key (PStr "N/A") ;;
            lim <- limit ;;
            odds' <- py_getitem bet bet_key ;;
            et <- ev_text e ;;
            Ok [ mkRow mkt sel [Lit ""] nvp (Some lim) odds' et home away
                   (format_bet_description mkt sel [Lit ""] home away) ]
        | None => Ok []
        end
      else Ok [].

(** The body of the [try] of a spread pairing; [away] selects the away
    block, which compares with [-float(line)] and reports [str(-line)]. *)
Definition spread_rows (mkt : string) (away : bool) (s pin_spread bet_line line : pyval)
    (meta_limits : pyval) (names : res (pyval * pyval)) : res (list row) :=
  if is_none bet_line || is_none line then Ok []
  else
    fb <- py_float bet_line ;;
    fl <- py_float line ;;
    if negb (isclose fb (if away then (- fl)%float else fl)) then Ok []
    else
      n <- py_get pin_spread (if away then "nvp_american_away" else "nvp_american_home") PNone ;;
      if negb (truthy n) then Ok []
      else
        o <- py_get s "odds" PNone ;;
        let bet_odds := american_to_decimal o in
        true_odds <- py_get pin_spread (if away then "nvp_away" else "nvp_home") PNone ;;
        if truthy (py_of_float_opt bet_odds) && truthy true_odds then
          match bet_odds with
          | Some bo =>
              e <- calculate_ev bo true_odds ;;
              '(home_t, away_t) <- names ;;
              shown <- (if away then py_neg line else Ok line) ;;
              nvp <- py_get pin_spread (if away then "nvp_american_away" else "nvp_american_home") (PStr "N/A") ;;
              mx <- py_get pin_spread "max" PNone ;;
              lim <- or_else mx (py_get meta_limits "max_spread" PNone) ;;
              o' <- py_get s "odds" PNone ;;
              et <- ev_text e ;;
              let sel := if away then "Away" else "Home" in
              Ok [ mkRow mkt sel [StrOf shown] nvp (Some lim) o' et home_t away_t
                     (format_bet_description mkt sel [StrOf shown] home_t away_t) ]
          | None => Ok []
          end
        else Ok []
    .

(** The body of the [try] of a first-half total pairing. *)
Definition total_1h_rows (under : bool) (total pin_total bet_line : pyval)
    (pin_line : option float) (meta_limits home_t away_t : pyval) : res (list row) :=
  match pin_line with
  | None => Ok []
  | Some pl =>
      if is_none bet_line then Ok []
      else
        fb <- as_float bet_line ;;
        if negb (isclose fb pl) then Ok []
        else
          n <- py_get pin_total (if under then "nvp_american_under" else "nvp_american_over") PNone ;;
          if negb (truthy n) then Ok []
          else
            o <- py_get total "odds" PNone ;;
            let bet_odds := american_to_decimal o in
            true_odds <- py_get pin_total (if under then "nvp_under" else "nvp_over") PNone ;;
            if truthy (py_of_float_opt bet_odds) && truthy true_odds then
              match bet_odds with
              | Some bo =>
                  e <- calculate_ev bo true_odds ;;
                  nvp <- py_get pin_total (if under then "nvp_american_under" else "nvp_american_over") (PStr "N/A") ;;
                  lim <- (if under then Ok None
                          else
                            mx <- py_get pin_total "max" PNone ;;
                            l <- or_else mx (py_get meta_limits "max_total" PNone) ;;
                            Ok (Some l)) ;;
                  o' <- py_get total "odds" PNone ;;
                  et <- ev_text e ;;
                  let sel := if under then "Under" else "Over" in
                  Ok [ mkRow "1H Total" sel [StrOf (PFloat pl)] nvp lim o' et home_t away_t
                         (format_bet_description "1H Total" sel [StrOf (PFloat pl)] home_t away_t) ]
              | None => Ok []
              end
            else Ok []
  end.

(** ** [_analyze_1h_markets_for_ev] *)

Definition analyze_1h_try (bet_1h_data pinnacle_1h_data pin_data : pyval) : res (list row) :=
  home_t <- py_get pin_data "home" (PStr "") ;;
  away_t <- py_get pin_data "away" (PStr "") ;;
  let names := Ok (home_t, away_t) in
  (* --- 1H Moneyline --- *)
  pin_ml <- py_get pinnacle_1h_data "money_line" (PDict []) ;;
  meta_limits <- py_get pinnacle_1h_data "meta" (PDict []) ;;
  let limit :=
    mx <- py_get pin_ml "max_money_line" PNone ;;
    or_else mx (py_get meta_limits "max_money_line" PNone) in
  r1 <- moneyline_rows "1H Moneyline" "Home" "home_moneyline_american"
          "nvp_american_home" "nvp_home" bet_1h_data pin_ml limit names ;;
  r2 <- moneyline_rows "1H Moneyline" "Away" "away_moneyline_american"
          "nvp_american_away" "nvp_away" bet_1h_data pin_ml limit names ;;
  (* --- 1H Spreads --- *)
  pin_spreads <- py_get pinnacle_1h_data "spreads" (PDict []) ;;
  hs <- py_get bet_1h_data "home_spreads" (PList []) ;;
  hs <- py_iter hs ;;
  r3 <- for_rows hs (fun spread =>
          bet_line <- py_get spread "line" PNone ;;
          items <- py_items pin_spreads ;;
          for_rows items (fun kv =>
            let pin_spread := snd kv in
            line <- py_get pin_spread "hdp" PNone ;;
            try_continue (spread_rows "1H Spread" false spread pin_spread bet_line line
                            meta_limits names))) ;;
  aws <- py_get bet_1h_data "away_spreads" (PList []) ;;
  aws <- py_iter aws ;;
  r4 <- for_rows aws (fun spread =>
          bet_line <- py_get spread "line" PNone ;;
          items <- py_items pin_spreads ;;
          for_rows items (fun kv =>
            let pin_spread := snd kv in
            line <- py_get pin_spread "hdp" PNone ;;
            try_continue (spread_rows "1H Spread" true spread pin_spread bet_line line
                            meta_limits names))) ;;
  (* --- 1H Totals --- *)
  pin_totals <- py_get pinnacle_1h_data "totals" (PDict []) ;;
  hts <- py_get bet_1h_data "home_totals" (PList []) ;;
  hts <- py_iter hts ;;
  r5 <- for_rows hts (fun total =>
          bet_line <- py_get total "line" PNone ;;
          items <- py_items pin_totals ;;
          for_rows items (fun kv =>
            let pin_total := snd kv in
            pts <- py_get pin_total "points" PNone ;;
            pin_line <- normalize_total_line pts ;;
            try_continue (total_1h_rows false total pin_total bet_line pin_line
                            meta_limits home_t away_t))) ;;
  ats <- py_get bet_1h_data "away_totals" (PList []) ;;
  ats <- py_iter ats ;;
  r6 <- for_rows ats (fun total =>
          bet_line <- py_get total "line" PNone ;;
          items <- py_items pin_totals ;;
          for_rows items (fun kv =>
            let pin_total := snd kv in
            pts <- py_get pin_total "points" PNone ;;
            pin_line <- normalize_total_line pts ;;
            try_continue (total_1h_rows true total pin_total bet_line pin_line
                            meta_limits home_t away_t))) ;;
  Ok (r1 ++ r2 ++ r3 ++ r4 ++ r5 ++ r6).

Definition _analyze_1h_markets_for_ev (bet_1h_data pinnacle_1h_data pin_data : pyval)
    : list row * list entry :=
  match analyze_1h_try bet_1h_data pinnacle_1h_data pin_data with
  | Ok potential_bets =>
      (potential_bets,
       [(INFO, [Lit "[AnalyzeMarkets] Found ";
                StrOf (PInt (Z.of_nat (List.length potential_bets)));
                Lit " 1H EV opportunities"])])
  | Raise e =>
      ([], [(ERROR, [Lit "[AnalyzeMarkets] Error analyzing 1H markets: "; ExnOf e])])
  end.

(** ** [analyze_markets_for_ev] *)

(** [best_over], [best_under]: the candidate row and its [ev_val]. *)
Definition best : Type := option (row * pyval).

(** The Over (or Under) block of the full-game totals loop. *)
Definition total_side (under : bool) (odds pin_total : pyval) (pin_line : float)
    (meta_limits : pyval) (names : res (pyval * pyval)) (cur : best) : res best :=
  if negb (truthy odds) then Ok cur
  else
    n <- py_get pin_total (if under then "nvp_american_under" else "nvp_american_over") PNone ;;
    if negb (truthy n) then Ok cur
    else
      let bet_odds := american_to_decimal odds in
      true_odds <- py_get pin_total (if under then "nvp_under" else "nvp_over") PNone ;;
      if truthy (py_of_float_opt bet_odds) && truthy true_odds then
        match bet_odds with
        | Some bo =>
            e <- calculate_ev bo true_odds ;;
            better <- match cur with
                      | None => Ok true
                      | Some (_, ev_val) => if is_none e then Ok false else py_gt e ev_val
                      end ;;
            if (better : bool) then
              '(home_t, away_t) <- names ;;
              nvp <- py_get pin_total (if under then "nvp_american_under" else "nvp_american_over") (PStr "N/A") ;;
              mx <- py_get pin_total "max" PNone ;;
              lim <- or_else mx (py_get meta_limits "max_total" PNone) ;;
              et <- ev_text e ;;
              let sel := if under then "Under" else "Over" in
              Ok (Some (mkRow "Total" sel [StrOf (PFloat pin_line)] nvp (Some lim) odds et
                          home_t away_t
                          (format_bet_description "Total" sel [StrOf (PFloat pin_line)] home_t away_t),
                        e))
            else Ok cur
        | None => Ok cur
        end
      else Ok cur.

(** The full-game pairings: moneyline, spreads, totals (between the
    moneyline look-up and the first-half section of the source). *)
Definition full_game_rows (bet_data pin_data full_game ml meta_limits : pyval) : res (list row) :=
  let names :=
    h <- py_get pin_data "home" (PStr "") ;;
    a <- py_get pin_data "away" (PStr "") ;;
    Ok (h, a) in
  (* --- Moneyline --- *)
  let limit :=
    a <- py_get ml "max_money_line" PNone ;;
    b <- or_else a (py_get meta_limits "max_money_line" PNone) ;;
    c <- or_else b (py_get meta_limits "max_spread" PNone) ;;
    or_else c (py_get meta_limits "max_total" PNone) in
  r1 <- moneyline_rows "Moneyline" "Home" "home_moneyline_american"
          "nvp_american_home" "nvp_home" bet_data ml limit names ;;
  r2 <- moneyline_rows "Moneyline" "Away" "away_moneyline_american"
          "nvp_american_away" "nvp_away" bet_data ml limit names ;;
  r3 <- moneyline_rows "Moneyline" "Draw" "draw_moneyline_american"
          "nvp_american_draw" "nvp_draw" bet_data ml limit names ;;
  (* --- Spreads --- *)
  sp <- py_get full_game "spreads" PNone ;;
  let pin_spreads := if is_dict sp then sp else PDict [] in
  items <- py_items pin_spreads ;;
  r4 <- for_rows items (fun kv =>
          let pin_spread := snd kv in
          line <- py_get pin_spread "hdp" PNone ;;
          hs <- py_get bet_data "home_spreads" (PList []) ;;
          hs <- py_iter hs ;;
          rh <- for_rows hs (fun s =>
                  bet_line <- py_get s "line" PNone ;;
                  try_continue (spread_rows "Spread" false s pin_spread bet_line line
                                  meta_limits names)) ;;
          aws <- py_get bet_data "away_spreads" (PList []) ;;
          aws <- py_iter aws ;;
          ra <- for_rows aws (fun s =>
                  bet_line <- py_get s "line" PNone ;;
                  try_continue (spread_rows "Spread" true s pin_spread bet_line line
                                  meta_limits names)) ;;
          Ok (rh ++ ra)) ;;
  (* --- Totals --- *)
  tt <- py_get full_game "totals" PNone ;;
  let pin_totals := if is_dict tt then tt else PDict [] in
  gtl <- py_get bet_data "game_total_line" PNone ;;
  betbck_totals <-
    (if is_none gtl then Ok []
     else
       l <- normalize_total_line gtl ;;
       o <- py_get bet_data "game_total_over_odds" PNone ;;
       u <- py_get bet_data "game_total_under_odds" PNone ;;
       Ok [(l, o, u)]) ;;
  st <- for_state betbck_totals (None, None) (fun st bck_total =>
          let '(bck_line, over_odds, under_odds) := bck_total in
          items <- py_items pin_totals ;;
          for_state items st (fun st kv =>
            let pin_total := snd kv in
            pts <- py_get pin_total "points" PNone ;;
            pin_line <- normalize_total_line pts ;;
            match bck_line, pin_line with
            | Some bl, Some pl =>
                if isclose bl pl then
                  bo <- total_side false over_odds pin_total pl meta_limits names (fst st) ;;
                  bu <- total_side true under_odds pin_total pl meta_limits names (snd st) ;;
                  Ok (bo, bu)
                else Ok st
            | _, _ => Ok st
            end)) ;;
  let best_rows (b : best) := match b with Some (r, _) => [r] | None => [] end in
  Ok (r1 ++ r2 ++ r3 ++ r4 ++ best_rows (fst st) ++ best_rows (snd st)).

(** The body of the [try] statement of [analyze_markets_for_ev]. *)
Definition analyze_try (bet_data_copy pinnacle_data_copy : pyval) : M (list row) :=
  pin_data <~ lift (py_getitem pinnacle_data_copy "data") ;;
  if is_none pin_data then
    logM INFO [Lit "[AnalyzeMarkets] pin_data is None"] ;;; retM []
  else if negb (is_dict pin_data) then
    logM INFO [Lit "[AnalyzeMarkets] pin_data is not a dict: "; TypeOf pin_data] ;;; retM []
  else
    periods <~ lift (py_get pin_data "periods" (PDict [])) ;;
    if is_none periods then
      logM INFO [Lit "[AnalyzeMarkets] periods is None"] ;;; retM []
    else if negb (is_dict periods) then
      logM INFO [Lit "[AnalyzeMarkets] periods is not a dict: "; TypeOf periods] ;;; retM []
    else
      n0 <~ lift (py_get periods "num_0" PNone) ;;
      full_game <~ lift (or_else n0 (py_get periods "0" PNone)) ;;
      if is_none full_game then
        logM INFO [Lit "[AnalyzeMarkets] full_game is None"] ;;; retM []
      else if negb (is_dict full_game) then
        logM INFO [Lit "[AnalyzeMarkets] full_game is not a dict: "; TypeOf full_game] ;;; retM []
      else if negb (truthy full_game) then
        logM ERROR [Lit "[AnalyzeMarkets] No 'num_0' or '0' period found in periods: "; StrOf periods] ;;; retM []
      else
        ml0 <~ lift (py_get full_game "money_line" (PDict [])) ;;
        mt <~ lift (py_get full_game "meta" PNone) ;;
        let meta_limits := if is_dict mt then mt else PDict [] in
        ml <~ (if is_none ml0 then
                 logM INFO [Lit "[AnalyzeMarkets] money_line is None"] ;;; retM (PDict [])
               else if negb (is_dict ml0) then
                 logM INFO [Lit "[AnalyzeMarkets] money_line is not a dict: "; TypeOf ml0] ;;; retM (PDict [])
               else retM ml0) ;;
        potential_bets <~ lift (full_game_rows bet_data_copy pin_data full_game ml meta_limits) ;;
        (* --- 1H data processing --- *)
        d1h <~ lift (py_get bet_data_copy "1H_data" PNone) ;;
        if truthy d1h then
          logM INFO [Lit "[AnalyzeMarkets] Processing 1H data separately from full game data"] ;;;
          n1 <~ lift (py_get periods "num_1" PNone) ;;
          first_half <~ lift (or_else n1 (py_get periods "1" PNone)) ;;
          if truthy first_half && is_dict first_half then
            logM INFO [Lit "[AnalyzeMarkets] Found 1H Pinnacle data, processing 1H BetBCK data"] ;;;
            d <~ lift (py_getitem bet_data_copy "1H_data") ;;
            rows_1h <~ (let '(rows, log) := _analyze_1h_markets_for_ev d first_half pin_data in
                        (Ok rows, log)) ;;
            retM (potential_bets ++ rows_1h)
          else
            logM WARNING [Lit "[AnalyzeMarkets] No 1H Pinnacle data found, skipping 1H BetBCK data"] ;;;
            retM potential_bets
        else
          logM INFO [Lit "[AnalyzeMarkets] No 1H BetBCK data found"] ;;; retM potential_bets.

(** [analyze_markets_for_ev(bet_data, pinnacle_data)] from its period guard
    on, run on the two copies: the value returned or the exception raised,
    and the log entries written.  A copy is equal to the value copied; the
    copies themselves, which [copy.deepcopy] makes before the first [try]
    and which can raise, are in [WithCopies.analyze_markets_for_ev]. *)
Definition analyze_markets_for_ev (bet_data pinnacle_data : pyval) : M (list row) :=
  let bet_data_copy := if truthy bet_data then bet_data else PDict [] in
  let pinnacle_data_copy := if truthy pinnacle_data then pinnacle_data else PDict [] in
  let '(valid, vlog) := _validate_period_separation bet_data_copy pinnacle_data_copy in
  (Ok tt, vlog) ;;;
  if negb valid then
    logM ERROR [Lit "[AnalyzeMarkets] Period separation validation failed - aborting EV calculation"] ;;;
    retM []
  else if negb (truthy pinnacle_data_copy) then
    logM INFO [Lit "[AnalyzeMarkets] No Pinnacle data available (None)"] ;;; retM []
  else if negb (is_dict pinnacle_data_copy) then
    logM INFO [Lit "[AnalyzeMarkets] Pinnacle data is not a dict: "; TypeOf pinnacle_data_copy] ;;;
    retM []
  else
    d <~ lift (py_get pinnacle_data_copy "data" PNone) ;;
    if negb (truthy d) then
      logM INFO [Lit "[AnalyzeMarkets] No 'data' key in Pinnacle data"] ;;; retM []
    else
      d' <~ lift (py_getitem pinnacle_data_copy "data") ;;
      if is_none d' then
        logM INFO [Lit "[AnalyzeMarkets] Pinnacle data['data'] is None"] ;;; retM []
      else
        let r := analyze_try bet_data_copy pinnacle_data_copy in
        match fst r with
        | Ok rows => (Ok rows, snd r)
        | Raise e =>
            (Ok [], snd r ++ [(ERROR, [Lit "[AnalyzeMarkets] Error analyzing markets: "; ExnOf e])])
        end.

End Analyzer.

(* ===================================================================== *)
(** * match_games.py: the event matcher *)
(* ===================================================================== *)

Module MatchGames.

(** A reference event, with the keys the matcher reads.  A text key that
    is missing reads as the empty string ([.get(key, '')]); [event_id] is
    [None] when the key is missing.  The values under the keys are texts
    and the scorer of [rapidfuzz] is there: on a null value, or without
    the scorer, the source raises before it returns a record, and the
    properties of the matcher are about the calls that return. *)
Record pinnacle_event : Type := mkEvent {
  event_id : option string;
  pe_home_team : string;
  pe_away_team : string;
  pe_event_datetime : string;
  pe_league : string;
  pe_sport : string
}.

(** A secondary-book game of [betbck_data["games"]]. *)
Record betbck_game : Type := mkGame {
  betbck_game_id : option string;
  betbck_site_home_team : string;
  betbck_site_away_team : string;
  bg_event_datetime : string;
  bg_league : string;
  bg_sport : string;
  site_top_team_moneyline_american : pyval;
  site_bottom_team_moneyline_american : pyval
}.

(** An element of [matched_events]. *)
Record match_record : Type := mkMatch {
  pinnacle_event_id : string;
  pinnacle_home_team : string;
  pinnacle_away_team : string;
  matched_betbck_game : betbck_game;
  match_score : float;
  normalized_betbck_home : string;
  normalized_betbck_away : string;
  normalized_pinnacle_home : string;
  normalized_pinnacle_away : string;
  orientation : string;
  betbck_home_odds : pyval;
  betbck_away_odds : pyval;
  sport : string
}.

Definition PROP_INDICATORS : list string :=
  [ "to lift the trophy"; "lift the trophy"; "mvp"; "futures"; "outright";
    "coach of the year"; "player of the year"; "series correct score";
    "when will series finish"; "most points in series"; "most assists in series";
    "most rebounds in series"; "most threes made in series"; "margin of victory";
    "exact outcome"; "winner"; "to win the tournament"; "to win group"; "series price";
    "(corners)"; "bookings"; "cards"; "fouls"; "hits+runs+errors"; "corners"; "bookings";
    "games"; "sets";
    "1st half"; "2nd half"; "1st quarter"; "2nd quarter"; "3rd quarter"; "4th quarter";
    "overtime"; "extra time"; "penalties"; "total"; "over"; "under"; "spread"; "ml"; "pk";
    "draw";
    "to win"; "to advance"; "handicap"; "double chance"; "clean sheet";
    "both teams to score";
    "anytime scorer"; "first scorer"; "last scorer"; "win either half"; "win both halves";
    "scorecast"; "assist"; "shots on target"; "saves"; "goalscorer"; "player props";
    "team props"; "props" ].

Definition FUZZY_MATCH_THRESHOLD : float := 65.

(** [any(w in s for w in l)] *)
Definition any_in (l : list string) (s : string) : bool :=
  existsb (fun w => contains w s) l.

Definition is_prop_market_by_name (home_team_name away_team_name : string) : bool :=
  if String.eqb home_team_name "" || String.eqb away_team_name "" then false
  else if any_in PROP_INDICATORS (lower home_team_name)
          || any_in PROP_INDICATORS (lower away_team_name) then true
  else if contains "field" (lower away_team_name) && contains "the" (lower away_team_name)
  then true
  else String.eqb (lower home_team_name) "yes" && String.eqb (lower away_team_name) "no".

Definition english_premier_teams : list string :=
  [ "manchester united"; "manchester city"; "arsenal"; "chelsea"; "liverpool"; "tottenham";
    "newcastle"; "brighton"; "west ham"; "crystal palace"; "fulham"; "brentford"; "everton";
    "nottingham forest"; "sheffield united"; "burnley"; "luton town"; "bournemouth";
    "wolves"; "wolverhampton" ].
Definition english_championship_teams : list string :=
  [ "leeds united"; "leicester city"; "southampton"; "norwich city"; "west brom";
    "hull city"; "middlesbrough"; "coventry city"; "sunderland"; "birmingham city";
    "blackburn rovers"; "bristol city"; "cardiff city"; "huddersfield town"; "ipswich town";
    "millwall"; "plymouth argyle"; "preston north end"; "queens park rangers";
    "rotherham united"; "sheffield wednesday"; "stoke city"; "swansea city"; "watford" ].
Definition english_league1_teams : list string :=
  [ "barnsley"; "blackpool"; "bolton wanderers"; "bristol rovers"; "burton albion";
    "cambridge united"; "carlisle united"; "charlton athletic"; "cheltenham town";
    "derby county"; "exeter city"; "fleetwood town"; "grimsby town"; "leyton orient";
    "lincoln city"; "northampton town"; "oxford united"; "peterborough united"; "port vale";
    "reading"; "shrewsbury town"; "stevenage"; "wigan athletic"; "wycombe wanderers" ].
Definition english_league2_teams : list string :=
  [ "accrington stanley"; "afc wimbledon"; "barrow"; "bradford city"; "colchester united";
    "crewe alexandra"; "crawley town"; "doncaster rovers"; "forest green rovers";
    "gillingham"; "harrogate town"; "mansfield town"; "mk dons"; "morecambe";
    "newport county"; "notts county"; "salford city"; "stockport county"; "sutton united";
    "swindon town"; "tranmere rovers"; "walsall" ].

Definition international_indicators : list string :=
  [ "national team"; "country"; "international"; "fifa"; "uefa nations" ].

(** [is_league_compatible(betbck_game, pinnacle_event)]; the cup test of
    the source only logs. *)
Definition is_league_compatible (g : betbck_game) (e : pinnacle_event) : bool :=
  let betbck_home := lower (betbck_site_home_team g) in
  let betbck_away := lower (betbck_site_away_team g) in
  let pin_home := lower (pe_home_team e) in
  let pin_away := lower (pe_away_team e) in
  let divisions :=
    [ (english_premier_teams, "Premier"); (english_championship_teams, "Championship");
      (english_league1_teams, "League1"); (english_league2_teams, "League2") ] in
  let of_names (h a : string) : list string :=
    map snd (filter (fun d => existsb (fun team => contains team h || contains team a) (fst d))
               divisions) in
  let betbck_english_teams := of_names betbck_home betbck_away in
  let pin_english_teams := of_names pin_home pin_away in
  if match betbck_english_teams, pin_english_teams with
     | _ :: _, _ :: _ => negb (existsb (fun div => str_in div betbck_english_teams) pin_english_teams)
     | _, _ => false
     end
  then false
  else
    let betbck_international :=
      existsb (fun i => contains i betbck_home || contains i betbck_away) international_indicators in
    let pin_international :=
      existsb (fun i => contains i pin_home || contains i pin_away) international_indicators in
    Bool.eqb betbck_international pin_international.

Definition mlb_teams : list string :=
  [ "blue jays"; "dodgers"; "mariners"; "braves"; "cubs"; "angels"; "padres";
    "rangers"; "phillies"; "yankees"; "white sox"; "giants"; "marlins";
    "athletics"; "guardians"; "orioles"; "red sox"; "astros"; "rockies";
    "cardinals"; "twins"; "brewers"; "tigers"; "royals"; "rays"; "nationals";
    "mets"; "pirates"; "diamondbacks"; "twins"; "royals"; "tigers"; "astros" ].
Definition soccer_teams : list string :=
  [ "united"; "city"; "arsenal"; "chelsea"; "liverpool"; "tottenham"; "brighton";
    "wolves"; "wanderers"; "forest"; "leeds"; "villa"; "palace"; "fulham"; "bournemouth";
    "lyon"; "rennais"; "laval"; "boulogne"; "galaxy"; "sounders"; "real"; "barcelona";
    "madrid"; "atletico"; "sevilla"; "valencia"; "betis"; "sociedad"; "athletic";
    "bayern"; "dortmund"; "leipzig"; "leverkusen"; "frankfurt"; "stuttgart";
    "juventus"; "milan"; "inter"; "napoli"; "roma"; "lazio"; "fiorentina";
    "psg"; "monaco"; "lyon"; "marseille"; "lille"; "rennes"; "nice" ].
Definition basketball_teams : list string :=
  [ "lakers"; "warriors"; "celtics"; "heat"; "bulls"; "knicks"; "nets"; "suns"; "mavs";
    "bucks"; "sixers"; "raptors"; "pistons"; "pacers"; "cavaliers"; "magic"; "hawks";
    "hornets"; "wizards"; "nuggets"; "trail blazers"; "jazz"; "thunder"; "spurs";
    "rockets"; "pelicans"; "grizzlies"; "timberwolves"; "kings"; "clippers" ].
Definition football_teams : list string :=
  [ "patriots"; "bills"; "dolphins"; "jets"; "ravens"; "bengals"; "browns"; "steelers";
    "texans"; "colts"; "jaguars"; "titans"; "broncos"; "chiefs"; "raiders"; "chargers";
    "cowboys"; "giants"; "eagles"; "commanders"; "bears"; "lions"; "packers"; "vikings";
    "falcons"; "panthers"; "saints"; "buccaneers"; "cardinals"; "rams"; "seahawks"; "49ers" ].

(** [f"{a} {b}"] *)
Definition pair_text (a b : string) : string := (a ++ " " ++ b)%string.

Definition determine_sport_from_teams (home_team away_team : string) : string :=
  let teams_combined := lower (pair_text home_team away_team) in
  if any_in ["amanda"; "tatiana"; "keith"; "devin"; "fernando"; "anthony"; "stephen"]
       teams_combined then "ufc_boxing"
  else if any_in mlb_teams teams_combined then "mlb"
  else if any_in soccer_teams teams_combined then "soccer"
  else if any_in basketball_teams teams_combined then "basketball"
  else if any_in football_teams teams_combined then "football"
  else "other".

Definition minor_indicators : list string :=
  [ "durham bulls"; "salt lake bees"; "st. paul saints"; "columbus clippers";
    "tacoma rainiers"; "norfolk tides"; "jumbo shrimp"; "mud hens"; "reno aces";
    "oklahoma city comets"; "red wings"; "syracuse mets"; "indianapolis indians";
    "storm chasers"; "railriders"; "bees"; "clippers"; "mud hens"; "aces";
    "comets"; "wings"; "mets"; "indians"; "storm chasers"; "railriders" ].

Definition is_minor (e : pinnacle_event) : bool :=
  existsb (fun i => contains i (lower (pe_home_team e)) || contains i (lower (pe_away_team e)))
    minor_indicators.

Definition basketball_sports : list string :=
  [ "basketball"; "nba"; "wnba"; "ncaab"; "ncaa basketball"; "euroleague"; "fib"; "basketball" ].
Definition football_sports : list string :=
  [ "football"; "nfl"; "ncaaf"; "ncaa football"; "college football"; "american football" ].
Definition baseball_sports : list string :=
  [ "baseball"; "mlb"; "minor league"; "college baseball"; "ncaa baseball" ].
Definition soccer_sports : list string :=
  [ "soccer"; "football"; "mls"; "premier league"; "la liga"; "bundesliga"; "serie a";
    "ligue 1"; "champions league"; "europa league" ].
Definition hockey_sports : list string :=
  [ "hockey"; "nhl"; "ncaa hockey"; "college hockey" ].

(** The [if]/[elif] chain that names the sport category of a league and a
    sport text; [None] when no list applies. *)
Definition sport_category (league sport : string) : option string :=
  let hit (l : list string) := existsb (fun s => contains s league || contains s sport) l in
  if hit basketball_sports then Some "basketball"
  else if hit football_sports then Some "football"
  else if hit baseball_sports then Some "baseball"
  else if hit soccer_sports then Some "soccer"
  else if hit hockey_sports then Some "hockey"
  else None.

(** [betbck_game.get('betbck_game_id', f"{home}_{away}")] *)
Definition game_key (g : betbck_game) : string :=
  match betbck_game_id g with
  | Some i => i
  | None => (betbck_site_home_team g ++ "_" ++ betbck_site_away_team g)%string
  end.

Section Matcher.

(** [rapidfuzz.fuzz.token_set_ratio], a score from 0 to 100. *)
Variable token_set_ratio : string -> string -> float.

(** The absolute difference in seconds of two ISO times, as the [try]
    block of the time check computes it; [None] when it raises. *)
Variable iso_time_diff : string -> string -> option float.

(** The candidate search of one secondary game. *)
Record search_state : Type := mkSearch {
  best_match : option pinnacle_event;
  best_score : float;
  best_orientation : option bool
}.

(** The filters of the candidate loop, up to the normalisation of the
    reference names: [true] when the candidate is skipped. *)
Definition skipped (processed : list string) (g : betbck_game) (e : pinnacle_event) : bool :=
  match event_id e with
  | Some i => str_in i processed
  | None => false
  end
  || is_prop_market_by_name (pe_home_team e) (pe_away_team e)
  || (negb (String.eqb (bg_event_datetime g) "") && negb (String.eqb (pe_event_datetime e) "")
      && match iso_time_diff (bg_event_datetime g) (pe_event_datetime e) with
         | Some d => PrimFloat.ltb 86400 d
         | None => false
         end)
  || negb (is_league_compatible g e)
  || match sport_category (lower (bg_league g)) (lower (bg_sport g)),
           sport_category (lower (pe_league e)) (lower (pe_sport e)) with
     | Some a, Some b => negb (String.eqb a b)
     | _, _ => false
     end
  || String.eqb (normalize_team_name_for_matching (pe_home_team e)) ""
  || String.eqb (normalize_team_name_for_matching (pe_away_team e)) "".

(** [for pinnacle_event in relevant_events: ...], with its two [break]s. *)
Fixpoint search (processed : list string) (g : betbck_game) (norm_bck_home norm_bck_away : string)
    (relevant_events : list pinnacle_event) (st : search_state) : search_state :=
  match relevant_events with
  | [] => st
  | e :: rest =>
      if skipped processed g e then search processed g norm_bck_home norm_bck_away rest st
      else
        let norm_pin_home := normalize_team_name_for_matching (pe_home_team e) in
        let norm_pin_away := normalize_team_name_for_matching (pe_away_team e) in
        let score_direct :=
          token_set_ratio (pair_text norm_bck_home norm_bck_away)
            (pair_text norm_pin_home norm_pin_away) in
        let score_flipped :=
          token_set_ratio (pair_text norm_bck_home norm_bck_away)
            (pair_text norm_pin_away norm_pin_home) in
        let st1 :=
          if PrimFloat.ltb (best_score st) score_direct
          then mkSearch (Some e) score_direct (Some true) else st in
        if PrimFloat.ltb (best_score st) score_direct && PrimFloat.leb 95 score_direct
        then st1
        else
          let st2 :=
            if PrimFloat.ltb (best_score st1) score_flipped
            then mkSearch (Some e) score_flipped (Some false) else st1 in
          if PrimFloat.ltb (best_score st1) score_flipped && PrimFloat.leb 95 score_flipped
          then st2
          else search processed g norm_bck_home norm_bck_away rest st2
  end.

(** The state of the loop over the games: [matched_events], the set
    [processed_pinnacle_event_ids], and the set kept in the function
    attribute [matched_betbck_ids]. *)
Record loop_state : Type := mkLoop {
  matched_events : list match_record;
  processed_pinnacle_event_ids : list string;
  matched_betbck_ids : list string
}.

(** One turn of [for game_idx, betbck_game in enumerate(betbck_games)];
    [major] is the list of the events that are not minor-league. *)
Definition match_game (major : list pinnacle_event) (st : loop_state) (g : betbck_game)
    : res loop_state :=
  if str_in (game_key g) (matched_betbck_ids st) then Ok st
  else
    let betbck_home_raw := betbck_site_home_team g in
    let betbck_away_raw := betbck_site_away_team g in
    let norm_bck_home := normalize_team_name_for_matching betbck_home_raw in
    let norm_bck_away := normalize_team_name_for_matching betbck_away_raw in
    if String.eqb norm_bck_home "" || String.eqb norm_bck_away "" then Ok st
    else
      let betbck_sport := determine_sport_from_teams norm_bck_home norm_bck_away in
      let relevant_events :=
        filter (fun e => String.eqb
                           (determine_sport_from_teams (lower (pe_home_team e)) (lower (pe_away_team e)))
                           betbck_sport) major in
      let found :=
        search (processed_pinnacle_event_ids st) g norm_bck_home norm_bck_away
          relevant_events (mkSearch None 0 None) in
      match best_match found with
      | Some e =>
          if PrimFloat.leb FUZZY_MATCH_THRESHOLD (best_score found) then
            match event_id e with
            | None => Raise KeyError
            | Some eid =>
                let norm_event_home := normalize_team_name_for_matching (pe_home_team e) in
                let norm_event_away := normalize_team_name_for_matching (pe_away_team e) in
                let top_ml := site_top_team_moneyline_american g in
                let bottom_ml := site_bottom_team_moneyline_american g in
                let '(home_odds, away_odds) :=
                  if String.eqb norm_bck_home norm_event_home
                     && String.eqb norm_bck_away norm_event_away then (top_ml, bottom_ml)
                  else if String.eqb norm_bck_home norm_event_away
                          && String.eqb norm_bck_away norm_event_home then (bottom_ml, top_ml)
                  else (PNone, PNone) in
                let direct := match best_orientation found with Some true => true | _ => false end in
                Ok (mkLoop
                      (matched_events st ++
                       [ mkMatch eid (pe_home_team e) (pe_away_team e) g (best_score found)
                           norm_bck_home norm_bck_away norm_event_home norm_event_away
                           (if direct then "direct" else "flipped")
                           home_odds away_odds
                           (determine_sport_from_teams norm_bck_home norm_bck_away) ])
                      (eid :: processed_pinnacle_event_ids st)
                      (game_key g :: matched_betbck_ids st))
            end
          else Ok st
      | None => Ok st
      end.

(** [match_pinnacle_to_betbck(pinnacle_events, betbck_data)]:
    [matched_ids] is the content of the function attribute on entry; the
    result is the returned list with the content on exit.  The match rate
    of the summary divides by the number of games. *)
Definition match_pinnacle_to_betbck (matched_ids : list string)
    (pinnacle_events : list pinnacle_event) (betbck_games : list betbck_game)
    : res (list match_record * list string) :=
  let major := filter (fun e => negb (is_minor e)) pinnacle_events in
  st <- for_state betbck_games (mkLoop [] [] matched_ids) (match_game major) ;;
  match betbck_games with
  | [] => Raise ZeroDivisionError
  | _ => Ok (matched_events st, matched_betbck_ids st)
  end.

End Matcher.

(** The invariant of the loop over the games: no reference event id and
    no secondary-game key occurs twice among the records, and every record
    has its event id among the processed ids and its game key among the
    matched keys. *)
Definition consistent (st : loop_state) : Prop :=
  NoDup (map pinnacle_event_id (matched_events st))
  /\ NoDup (map (fun m => game_key (matched_betbck_game m)) (matched_events st))
  /\ (forall m, In m (matched_events st) ->
        In (pinnacle_event_id m) (processed_pinnacle_event_ids st)
        /\ In (game_key (matched_betbck_game m)) (matched_betbck_ids st)).

(** A scorer and a slate for the examples: the scorer gives 100 to equal
    texts and 0 otherwise; the third game repeats the id of the first. *)
Definition exact_ratio (a b : string) : float :=
  if String.eqb a b then 100%float else 0%float.

Definition sample_events : list pinnacle_event :=
  [ mkEvent (Some "1001") "Los Angeles Lakers" "Golden State Warriors" "" "NBA" "basketball";
    mkEvent (Some "1002") "Boston Celtics" "Miami Heat" "" "NBA" "basketball" ].

Definition sample_games : list betbck_game :=
  [ mkGame (Some "g1") "Miami Heat" "Boston Celtics" "" "NBA" "basketball"
      (PStr "+150") (PStr "-170");
    mkGame (Some "g2") "Los Angeles Lakers" "Golden State Warriors" "" "NBA" "basketball"
      (PStr "-110") (PStr "-110");
    mkGame (Some "g1") "Los Angeles Lakers" "Golden State Warriors" "" "NBA" "basketball"
      (PStr "-105") (PStr "-115") ].

Definition sample_records : list match_record :=
  Eval vm_compute in
    match match_pinnacle_to_betbck exact_ratio (fun _ _ => None) [] sample_events sample_games with
    | Ok (records, _) => records
    | Raise _ => []
    end.

End MatchGames.

(* ===================================================================== *)
(** * Vocabulary of the statements *)
(* ===================================================================== *)

(** The text of an American price: a positive one carries its [+]. *)
Definition american_text (a : Z) : string :=
  if Z.ltb 0 a then ("+" ++ str_of_Z a)%string else str_of_Z a.

(** [decimal_to_american(american_to_decimal(a))] *)
Definition round_trip (a : Z) : res (option string) :=
  decimal_to_american (py_of_float_opt (american_to_decimal (PInt a))).

Definition round_trip_ok (a : Z) : bool :=
  match round_trip a with
  | Ok (Some s) => String.eqb s (american_text a)
  | _ => false
  end.

(** [round_trip_ok] on the [n] integers from [lo] upwards. *)
Fixpoint round_trip_from (n : nat) (lo : Z) : bool :=
  match n with
  | O => true
  | S n' => if round_trip_ok lo then round_trip_from n' (lo + 1) else false
  end.

(** What [calculate_nvp_for_market] returns when it removes no vig: the
    valid prices in place, [None] elsewhere. *)
Definition pass_through (odds_list : list pyval) : list pyval :=
  map (fun odd => if valid_odd odd then odd else PNone) odds_list.

(** The (canonical, alias) pairs of [TEAM_ALIASES]. *)
Definition alias_pairs : list (string * string) :=
  flat_map (fun e => map (pair (fst e)) (snd e)) TEAM_ALIASES.

(** The aliases that [normalize_team_name_for_matching] sends to the
    normal form of their canonical name, through its fixed rewrites. *)
Definition rewritten_aliases : list string :=
  [ "iran"; "tottenham hotspur"; "paris saint germain"; "paris sg"; "ny"; "la";
    "st. louis"; "inter milan"; "internazionale"; "rheindorf altach"; "scr altach" ].

Definition alias_pair_ok (p : string * string) : bool :=
  let '(canonical, alias) := p in
  String.eqb (alias_normalize alias) canonical
  && String.eqb (alias_normalize canonical) canonical
  && Bool.eqb (String.eqb (normalize_team_name_for_matching alias)
                 (normalize_team_name_for_matching canonical))
       (str_in alias rewritten_aliases).

(** [v.get(k)] read as a total function: [None] where the key is missing
    or [v] is not a dict. *)
Definition field (v : pyval) (k : string) : pyval :=
  match v with
  | PDict d => match dict_get d k with Some x => x | None => PNone end
  | _ => PNone
  end.

(** The [periods] map of a reference event. *)
Definition reference_periods (pinnacle_data : pyval) : pyval :=
  field (field pinnacle_data "data") "periods".

(** The markets of period 0 ([num_0], else [0]) and of period 1. *)
Definition reference_period (pinnacle_data : pyval) (n : nat) : pyval :=
  match n with
  | O => py_or (field (reference_periods pinnacle_data) "num_0")
               (field (reference_periods pinnacle_data) "0")
  | _ => py_or (field (reference_periods pinnacle_data) "num_1")
               (field (reference_periods pinnacle_data) "1")
  end.

(** The first-half record of a secondary game. *)
Definition secondary_first_half (bet_data : pyval) : pyval := field bet_data "1H_data".


(** [copy.deepcopy(v) if v else {}] *)
Definition copy_of (v : pyval) : pyval := if truthy v then v else PDict [].

(** The moneyline and the limits the full-game pairings use, read off the
    markets of a period. *)
Definition money_line_of (period : pyval) : pyval :=
  match py_get period "money_line" (PDict []) with
  | Ok (PDict d) => PDict d
  | _ => PDict []
  end.

Definition meta_of (period : pyval) : pyval :=
  if is_dict (field period "meta") then field period "meta" else PDict [].

(** A market labelled as first half. *)
Definition is_1h (r : row) : bool := startswith "1H" (market r).

(** The look-up of the two team names of a reference event. *)
Definition team_names (pin_data : pyval) : res (pyval * pyval) :=
  h <- py_get pin_data "home" (PStr "") ;;
  a <- py_get pin_data "away" (PStr "") ;;
  Ok (h, a).

(** What [v.get(k, ...)] and [v[k]] depend on: whether [v] is a dict, and
    the entry of [k]. *)
Definition lookup (v : pyval) (k : string) : option (option pyval) :=
  match v with
  | PDict d => Some (dict_get d k)
  | _ => None
  end.

(** The keys of a secondary record that hold its full-game prices. *)
Definition full_game_keys : list string :=
  [ "home_moneyline_american"; "away_moneyline_american"; "draw_moneyline_american";
    "home_spreads"; "away_spreads";
    "game_total_line"; "game_total_over_odds"; "game_total_under_odds" ].

(** Two secondary records with the same full-game content. *)
Definition same_full_game (bet_data bet_data' : pyval) : Prop :=
  forall k, In k full_game_keys -> lookup (copy_of bet_data) k = lookup (copy_of bet_data') k.

(** The spreads a secondary record offers on one side, and the spreads of
    a reference period. *)
Definition secondary_spreads (away : bool) (data : pyval) : list pyval :=
  match py_get data (if away then "away_spreads" else "home_spreads") (PList []) with
  | Ok v => match py_iter v with Ok l => l | Raise _ => [] end
  | Raise _ => []
  end.

Definition reference_spreads (period : pyval) : list pyval :=
  match field period "spreads" with
  | PDict d => map snd d
  | _ => []
  end.

Section Pairing.

Variable float_of_str : string -> option float.

(** The row [r] pairs a spread [s] of the secondary record [data] with a
    spread [p] of the reference [period] whose handicap [math.isclose]
    accepts: [hdp] against a home line, [-hdp] against an away line. *)
Definition spread_pairing (data period : pyval) (r : row) : Prop :=
  exists (away : bool) (s p : pyval) (fb fl : float),
    selection r = (if away then "Away" else "Home")
    /\ In s (secondary_spreads away data)
    /\ In p (reference_spreads period)
    /\ py_float float_of_str (field s "line") = Ok fb
    /\ py_float float_of_str (field p "hdp") = Ok fl
    /\ isclose fb (if away then (- fl)%float else fl) = true.

End Pairing.

(** A secondary book with a full-game and a first-half moneyline, and a
    reference event with both periods. *)
Definition sample_bet : pyval :=
  PDict [ ("home_moneyline_american", PStr "+100");
          ("1H_data", PDict [("home_moneyline_american", PStr "+120")]) ].

Definition sample_pinnacle : pyval :=
  PDict [ ("data",
           PDict [ ("home", PStr "Lakers"); ("away", PStr "Warriors");
                   ("periods",
                    PDict [ ("num_0", PDict [("money_line",
                               PDict [("nvp_american_home", PStr "-109"); ("nvp_home", PFloat 1.92)])]);
                            ("num_1", PDict [("money_line",
                               PDict [("nvp_american_home", PStr "+105"); ("nvp_home", PFloat 2.05)])]) ]) ]) ].




(** The rows of the sample analysis. *)
Definition sample_rows : list row :=
  Eval vm_compute in
    match fst (analyze_markets_for_ev (fun _ => None) sample_bet sample_pinnacle) with
    | Ok rows => rows
    | Raise _ => []
    end.


(** ** Names the normalizer leaves alone *)

(** [s.endswith(p)] *)
Fixpoint endswith (p s : string) : bool :=
  String.eqb p s
  || match s with
     | EmptyString => false
     | String _ t => endswith p t
     end.

(** The last character is a word character (or there is none). *)
Fixpoint ends_word (s : string) : bool :=
  match s with
  | EmptyString => true
  | String c EmptyString => is_word c
  | String _ t => ends_word t
  end.

(** Lower-case letters, digits, underscore, the space and [. - +]. *)
Definition clean_char (c : ascii) : bool :=
  is_lower c || is_digit c || Ascii.eqb c "_"%char || Ascii.eqb c " "%char
  || Ascii.eqb c "."%char || Ascii.eqb c "-"%char || Ascii.eqb c "+"%char.

(** The first character is a lower-case letter or an underscore. *)
Definition starts_name (s : string) : bool :=
  match s with
  | String c _ => is_lower c || Ascii.eqb c "_"%char
  | EmptyString => false
  end.

(** The phrases of the prop/future pattern. *)
Definition trophy_phrases : list string :=
  [ "to lift the trophy"; "lift the trophy"; "to win"; "wins"; "(match)";
    "series price"; "to win series"; "(corners)" ].

(** The phrases the fixed rewrites look for. *)
Definition rewrite_phrases : list string :=
  [ "tottenham hotspur"; "paris saint germain"; "paris sg"; "new york"; "los angeles";
    "st louis"; "inter milan"; "rheindorf altach"; "scr altach" ].

(** A name in normal form on which no rule of the normalizer fires: only
    clean characters, starting with a letter or underscore and ending with
    a word character, single spaces, no pitcher annotation ([must]), no
    prop phrase, no league or country suffix, no club prefix, no rewritten
    phrase. *)
Definition clean (y : string) : bool :=
  all_chars clean_char y && starts_name y && ends_word y
  && negb (contains "  " y)
  && negb (contains "must" y)
  && forallb (fun p => negb (contains p y)) trophy_phrases
  && forallb (fun suffix => negb (endswith suffix y)) league_country_suffixes
  && forallb (fun prefix => negb (startswith prefix y)) common_prefixes
  && forallb (fun p => negb (contains p y)) rewrite_phrases
  && negb (String.eqb y "internazionale").

(* ===================================================================== *)
(** * Vocabulary of the proofs *)
(* ===================================================================== *)

Section Parts.

Variable float_of_str : string -> option float.

(** The rows of the full-game section of an analysis. *)
Definition full_game_part (bet_data pinnacle_data : pyval) : res (list row) :=
  full_game_rows float_of_str (copy_of bet_data) (field pinnacle_data "data")
    (reference_period pinnacle_data 0)
    (money_line_of (reference_period pinnacle_data 0))
    (meta_of (reference_period pinnacle_data 0)).

(** The rows of the first-half section of an analysis. *)
Definition first_half_part (bet_data pinnacle_data : pyval) : list row :=
  fst (_analyze_1h_markets_for_ev float_of_str (secondary_first_half bet_data)
         (reference_period pinnacle_data 1) (field pinnacle_data "data")).

End Parts.

(** Both slots of the totals loop hold rows of the [Total] market. *)
Definition total_rows_only (st : best * best) : Prop :=
  forall r e, fst st = Some (r, e) \/ snd st = Some (r, e) -> market r = "Total".

(** [fails P r]: started on a string of [P], the regex [r] never reaches
    its continuation. *)
Definition fails (P : string -> Prop) (r : re) : Prop :=
  forall (R : Type) (pos : nat) (s : string) (c : caps)
         (k : nat -> string -> caps -> option R),
    P s -> exec r pos s c k = None.

(** [P] is kept by removing the first character. *)
Definition tail_closed (P : string -> Prop) : Prop :=
  forall c t, P (String c t) -> P t.

(** [s] starts with [p], letter case ignored. *)
Fixpoint startswith_ci (p s : string) : bool :=
  match p, s with
  | EmptyString, _ => true
  | String a p', String b s' =>
      Ascii.eqb (lower_char b) (lower_char a) && startswith_ci p' s'
  | String _ _, EmptyString => false
  end.

(** No capital letter. *)
Definition no_upper (s : string) : Prop := all_chars (fun c => negb (is_upper c)) s = true.

(** No capital and no occurrence of [p]. *)
Definition without (p : string) (s : string) : Prop :=
  no_upper s /\ contains p s = false.

(** No capital and none of the phrases of [l]. *)
Definition free_of (l : list string) (s : string) : Prop :=
  no_upper s /\ forall q, In q l -> contains q s = false.

(** Single spaces between words, none at the ends. *)
Definition spaced (s : string) : Prop :=
  all_chars clean_char s = true /\ contains "  " s = false /\ ends_word s = true.

(** [$] *)
Definition before_end (s : string) : bool :=
  match s with
  | EmptyString => true
  | String a EmptyString => Ascii.eqb a newline
  | _ => false
  end.

(** Clean characters and not ending with [suffix]. *)
Definition not_ending (suffix : string) (s : string) : Prop :=
  all_chars clean_char s = true /\ endswith suffix s = false.





(* ===================================================================== *)
(** * pod_utils.py: prop markets, name similarity, search term *)
(* ===================================================================== *)

Definition skip_indicators : list string :=
  [ "1H"; "1st Half"; "First Half"; "1st 5 Innings"; "First Five Innings"; "1st Period";
    "2nd Period"; "3rd Period"; "hits+runs+errors"; "h+r+e"; "hre"; "corners"; "series" ].

Definition prop_keywords : list string := [ "(Corners)"; "(Bookings)"; "(Hits+Runs+Errors)" ].

(** [is_prop_or_corner_alert(home_team, away_team)] *)
Definition is_prop_or_corner_alert (home_team away_team : string) : bool :=
  existsb (fun keyword =>
             contains (lower keyword) (lower home_team)
             || contains (lower keyword) (lower away_team)) prop_keywords
  || existsb (fun ind =>
                contains (lower ind) (lower home_team)
                || contains (lower ind) (lower away_team)) skip_indicators.

Definition PROP_INDICATORS_IN_TEAM_NAMES : list string :=
  [ "to lift the trophy"; "lift the trophy"; "mvp"; "futures"; "outright";
    "coach of the year"; "player of the year"; "series correct score";
    "when will series finish"; "most points in series"; "most assists in series";
    "most rebounds in series"; "most threes made in series"; "margin of victory";
    "exact outcome"; "winner"; "to win the tournament"; "to win group"; "series price";
    "(corners)" ].

(** [is_prop_market_by_name(home_team_name, away_team_name)] of
    [pod_utils.py]; the matcher has its own, with a longer list. *)
Definition is_prop_market_by_name (home_team_name away_team_name : string) : bool :=
  if String.eqb home_team_name "" || String.eqb away_team_name "" then false
  else if existsb (fun name =>
                     existsb (fun indicator => contains indicator (lower name))
                       PROP_INDICATORS_IN_TEAM_NAMES)
            [home_team_name; away_team_name] then true
  else if contains "field" (lower away_team_name) && contains "the" (lower away_team_name)
  then true
  else String.eqb (lower home_team_name) "yes" && String.eqb (lower away_team_name) "no".

Section Fuzzy.

(** [fuzz.token_set_ratio] of [fuzzywuzzy], an integer score, when the
    import at the head of the module succeeded; [None] when it failed and
    the module sets [fuzz = None]. *)
Variable fuzz : option (string -> string -> Z).

(** The threshold the same [try] statement sets. *)
Definition FUZZY_MATCH_THRESHOLD : Z :=
  match fuzz with Some _ => 82 | None => 101 end.

(** [fuzzy_team_match(team1, team2)] *)
Definition fuzzy_team_match (team1 team2 : string) : bool :=
  match fuzz with
  | None =>
      String.eqb (normalize_team_name_for_matching team1)
        (normalize_team_name_for_matching team2)
  | Some token_set_ratio =>
      let t1 := normalize_team_name_for_matching team1 in
      let t2 := normalize_team_name_for_matching team2 in
      let score := token_set_ratio t1 t2 in
      Z.leb FUZZY_MATCH_THRESHOLD score
  end.

(** [calculate_name_similarity(team1, team2)]; the division converts the
    integer score to a float first. *)
Definition calculate_name_similarity (team1 team2 : string) : res float :=
  match fuzz with
  | None =>
      Ok (if String.eqb (normalize_team_name_for_matching team1)
               (normalize_team_name_for_matching team2)
          then 1 else 0)%float
  | Some token_set_ratio =>
      let t1 := normalize_team_name_for_matching team1 in
      let t2 := normalize_team_name_for_matching team2 in
      let score := token_set_ratio t1 t2 in
      f <- py_float_of_int score ;;
      Ok (f / 100)%float
  end.

End Fuzzy.

Definition known_terms : list (string * string) :=
  [ ("south korea", "Korea"); ("faroe islands", "Faroe"); ("milwaukee brewers", "Brewers");
    ("philadelphia phillies", "Phillies"); ("los angeles angels", "Angels");
    ("pittsburgh pirates", "Pirates"); ("arizona diamondbacks", "Diamondbacks");
    ("san diego padres", "Padres"); ("italy", "Italy"); ("st. louis cardinals", "Cardinals");
    ("china pr", "China"); ("bahrain", "Bahrain"); ("czechia", "Czech Republic");
    ("athletic club", "Athletic Club"); ("romania", "Romania"); ("cyprus", "Cyprus") ].

Definition known_term (name : string) : option string :=
  match find (fun e => String.eqb (fst e) name) known_terms with
  | Some (_, term) => Some term
  | None => None
  end.

(** [parts[-1]] of a list that is not empty. *)
Definition last_word (parts : list string) : string := last parts "".

(** [determine_betbck_search_term(pod_home_team_raw, pod_away_team_raw)];
    [clean_pod_team_name_for_search] is the normalizer between two
    [print]s. *)
Definition determine_betbck_search_term (pod_home_team_raw pod_away_team_raw : string)
    : string :=
  let pod_home_clean := normalize_team_name_for_matching pod_home_team_raw in
  let pod_away_clean := normalize_team_name_for_matching pod_away_team_raw in
  match known_term (lower pod_home_clean) with
  | Some term => term
  | None =>
      match known_term (lower pod_away_clean) with
      | Some term => term
      | None =>
          let parts := split_ws pod_home_clean in
          match parts with
          | [] => pod_home_clean
          | first :: _ =>
              if (1 <? List.length parts)%nat
                 && (3 <? String.length (last_word parts))%nat
                 && negb (str_in (lower (last_word parts))
                            [ "fc"; "sc"; "united"; "city"; "club"; "de"; "do"; "ac"; "if";
                              "bk"; "aif"; "kc"; "sr"; "mg"; "us"; "br" ])
              then last_word parts
              else if (2 <? String.length first)%nat
                      && negb (str_in (lower first)
                                 [ "fc"; "sc"; "ac"; "if"; "bk"; "de"; "do"; "aif"; "kc"; "sr";
                                   "mg"; "us"; "br" ])
              then first
              else pod_home_clean
          end
      end
  end.

(** [fuzzy_team_match] and [calculate_name_similarity] agree on the score
    [z]: it reaches the threshold 82 exactly when its hundredth reaches
    0.82. *)
Definition score_agrees (z : Z) : bool :=
  negb (is_infinity (float_of_Z z))
  && Bool.eqb (Z.leb 82 z) (PrimFloat.leb 0.82 (float_of_Z z / 100)).

(** The integers from [lo], [n] of them. *)
Fixpoint Z_range (n : nat) (lo : Z) : list Z :=
  match n with
  | O => []
  | S n' => lo :: Z_range n' (lo + 1)
  end.

(** An integer scorer for the examples: 100 for equal texts, 0 otherwise. *)
Definition exact_score (a b : string) : Z :=
  if String.eqb a b then 100 else 0.

(* ===================================================================== *)
(** * pod_utils.py: display of the reference odds *)
(* ===================================================================== *)

(** ** Updates of a dict *)

(** [d[k] = v]: the value of an existing key is replaced where it stands,
    a new key is added at the end. *)
Fixpoint dict_set (d : list (string * pyval)) (k : string) (v : pyval)
    : list (string * pyval) :=
  match d with
  | [] => [(k, v)]
  | (k', v') :: r =>
      if String.eqb k' k then (k', v) :: r else (k', v') :: dict_set r k v
  end.

(** [if k in d: del d[k]] *)
Definition dict_del (d : list (string * pyval)) (k : string) : list (string * pyval) :=
  filter (fun e => negb (String.eqb (fst e) k)) d.

(** [d.get(k)] *)
Definition dict_get_none (d : list (string * pyval)) (k : string) : pyval :=
  match dict_get d k with Some v => v | None => PNone end.

(** The value of an optional text. *)
Definition py_of_text (o : option string) : pyval :=
  match o with Some s => PStr s | None => PNone end.

(** [l[i]] for an index within the list. *)
Definition item (l : list pyval) (i : nat) : pyval := nth i l PNone.

(** The body of a loop for each element in turn, collecting the updated
    elements; the first exception ends the loop. *)
Fixpoint for_each {A B} (l : list A) (body : A -> res B) : res (list B) :=
  match l with
  | [] => Ok []
  | x :: r => y <- body x ;; ys <- for_each r body ;; Ok (y :: ys)
  end.

(** ['data' in o] *)
Definition py_contains_data (o : pyval) : res bool :=
  match o with
  | PDict d => Ok (match dict_get d "data" with Some _ => true | None => false end)
  | PStr s => Ok (contains "data" s)
  | PList l =>
      Ok (existsb (fun x => match x with PStr s => String.eqb s "data" | _ => false end) l)
  | PNone | PBool _ | PInt _ | PFloat _ => Raise TypeError
  end.

Section Display.

Variable math_pow : float -> float -> res float.
Variable math_log : float -> res float.
Variable round3 : float -> float.

(** [d[target] = decimal_to_american(d.get(source))] *)
Definition set_american (d : list (string * pyval)) (target source : string)
    : res (list (string * pyval)) :=
  a <- decimal_to_american (dict_get_none d source) ;;
  Ok (dict_set d target (py_of_text a)).

(** The moneyline block of a period, on the dict [ml]. *)
Definition display_moneyline (ml : list (string * pyval)) : res (list (string * pyval)) :=
  let odds_dec := [dict_get_none ml "home"; dict_get_none ml "draw"; dict_get_none ml "away"] in
  nvps_dec <- calculate_nvp_for_market math_pow math_log round3 odds_dec ;;
  let ml :=
    if Nat.eqb (List.length nvps_dec) 3 then
      dict_set (dict_set (dict_set ml "nvp_home" (item nvps_dec 0))
                  "nvp_draw" (item nvps_dec 1))
        "nvp_away" (item nvps_dec 2)
    else ml in
  ml <- set_american ml "american_home" "home" ;;
  ml <- set_american ml "american_draw" "draw" ;;
  ml <- set_american ml "american_away" "away" ;;
  ml <- set_american ml "nvp_american_home" "nvp_home" ;;
  ml <- set_american ml "nvp_american_draw" "nvp_draw" ;;
  set_american ml "nvp_american_away" "nvp_away".

(** The body of the spreads loop ([a], [b] are [home], [away]) and of the
    totals loop ([over], [under]), on the dict [details]. *)
Definition display_two_way (a b : string) (details : list (string * pyval))
    : res (list (string * pyval)) :=
  let odds_dec := [dict_get_none details a; dict_get_none details b] in
  nvps_dec <- calculate_nvp_for_market math_pow math_log round3 odds_dec ;;
  let details :=
    if Nat.eqb (List.length nvps_dec) 2 then
      dict_set (dict_set details ("nvp_" ++ a) (item nvps_dec 0))
        ("nvp_" ++ b) (item nvps_dec 1)
    else details in
  details <- set_american details ("american_" ++ a) a ;;
  details <- set_american details ("american_" ++ b) b ;;
  details <- set_american details ("nvp_american_" ++ a) ("nvp_" ++ a) ;;
  set_american details ("nvp_american_" ++ b) ("nvp_" ++ b).

(** The spreads or totals block of a period: every dict among the values
    of the non-empty dict under [key] is updated. *)
Definition display_lines (key a b : string) (period_data : list (string * pyval))
    : res (list (string * pyval)) :=
  match dict_get period_data key with
  | Some (PDict (entry :: entries)) =>
      lines <- for_each (entry :: entries) (fun kv =>
                 match snd kv with
                 | PDict details =>
                     details <- display_two_way a b details ;;
                     Ok (fst kv, PDict details)
                 | _ => Ok kv
                 end) ;;
      Ok (dict_set period_data key (PDict lines))
  | _ => Ok period_data
  end.

(** The body of the loop over the periods. *)
Definition display_period (period_data : pyval) : res pyval :=
  match period_data with
  | PDict pd =>
      let pd := dict_del pd "history" in
      pd <- match dict_get pd "money_line" with
            | Some (PDict (entry :: entries)) =>
                ml <- display_moneyline (entry :: entries) ;;
                Ok (dict_set pd "money_line" (PDict ml))
            | _ => Ok pd
            end ;;
      pd <- display_lines "spreads" "home" "away" pd ;;
      pd <- display_lines "totals" "over" "under" pd ;;
      Ok (PDict pd)
  | _ => Ok period_data
  end.

(** [process_event_odds_for_display(pinnacle_event_json_data)]: the dicts
    of the event are updated in place and the event is returned; here the
    updated event is the result.  The event is a tree, as decoded JSON is:
    no dict object stands at two places of it. *)
Definition process_event_odds_for_display (pinnacle_event_json_data : pyval) : res pyval :=
  if negb (truthy pinnacle_event_json_data) then Ok pinnacle_event_json_data
  else
    has_data <- py_contains_data pinnacle_event_json_data ;;
    if negb has_data then Ok pinnacle_event_json_data
    else
      event_detail <- py_getitem pinnacle_event_json_data "data" ;;
      match pinnacle_event_json_data, event_detail with
      | PDict event, PDict detail =>
          match dict_get detail "periods" with
          | Some (PDict periods) =>
              periods <- for_each periods (fun kv =>
                           period_data <- display_period (snd kv) ;;
                           Ok (fst kv, period_data)) ;;
              Ok (PDict (dict_set event "data"
                           (PDict (dict_set detail "periods" (PDict periods)))))
          | _ => Ok pinnacle_event_json_data
          end
      | _, _ => Ok pinnacle_event_json_data
      end.

End Display.

(** The keys the display processing writes: those that start with [nvp_]
    or [american_]. *)
Definition written (k : string) : bool :=
  startswith "nvp_" k || startswith "american_" k.

(** [d'] has the entries of [d] under every key that is not written. *)
Definition kept_dict (d d' : list (string * pyval)) : Prop :=
  forall k, written k = false -> dict_get d' k = dict_get d k.

(** The same for two values, read with [field]. *)
Definition kept (v v' : pyval) : Prop :=
  forall k, written k = false -> field v' k = field v k.

(** Two dicts with the same keys in the same order, values related by [R]. *)
Definition same_keys (R : pyval -> pyval -> Prop) (d d' : list (string * pyval)) : Prop :=
  Forall2 (fun kv kv' => fst kv' = fst kv /\ R (snd kv) (snd kv')) d d'.

(** What the processing of a period keeps: the entries of its moneyline, of
    each of its spreads and of each of its totals under the keys that are
    not written; and what it removes: the history. *)
Definition period_kept (v v' : pyval) : Prop :=
  kept (field v "money_line") (field v' "money_line")
  /\ (forall hdp_key, kept (field (field v "spreads") hdp_key)
                       (field (field v' "spreads") hdp_key))
  /\ (forall points_key, kept (field (field v "totals") points_key)
                          (field (field v' "totals") points_key))
  /\ field v' "history" = PNone.

(** The periods of an event before and after the processing: the same
    keys in the same order, each period processed on its own. *)
Definition periods_processed (process_period : pyval -> res pyval)
    (pinnacle_data pinnacle_data' : pyval) : Prop :=
  (pinnacle_data' = pinnacle_data /\ is_dict (reference_periods pinnacle_data) = false)
  \/ exists event detail periods periods',
       pinnacle_data = PDict event
       /\ dict_get event "data" = Some (PDict detail)
       /\ dict_get detail "periods" = Some (PDict periods)
       /\ pinnacle_data'
          = PDict (dict_set event "data" (PDict (dict_set detail "periods" (PDict periods'))))
       /\ same_keys (fun v v' => process_period v = Ok v') periods periods'.

(** The American texts stored for one side of a market: the text of its
    price under [american_<side>] and the text of its no-vig price under
    [nvp_american_<side>]. *)
Definition priced (market market' : pyval) (side : string) : Prop :=
  exists a b,
    decimal_to_american (field market side) = Ok a
    /\ field market' ("american_" ++ side) = py_of_text a
    /\ decimal_to_american (field market' ("nvp_" ++ side)) = Ok b
    /\ field market' ("nvp_american_" ++ side) = py_of_text b.

(** The two-way markets of a period: the key of the period, and the two
    sides. *)
Definition two_way_markets : list (string * (string * string)) :=
  [ ("spreads", ("home", "away")); ("totals", ("over", "under")) ].

Section DisplayFixedPoint.

Variable math_pow : float -> float -> res float.
Variable math_log : float -> res float.
Variable round3 : float -> float.

(** What a spreads or totals block leaves under its key: nothing it would
    change again. *)
Definition lines_fixed (key a b : string) (pd : list (string * pyval)) : Prop :=
  match dict_get pd key with
  | Some (PDict (entry :: entries)) =>
      for_each (entry :: entries) (fun kv =>
        match snd kv with
        | PDict details =>
            details <- display_two_way math_pow math_log round3 a b details ;;
            Ok (fst kv, PDict details)
        | _ => Ok kv
        end) = Ok (entry :: entries)
  | _ => True
  end.

End DisplayFixedPoint.

(** An event for the examples: one period with a history, a moneyline
    without a draw and one spread; the prices carry no vig, so that the
    no-vig prices need no power. *)
Definition display_moneyline_sample : pyval :=
  PDict [("home", PFloat 2.5); ("away", PFloat 1.7)].

Definition display_spread_sample : pyval :=
  PDict [("hdp", PFloat (-1.5)); ("home", PFloat 2); ("away", PFloat 2)].

Definition display_event : pyval :=
  PDict [ ("data",
           PDict [ ("home", PStr "Lakers");
                   ("periods",
                    PDict [ ("num_0",
                             PDict [ ("history", PList [PFloat 2.4]);
                                     ("money_line", display_moneyline_sample);
                                     ("spreads",
                                      PDict [("-1.5", display_spread_sample)]) ]) ]) ]) ].

Definition displayed_event : pyval :=
  Eval vm_compute in
    match process_event_odds_for_display (fun _ _ => Raise ValueError)
            (fun _ => Raise ValueError) (fun x => x) display_event with
    | Ok v => v
    | Raise _ => PNone
    end.

(* ===================================================================== *)
(** * pod_utils.py: the defensive copies of the analysis *)
(* ===================================================================== *)

(** [copy.deepcopy(x)].  The [copy] module is Python code: [deepcopy] runs
    in one frame of the interpreter and the copier of the type
    ([_deepcopy_atomic], [_deepcopy_list], [_deepcopy_dict]) in a second
    one, from which the elements are copied.  [frames] is the number of
    frames the recursion limit leaves at the call; a call that finds none
    raises [RecursionError].  In a dict the value of an entry is copied
    before its key, a text. *)
Fixpoint deepcopy (frames : nat) (x : pyval) {struct frames} : res pyval :=
  match frames with
  | S (S below) =>
      match x with
      | PList l => l' <- for_each l (deepcopy below) ;; Ok (PList l')
      | PDict d =>
          d' <- for_each d (fun kv =>
                  value <- deepcopy below (snd kv) ;;
                  key <- deepcopy below (PStr (fst kv)) ;;
                  Ok (fst kv, value)) ;;
          Ok (PDict d')
      | PNone | PBool _ | PInt _ | PFloat _ | PStr _ => Ok x
      end
  | _ => Raise RecursionError
  end.

Module WithCopies.

Section Call.

Variable frames : nat.
Variable float_of_str : string -> option float.

(** [copy.deepcopy(v) if v else {}] *)
Definition defensive_copy (v : pyval) : res pyval :=
  if truthy v then deepcopy frames v else Ok (PDict []).

(** [analyze_markets_for_ev(bet_data, pinnacle_data)] as its caller sees
    it: the two copies are made first, before the period guard and outside
    every [try] statement; the function of the same name above is the
    analysis from there on, run on the copies. *)
Definition analyze_markets_for_ev (bet_data pinnacle_data : pyval) : M (list row) :=
  bet_data_copy <~ lift (defensive_copy bet_data) ;;
  pinnacle_data_copy <~ lift (defensive_copy pinnacle_data) ;;
  analyze_markets_for_ev float_of_str bet_data_copy pinnacle_data_copy.

End Call.

End WithCopies.

(** A dict that holds a dict that holds a dict, [n] times, around an
    empty one. *)
Fixpoint nested (n : nat) : pyval :=
  match n with
  | O => PDict []
  | S k => PDict [("k", nested k)]
  end.

(* ===================================================================== *)
(** * Vocabulary of the further properties *)
(* ===================================================================== *)

(** None of the three separators of an Asian line. *)
Definition no_separator (c : ascii) : bool :=
  negb (Ascii.eqb "/"%char c) && negb (Ascii.eqb " "%char c) && negb (Ascii.eqb ","%char c).

(** The first character, if any, is not white space. *)
Definition headed (s : string) : Prop :=
  match s with
  | String c _ => is_space c = false
  | EmptyString => True
  end.

(** ** Shape of an analysis *)

(** What a row offers: its market and its selection. *)
Definition kind (r : row) : string * string := (market r, selection r).

Definition full_game_kinds : list (string * string) :=
  [ ("Moneyline", "Home"); ("Moneyline", "Away"); ("Moneyline", "Draw");
    ("Spread", "Home"); ("Spread", "Away"); ("Total", "Over"); ("Total", "Under") ].

Definition first_half_kinds : list (string * string) :=
  [ ("1H Moneyline", "Home"); ("1H Moneyline", "Away");
    ("1H Spread", "Home"); ("1H Spread", "Away");
    ("1H Total", "Over"); ("1H Total", "Under") ].

(** The kinds of which a section keeps one row at most: the moneylines, and
    the full-game totals, where only the best over and the best under
    survive. *)
Definition single_kinds : list (string * string) :=
  [ ("Moneyline", "Home"); ("Moneyline", "Away"); ("Moneyline", "Draw");
    ("Total", "Over"); ("Total", "Under");
    ("1H Moneyline", "Home"); ("1H Moneyline", "Away") ].

Definition kind_eqb (a b : string * string) : bool :=
  String.eqb (fst a) (fst b) && String.eqb (snd a) (snd b).

(** The number of rows of a kind. *)
Definition count_kind (k : string * string) (rows : list row) : nat :=
  List.length (filter (fun r => kind_eqb (kind r) k) rows).

Section Shape.

Variable float_of_str : string -> option float.

(** The rows an analysis can return: none, or the full-game rows of a
    non-empty period 0 followed by the first-half rows, which are there
    only when the secondary game has a first-half record and the reference
    event a non-empty period 1. *)
Definition analysis_shape (bet_data pinnacle_data : pyval) (rows : list row) : Prop :=
  rows = []
  \/ exists frows hrows,
       rows = frows ++ hrows
       /\ truthy (reference_period pinnacle_data 0) = true
       /\ is_dict (reference_period pinnacle_data 0) = true
       /\ full_game_part float_of_str bet_data pinnacle_data = Ok frows
       /\ (hrows = []
           \/ (truthy (secondary_first_half bet_data) = true
               /\ truthy (reference_period pinnacle_data 1) = true
               /\ is_dict (reference_period pinnacle_data 1) = true
               /\ hrows = first_half_part float_of_str bet_data pinnacle_data)).

End Shape.

(** Both slots of the totals loop hold a row of their own kind. *)
Definition total_slots (st : best * best) : Prop :=
  (forall r e, fst st = Some (r, e) -> kind r = ("Total", "Over"))
  /\ (forall r e, snd st = Some (r, e) -> kind r = ("Total", "Under")).

(** ** Spread rows and the pairs they come from *)



Section SpreadPairs.

Variable float_of_str : string -> option float.






End SpreadPairs.




(** ** The best total *)

(** The totals of a reference period. *)
Definition reference_totals (period : pyval) : list pyval :=
  match field period "totals" with
  | PDict d => map snd d
  | _ => []
  end.

Section BestTotal.

Variable float_of_str : string -> option float.

(** The full-game total of the secondary game for one side: its line,
    normalized, and the odds of the side. *)
Definition secondary_total (under : bool) (bet_data : pyval) : option float * pyval :=
  (match normalize_total_line float_of_str (field bet_data "game_total_line") with
   | Ok l => l
   | Raise _ => None
   end,
   field bet_data (if under then "game_total_under_odds" else "game_total_over_odds")).

(** The EV the totals loop computes for one side of the secondary total
    against the reference total [p]: there is one when [math.isclose]
    accepts the two lines and the odds, the fair price and the two decimal
    prices are all truthy. *)
Definition total_ev (under : bool) (bck_line : option float) (odds p : pyval) : option float :=
  match bck_line, normalize_total_line float_of_str (field p "points") with
  | Some bl, Ok (Some pl) =>
      if isclose bl pl && truthy odds
         && truthy (field p (if under then "nvp_american_under" else "nvp_american_over"))
      then
        match american_to_decimal odds with
        | Some bo =>
            if truthy (PFloat bo) && truthy (field p (if under then "nvp_under" else "nvp_over"))
            then match calculate_ev bo (field p (if under then "nvp_under" else "nvp_over")) with
                 | Ok (PFloat e) => Some e
                 | _ => None
                 end
            else None
        | None => None
        end
      else None
  | _, _ => None
  end.

(** The row [r] is the row of one side of the secondary total against the
    reference total [p], with the EV [e]. *)
Definition total_row (under : bool) (odds p : pyval) (e : float) (r : row) : Prop :=
  kind r = ("Total", if under then "Under" else "Over")
  /\ pinnacle_nvp r = field p (if under then "nvp_american_under" else "nvp_american_over")
  /\ betbck_odds r = odds
  /\ ev r = [Fix2 (e * 100)%float; Lit "%"]
  /\ exists pl,
       normalize_total_line float_of_str (field p "points") = Ok (Some pl)
       /\ line r = [StrOf (PFloat pl)].

(** The row [r] is the row of the best of the reference totals [seen]:
    the row of one of them, and none of them has a greater EV. *)
Definition best_among (under : bool) (bck_line : option float) (odds : pyval)
    (seen : list pyval) (r : row) (e : float) : Prop :=
  (exists p, In p seen /\ total_ev under bck_line odds p = Some e /\ total_row under odds p e r)
  /\ forall p' e', In p' seen -> total_ev under bck_line odds p' = Some e' ->
                   PrimFloat.ltb e e' = false.

(** A slot of the totals loop after the reference totals [seen]: empty
    when none of them has an EV, the best of them otherwise. *)
Definition slot_of (under : bool) (bck_line : option float) (odds : pyval)
    (seen : list pyval) (b : best) : Prop :=
  match b with
  | None => forall p, In p seen -> total_ev under bck_line odds p = None
  | Some (r, v) => exists e, v = PFloat e /\ best_among under bck_line odds seen r e
  end.

(** Both slots of the totals loop, after the reference totals [seen]. *)
Definition slots_of (bck_line : option float) (over_odds under_odds : pyval)
    (seen : list (string * pyval)) (st : best * best) : Prop :=
  slot_of false bck_line over_odds (map snd seen) (fst st)
  /\ slot_of true bck_line under_odds (map snd seen) (snd st).

(** The full-game total row [r] of an analysis is the best one. *)
Definition best_total (under : bool) (bet_data period : pyval) (r : row) : Prop :=
  exists e,
    best_among under (fst (secondary_total under bet_data)) (snd (secondary_total under bet_data))
      (reference_totals period) r e.

End BestTotal.

(** A secondary total against two reference totals of the same line: the
    second one has the lower fair price, and so the greater EV. *)
Definition totals_bet : pyval :=
  PDict [ ("game_total_line", PFloat 2.5); ("game_total_over_odds", PStr "+100") ].

Definition totals_pinnacle : pyval :=
  PDict [ ("data",
           PDict [ ("home", PStr "A"); ("away", PStr "B");
                   ("periods",
                    PDict [ ("num_0", PDict [("totals",
                               PDict [ ("2.5", PDict [ ("points", PFloat 2.5);
                                                       ("nvp_american_over", PStr "-105");
                                                       ("nvp_over", PFloat 1.95) ]);
                                       ("alt", PDict [ ("points", PFloat 2.5);
                                                       ("nvp_american_over", PStr "-111");
                                                       ("nvp_over", PFloat 1.9) ]) ])]) ]) ]) ].

Definition totals_rows : list row :=
  Eval vm_compute in
    match fst (analyze_markets_for_ev (fun _ => None) totals_bet totals_pinnacle) with
    | Ok rows => rows
    | Raise _ => []
    end.

Module MatchInvariants.
Import MatchGames.

(** What a match record says of the game and of the reference event it
    pairs: the record holds the game itself, and the id and the team names
    of the event. *)
Definition pairs (m : match_record) (g : betbck_game) (e : pinnacle_event) : Prop :=
  matched_betbck_game m = g
  /\ event_id e = Some (pinnacle_event_id m)
  /\ pinnacle_home_team m = pe_home_team e
  /\ pinnacle_away_team m = pe_away_team e.

(** The invariant of the loop over the games that traces every record back
    to the inputs: the record pairs a game of the slate, whose key was not
    matched on entry, with an event of the list that is neither minor
    league nor a prop market, is league-compatible with the game and of
    the sport of the record, at a score of at least the threshold; the matched keys are those on entry
    preceded by the keys of the records, latest first. *)
Definition traced (pinnacle_events : list pinnacle_event) (betbck_games : list betbck_game)
    (matched_ids : list string) (st : loop_state) : Prop :=
  (forall m, In m (matched_events st) ->
     In (matched_betbck_game m) betbck_games
     /\ ~ In (game_key (matched_betbck_game m)) matched_ids
     /\ PrimFloat.leb FUZZY_MATCH_THRESHOLD (match_score m) = true
     /\ exists e,
          In e pinnacle_events
          /\ pairs m (matched_betbck_game m) e
          /\ is_minor e = false
          /\ is_prop_market_by_name (pe_home_team e) (pe_away_team e) = false
          /\ is_league_compatible (matched_betbck_game m) e = true
          /\ determine_sport_from_teams (lower (pe_home_team e)) (lower (pe_away_team e))
             = sport m)
  /\ matched_betbck_ids st
     = rev (map (fun m => game_key (matched_betbck_game m)) (matched_events st)) ++ matched_ids.

(** The records of the sample slate when the key of its second game was
    matched by an earlier call. *)
Definition later_records : list match_record :=
  Eval vm_compute in
    match match_pinnacle_to_betbck exact_ratio (fun _ _ => None) ["g2"]
            sample_events sample_games with
    | Ok (records, _) => records
    | Raise _ => []
    end.

End MatchInvariants.

(* ===================================================================== *)
(** * Odds arithmetic *)
(* ===================================================================== *)

Section FloatOrder.

Lemma Prim2SF_zero : Prim2SF 0 = S754_zero false.
Proof. reflexivity. Qed.

(** A float above zero is neither zero nor below it. *)
Lemma float_pos_not_le (x : float) :
  PrimFloat.ltb 0 x = true -> PrimFloat.eqb x 0 = false /\ PrimFloat.leb x 0 = false.
Proof.
  rewrite ltb_spec, eqb_spec, leb_spec, Prim2SF_zero.
  unfold SFltb, SFeqb, SFleb.
  destruct (Prim2SF x) as [s | s | | s m e]; simpl; try discriminate;
    destruct s; simpl; try discriminate; auto.
Qed.

End FloatOrder.

(** C4 (as stated, refuted): with a negative bet price the function
    returns the float 0.0, a value, where the claim says the result is
    absent. *)
Lemma calculate_ev_nonpositive_is_zero_not_absent :
  PrimFloat.leb (-1.5) 0 = true
  /\ calculate_ev (-1.5) (PFloat 2) = Ok (PFloat 0)
  /\ calculate_ev (-1.5) (PFloat 2) <> Ok PNone.
Proof.
  repeat split; try (vm_compute; reflexivity).
  vm_compute. discriminate.
Qed.

(** C4 (amended): for float arguments, [calculate_ev b t] is [b / t - 1]
    when both are positive, and the float 0.0 (not an absent value) when
    either is zero or negative. *)
Theorem calculate_ev_definition (b t : float) :
  (PrimFloat.ltb 0 b = true -> PrimFloat.ltb 0 t = true ->
   calculate_ev b (PFloat t) = Ok (PFloat (b / t - 1)))
  /\ (PrimFloat.leb b 0 = true \/ PrimFloat.leb t 0 = true ->
      calculate_ev b (PFloat t) = Ok (PFloat 0)).
Proof.
  split.
  - intros Hb Ht.
    destruct (float_pos_not_le b Hb) as [Hb0 Hble].
    destruct (float_pos_not_le t Ht) as [Ht0 Htle].
    unfold calculate_ev. cbn [truthy le_zero as_float bind].
    rewrite Hb0, Ht0, Hble, Htle. reflexivity.
  - intros H. unfold calculate_ev. cbn [truthy le_zero as_float bind].
    destruct (PrimFloat.eqb b 0); [reflexivity|].
    destruct (PrimFloat.eqb t 0); [reflexivity|]. cbn [negb].
    destruct (PrimFloat.leb b 0) eqn:Eb; [reflexivity|].
    destruct H as [H | H]; [discriminate|]. rewrite H. reflexivity.
Qed.

Lemma calculate_ev_definition_witness :
  calculate_ev 2 (PFloat 4) = Ok (PFloat (2 / 4 - 1))
  /\ calculate_ev 0 (PFloat 4) = Ok (PFloat 0).
Proof.
  split.
  - apply (proj1 (calculate_ev_definition 2 4)); vm_compute; reflexivity.
  - apply (proj2 (calculate_ev_definition 0 4)). left. vm_compute. reflexivity.
Defined.

Section NoVig.

Variable math_pow : float -> float -> res float.
Variable math_log : float -> res float.
Variable round3 : float -> float.

Lemma place_valid_is_pass_through (odds_list : list pyval) :
  place odds_list (filter valid_odd odds_list) = pass_through odds_list.
Proof.
  induction odds_list as [|odd r IH]; [reflexivity|].
  cbn [filter place pass_through map].
  destruct (valid_odd odd) eqn:E; cbn; f_equal; exact IH.
Qed.

(** C3 (amended): with fewer than two valid entries every output is
    absent; with at least two valid entries whose implied probabilities
    sum to a non-zero value of at most 1.0001, each valid entry's output
    is its input and every other output is absent. *)
Theorem nvp_without_vig (odds_list : list pyval) :
  ((List.length (filter valid_odd odds_list) < 2)%nat ->
   calculate_nvp_for_market math_pow math_log round3 odds_list = Ok (all_none odds_list))
  /\ (forall probs,
        (2 <= List.length (filter valid_odd odds_list))%nat ->
        implied_probs (filter valid_odd odds_list) = Ok probs ->
        PrimFloat.eqb (py_sum probs) 0 = false ->
        PrimFloat.leb (py_sum probs) 1.0001 = true ->
        calculate_nvp_for_market math_pow math_log round3 odds_list
        = Ok (pass_through odds_list)).
Proof.
  split.
  - intros H. unfold calculate_nvp_for_market.
    apply Nat.ltb_lt in H. rewrite H. reflexivity.
  - intros probs Hn Hp Hz Hs. unfold calculate_nvp_for_market.
    apply Nat.ltb_ge in Hn. rewrite Hn, Hp. cbn [bind].
    rewrite Hz, Hs. rewrite place_valid_is_pass_through. reflexivity.
Qed.

End NoVig.

(** C3 (as stated, refuted): one valid price and one absent price; the
    market has fewer than two valid entries and the valid entry's output is
    absent, not its input. *)
Lemma nvp_single_valid_entry_is_dropped :
  valid_odd (PFloat 2) = true
  /\ (List.length (filter valid_odd [PFloat 2; PNone]) < 2)%nat
  /\ calculate_nvp_for_market (fun _ _ => Raise ValueError) (fun _ => Raise ValueError)
       (fun x => x) [PFloat 2; PNone] = Ok [PNone; PNone].
Proof.
  split; [reflexivity | split; [cbn; lia | vm_compute; reflexivity]].
Qed.

Lemma nvp_without_vig_witness :
  calculate_nvp_for_market (fun _ _ => Raise ValueError) (fun _ => Raise ValueError)
    (fun x => x) [PFloat 2; PNone] = Ok [PNone; PNone]
  /\ calculate_nvp_for_market (fun _ _ => Raise ValueError) (fun _ => Raise ValueError)
       (fun x => x) [PFloat 2.5; PStr "x"; PInt 2] = Ok [PFloat 2.5; PNone; PInt 2].
Proof.
  split.
  - apply (proj1 (nvp_without_vig _ _ _ [PFloat 2; PNone])). cbn. lia.
  - apply (proj2 (nvp_without_vig _ _ _ [PFloat 2.5; PStr "x"; PInt 2]) [0.4; 0.5]%float);
      [cbn; lia | vm_compute; reflexivity ..].
Defined.

Lemma round_trip_from_sound (n : nat) :
  forall lo, round_trip_from n lo = true ->
  forall a, lo <= a < lo + Z.of_nat n -> round_trip_ok a = true.
Proof.
  induction n as [|n IH]; intros lo H a Ha.
  - lia.
  - cbn [round_trip_from] in H.
    destruct (round_trip_ok lo) eqn:E; [|discriminate].
    destruct (Z.eq_dec a lo) as [->|Hne]; [exact E|].
    apply (IH (lo + 1) H). lia.
Qed.

Lemma round_trip_ok_spec (a : Z) :
  round_trip_ok a = true -> round_trip a = Ok (Some (american_text a)).
Proof.
  unfold round_trip_ok. destruct (round_trip a) as [[s|]|]; try discriminate.
  intros H. apply String.eqb_eq in H. now subst.
Qed.

Lemma round_trip_favourites : round_trip_from (Z.to_nat 99900) (-100000) = true.
Proof. vm_compute. reflexivity. Qed.

Lemma round_trip_underdogs : round_trip_from (Z.to_nat 99901) 100 = true.
Proof. vm_compute. reflexivity. Qed.

(** C2 (as stated, refuted): the price -100 is even money, decimal 2.0,
    which [decimal_to_american] writes [+100]. *)
Lemma round_trip_minus_100 :
  round_trip (-100) = Ok (Some "+100") /\ american_text (-100) = "-100".
Proof. split; vm_compute; reflexivity. Qed.

(** C2 (amended): for every American price [a] from -100000 to -101 or
    from +100 to +100000, converting to decimal and back gives the text of
    [a]. *)
Theorem odds_round_trip (a : Z) :
  -100000 <= a <= -101 \/ 100 <= a <= 100000 ->
  round_trip a = Ok (Some (american_text a)).
Proof.
  intros H. apply round_trip_ok_spec. destruct H as [H | H].
  - apply (round_trip_from_sound _ _ round_trip_favourites). rewrite Z2Nat.id; lia.
  - apply (round_trip_from_sound _ _ round_trip_underdogs). rewrite Z2Nat.id; lia.
Qed.

Lemma odds_round_trip_witness : round_trip (-110) = Ok (Some (american_text (-110))).
Proof. apply odds_round_trip. left. lia. Defined.

(* ===================================================================== *)
(** * Alias table *)
(* ===================================================================== *)

Lemma str_in_In (x : string) (l : list string) : str_in x l = true <-> In x l.
Proof.
  unfold str_in. rewrite existsb_exists. split.
  - intros [y [Hy E]]. apply String.eqb_eq in E. now subst.
  - intros H. exists x. split; [exact H | apply String.eqb_refl].
Qed.

Lemma alias_pairs_ok : forallb alias_pair_ok alias_pairs = true.
Proof. vm_compute. reflexivity. Qed.

Lemma in_alias_pairs (canonical alias : string) (aliases : list string) :
  In (canonical, aliases) TEAM_ALIASES -> In alias aliases ->
  In (canonical, alias) alias_pairs.
Proof.
  intros Hc Ha. unfold alias_pairs. apply in_flat_map.
  exists (canonical, aliases). split; [exact Hc|].
  cbn [fst snd]. apply in_map. exact Ha.
Qed.

(** C8 (as stated, refuted): [czechia] is an alias of [czech republic] in
    the table, and the normalizer leaves both names as they are. *)
Lemma alias_czechia_not_closed :
  In ("czech republic", ["czechia"]) TEAM_ALIASES
  /\ normalize_team_name_for_matching "czechia" = "czechia"
  /\ normalize_team_name_for_matching "czech republic" = "czech republic".
Proof.
  split; [|split; vm_compute; reflexivity].
  unfold TEAM_ALIASES. cbn. tauto.
Qed.

(** C8 (amended): for every (canonical, alias) pair of [TEAM_ALIASES],
    [alias_normalize] sends the alias and the canonical name to the
    canonical name; [normalize_team_name_for_matching], which does not read
    the table, agrees on the two exactly for the aliases its fixed rewrites
    cover. *)
Theorem alias_closure (canonical alias : string) (aliases : list string) :
  In (canonical, aliases) TEAM_ALIASES -> In alias aliases ->
  alias_normalize alias = alias_normalize canonical
  /\ alias_normalize canonical = canonical
  /\ (normalize_team_name_for_matching alias = normalize_team_name_for_matching canonical
      <-> In alias rewritten_aliases).
Proof.
  intros Hc Ha.
  pose proof (in_alias_pairs _ _ _ Hc Ha) as Hin.
  pose proof (proj1 (forallb_forall _ _) alias_pairs_ok _ Hin) as Hok.
  unfold alias_pair_ok in Hok.
  apply andb_prop in Hok. destruct Hok as [Hok Hn].
  apply andb_prop in Hok. destruct Hok as [H1 H2].
  apply String.eqb_eq in H1, H2. apply Bool.eqb_prop in Hn.
  split; [congruence | split; [exact H2 |]].
  rewrite <- str_in_In, <- Hn. symmetry. apply String.eqb_eq.
Qed.

Lemma alias_closure_witness :
  alias_normalize "czechia" = alias_normalize "czech republic"
  /\ alias_normalize "czech republic" = "czech republic"
  /\ (normalize_team_name_for_matching "czechia"
      = normalize_team_name_for_matching "czech republic"
      <-> In "czechia" rewritten_aliases).
Proof.
  apply (alias_closure "czech republic" "czechia" ["czechia"]).
  - unfold TEAM_ALIASES. cbn. tauto.
  - cbn. tauto.
Defined.

(* ===================================================================== *)
(** * Market analysis *)
(* ===================================================================== *)


Lemma py_get_field (d : list (string * pyval)) (k : string) :
  py_get (PDict d) k PNone = Ok (field (PDict d) k).
Proof. reflexivity. Qed.

Lemma or_else_ok (a b : pyval) : or_else a (Ok b) = Ok (py_or a b).
Proof. unfold or_else, py_or. destruct (truthy a); reflexivity. Qed.


Section AnalyzerFacts.

Variable float_of_str : string -> option float.




End AnalyzerFacts.


Lemma fst_bindM {A B} (m : M A) (k : A -> M B) :
  fst (bindM m k) = match fst m with Ok a => fst (k a) | Raise e => Raise e end.
Proof. unfold bindM. destruct (fst m); reflexivity. Qed.

(** The guard only passes on two dicts. *)
Lemma validate_true_dicts (bet_data pinnacle_data : pyval) :
  fst (_validate_period_separation bet_data pinnacle_data) = true ->
  is_dict bet_data = true /\ is_dict pinnacle_data = true.
Proof.
  unfold _validate_period_separation.
  destruct bet_data; try (cbn; discriminate).
  destruct pinnacle_data; try (cbn; discriminate).
  intros _. split; reflexivity.
Qed.

Section Totality.

Variable float_of_str : string -> option float.

(** Once the copies are made no exception leaves the analysis: for every
    pair of values it returns a list of rows. *)
Lemma analysis_returns (bet_data pinnacle_data : pyval) :
  exists rows,
    fst (analyze_markets_for_ev float_of_str bet_data pinnacle_data) = Ok rows.
Proof.
  unfold analyze_markets_for_ev.
  destruct (_validate_period_separation _ _) as [valid vlog] eqn:V.
  rewrite fst_bindM. cbn [fst].
  destruct valid; cbn [negb].
  2:{ eexists. reflexivity. }
  assert (Hd : is_dict (if truthy pinnacle_data then pinnacle_data else PDict []) = true).
  { apply (validate_true_dicts (if truthy bet_data then bet_data else PDict [])).
    rewrite V. reflexivity. }
  destruct (if truthy pinnacle_data then pinnacle_data else PDict []) as [| | | | | |pd];
    try discriminate Hd.
  destruct (truthy (PDict pd)) eqn:T; cbn [negb].
  2:{ eexists. reflexivity. }
  cbn [is_dict negb]. rewrite fst_bindM. cbn [lift fst py_get].
  destruct (dict_get pd "data") as [v|] eqn:G.
  2:{ eexists. reflexivity. }
  destruct (truthy v) eqn:Tv; cbn [negb].
  2:{ eexists. reflexivity. }
  rewrite fst_bindM. cbn [lift fst py_getitem]. rewrite G.
  destruct (is_none v).
  { eexists. reflexivity. }
  destruct (fst (analyze_try _ _ _)); eexists; reflexivity.
Qed.

End Totality.

(* ===================================================================== *)
(** * The defensive copies *)
(* ===================================================================== *)

Lemma for_each_same {A} (body : A -> res A) (l l' : list A) :
  (forall x y, In x l -> body x = Ok y -> y = x) ->
  for_each l body = Ok l' -> l' = l.
Proof.
  revert l'. induction l as [|x r IH]; intros l' Hb H; cbn [for_each] in H.
  - injection H as <-. reflexivity.
  - destruct (body x) as [y|] eqn:Ex; [cbn [bind] in H | discriminate H].
    destruct (for_each r body) as [ys|] eqn:Er; [cbn [bind] in H | discriminate H].
    injection H as <-. f_equal.
    + apply (Hb x y); [left; reflexivity | exact Ex].
    + apply IH; [|reflexivity]. intros x' y' Hx'. apply Hb. right. exact Hx'.
Qed.

Lemma for_each_raises {A B} (body : A -> res B) (l : list A) (e e' : exn) :
  (forall x e0, In x l -> body x = Raise e0 -> e0 = e') ->
  for_each l body = Raise e -> e = e'.
Proof.
  induction l as [|x r IH]; intros Hb H; cbn [for_each] in H; [discriminate H|].
  destruct (body x) as [y|e0] eqn:Ex; cbn [bind] in H.
  - destruct (for_each r body) as [ys|e1] eqn:Er; cbn [bind] in H; [discriminate H|].
    injection H as <-. apply IH; [|reflexivity].
    intros x' e0 Hx'. apply Hb. right. exact Hx'.
  - injection H as <-. apply (Hb x e0); [left; reflexivity | exact Ex].
Qed.

(** What [copy.deepcopy] returns is equal to what it was given, and the
    only exception it raises is [RecursionError]; shown for [frames] and
    [frames + 1] together, the copies of the elements having two frames
    fewer. *)
Lemma deepcopy_spec (frames : nat) :
  (forall x, (forall y, deepcopy frames x = Ok y -> y = x)
             /\ (forall e, deepcopy frames x = Raise e -> e = RecursionError))
  /\ (forall x, (forall y, deepcopy (S frames) x = Ok y -> y = x)
                /\ (forall e, deepcopy (S frames) x = Raise e -> e = RecursionError)).
Proof.
  induction frames as [|n [IHn IHSn]].
  - split; intros x; (split; [discriminate | intros e H; injection H as <-; reflexivity]).
  - split; [exact IHSn|]. intros x.
    change (deepcopy (S (S n)) x) with
      (match x with
       | PList l => l' <- for_each l (deepcopy n) ;; Ok (PList l')
       | PDict d =>
           d' <- for_each d (fun kv =>
                   value <- deepcopy n (snd kv) ;;
                   key <- deepcopy n (PStr (fst kv)) ;;
                   Ok (fst kv, value)) ;;
           Ok (PDict d')
       | _ => Ok x
       end).
    destruct x as [| | | | |l|d];
      try (split; [intros y H; injection H as <-; reflexivity | discriminate]).
    + split.
      * intros y H.
        destruct (for_each l (deepcopy n)) as [l'|] eqn:El; [cbn [bind] in H | discriminate H].
        injection H as <-. f_equal. apply (for_each_same _ _ _ (fun x y _ => proj1 (IHn x) y) El).
      * intros e H.
        destruct (for_each l (deepcopy n)) as [l'|e0] eqn:El; [discriminate H|].
        injection H as <-.
        apply (for_each_raises _ _ _ _ (fun x e0 _ => proj2 (IHn x) e0) El).
    + match goal with
      | |- context [for_each d ?b] => set (body := b)
      end.
      assert (Hok : forall kv kv', body kv = Ok kv' -> kv' = kv).
      { intros [k v] kv'. unfold body. cbn [fst snd].
        destruct (deepcopy n v) as [v'|] eqn:Ev; [cbn [bind] | discriminate].
        destruct (deepcopy n (PStr k)); [cbn [bind] | discriminate].
        intros H. injection H as <-. rewrite (proj1 (IHn v) v' Ev). reflexivity. }
      assert (Herr : forall kv e, body kv = Raise e -> e = RecursionError).
      { intros [k v] e. unfold body. cbn [fst snd].
        destruct (deepcopy n v) as [v'|e0] eqn:Ev; cbn [bind].
        - destruct (deepcopy n (PStr k)) as [k'|e1] eqn:Ek; cbn [bind]; [discriminate|].
          intros H. injection H as <-. exact (proj2 (IHn (PStr k)) e1 Ek).
        - intros H. injection H as <-. exact (proj2 (IHn v) e0 Ev). }
      split.
      * intros y H.
        destruct (for_each d body) as [d'|] eqn:Ed; [cbn [bind] in H | discriminate H].
        injection H as <-. f_equal.
        apply (for_each_same _ _ _ (fun x y _ => Hok x y) Ed).
      * intros e H.
        destruct (for_each d body) as [d'|e0] eqn:Ed; [discriminate H|].
        injection H as <-.
        apply (for_each_raises _ _ _ _ (fun x e0 _ => Herr x e0) Ed).
Qed.

Lemma deepcopy_equal (frames : nat) (x y : pyval) : deepcopy frames x = Ok y -> y = x.
Proof. exact (proj1 (proj1 (deepcopy_spec frames) x) y). Qed.

Lemma deepcopy_recursion (frames : nat) (x : pyval) (e : exn) :
  deepcopy frames x = Raise e -> e = RecursionError.
Proof. exact (proj2 (proj1 (deepcopy_spec frames) x) e). Qed.

(** [n] nested dicts around an empty one take [2 * n + 2] frames. *)
Lemma deepcopy_nested (n : nat) :
  forall frames, (frames < 2 * n + 2)%nat -> deepcopy frames (nested n) = Raise RecursionError.
Proof.
  induction n as [|k IH]; intros frames H.
  - destruct frames as [|[|below]]; [reflexivity | reflexivity | lia].
  - destruct frames as [|[|below]]; [reflexivity | reflexivity |].
    cbn [nested deepcopy for_each fst snd]. rewrite (IH below) by lia. reflexivity.
Qed.

Section Copies.

Variable frames : nat.
Variable float_of_str : string -> option float.

(** The analysis of the copies is the analysis of the values. *)
Lemma analyze_of_copies (bet_data pinnacle_data b p : pyval) :
  WithCopies.defensive_copy frames bet_data = Ok b ->
  WithCopies.defensive_copy frames pinnacle_data = Ok p ->
  analyze_markets_for_ev float_of_str b p
  = analyze_markets_for_ev float_of_str bet_data pinnacle_data.
Proof.
  unfold WithCopies.defensive_copy. intros Hb Hp.
  assert (Eb : (if truthy b then b else PDict [])
               = (if truthy bet_data then bet_data else PDict [])).
  { destruct (truthy bet_data) eqn:T.
    - apply deepcopy_equal in Hb. subst b. rewrite T. reflexivity.
    - injection Hb as <-. reflexivity. }
  assert (Ep : (if truthy p then p else PDict [])
               = (if truthy pinnacle_data then pinnacle_data else PDict [])).
  { destruct (truthy pinnacle_data) eqn:T.
    - apply deepcopy_equal in Hp. subst p. rewrite T. reflexivity.
    - injection Hp as <-. reflexivity. }
  unfold analyze_markets_for_ev. rewrite Eb, Ep. reflexivity.
Qed.

(** The call returns the list of the analysis whenever both copies are
    made, and the only exception that leaves it is the [RecursionError] of
    a copy; nothing is logged before it. *)
Lemma call_returns_or_recursion (bet_data pinnacle_data : pyval) :
  (exists b p,
     WithCopies.defensive_copy frames bet_data = Ok b
     /\ WithCopies.defensive_copy frames pinnacle_data = Ok p
     /\ WithCopies.analyze_markets_for_ev frames float_of_str bet_data pinnacle_data
        = analyze_markets_for_ev float_of_str bet_data pinnacle_data
     /\ exists rows,
          fst (WithCopies.analyze_markets_for_ev frames float_of_str bet_data pinnacle_data)
          = Ok rows)
  \/ ((WithCopies.defensive_copy frames bet_data = Raise RecursionError
       \/ WithCopies.defensive_copy frames pinnacle_data = Raise RecursionError)
      /\ WithCopies.analyze_markets_for_ev frames float_of_str bet_data pinnacle_data
         = (Raise RecursionError, [])).
Proof.
  unfold WithCopies.analyze_markets_for_ev.
  destruct (WithCopies.defensive_copy frames bet_data) as [b|e] eqn:Eb.
  - destruct (WithCopies.defensive_copy frames pinnacle_data) as [p|e] eqn:Ep.
    + left. exists b, p. split; [reflexivity|]. split; [reflexivity|].
      assert (E : bindM (lift (Ok b)) (fun b0 =>
                    bindM (lift (Ok p)) (fun p0 => analyze_markets_for_ev float_of_str b0 p0))
                  = analyze_markets_for_ev float_of_str bet_data pinnacle_data).
      { unfold bindM, lift. cbn [fst snd app].
        rewrite (analyze_of_copies _ _ _ _ Eb Ep).
        destruct (analyze_markets_for_ev float_of_str bet_data pinnacle_data) as [r l].
        reflexivity. }
      split; [exact E|]. rewrite E. apply analysis_returns.
    + right. assert (e = RecursionError) as ->.
      { unfold WithCopies.defensive_copy in Ep.
        destruct (truthy pinnacle_data); [exact (deepcopy_recursion _ _ _ Ep) | discriminate Ep]. }
      split; [right; reflexivity | reflexivity].
  - right. assert (e = RecursionError) as ->.
    { unfold WithCopies.defensive_copy in Eb.
      destruct (truthy bet_data); [exact (deepcopy_recursion _ _ _ Eb) | discriminate Eb]. }
    split; [left; reflexivity | reflexivity].
Qed.

End Copies.

(** C10 (code bug): a secondary record nested 600 dicts deep.  Whatever
    the reference event and the parser of [float], and however many of the
    1000 frames of the default recursion limit are left at the call, the
    copy of the record raises [RecursionError], and the exception leaves
    [analyze_markets_for_ev]: the copies stand before the first [try]. *)
Theorem analyze_markets_raises_on_deep_record (frames : nat)
    (float_of_str : string -> option float) (pinnacle_data : pyval) :
  (frames <= 1000)%nat ->
  WithCopies.analyze_markets_for_ev frames float_of_str (nested 600) pinnacle_data
  = (Raise RecursionError, []).
Proof.
  intros H. unfold WithCopies.analyze_markets_for_ev, WithCopies.defensive_copy.
  replace (truthy (nested 600)) with true by reflexivity.
  rewrite (deepcopy_nested 600 frames) by lia. reflexivity.
Qed.

Lemma analyze_markets_raises_on_deep_record_witness :
  fst (WithCopies.analyze_markets_for_ev 1000 (fun _ => None) (nested 600) PNone)
  = Raise RecursionError.
Proof.
  rewrite (analyze_markets_raises_on_deep_record 1000 (fun _ => None) PNone); [reflexivity | lia].
Defined.

(** ** Inversion of the monadic code *)

Ltac step H :=
  cbn [bind] in H;
  match type of H with
  | bind ?m _ = Ok _ =>
      let a := fresh "a" in
      let E := fresh "E" in
      destruct m as [a|] eqn:E; [cbn [bind] in H | discriminate H]
  | Ok _ = Ok _ => injection H as H
  | Raise _ = Ok _ => discriminate H
  | (if ?c then _ else _) = Ok _ =>
      let E := fresh "E" in destruct c eqn:E
  | (let '(_, _) := ?x in _) = Ok _ => destruct x
  | match ?x with _ => _ end = Ok _ =>
      let E := fresh "E" in destruct x eqn:E
  end.

Ltac steps H := repeat (step H).

Lemma for_rows_In {A} (body : A -> res (list row)) (l : list A) :
  forall rows, for_rows l body = Ok rows ->
  forall r, In r rows ->
  exists x rs, In x l /\ body x = Ok rs /\ In r rs.
Proof.
  induction l as [|x l IH]; intros rows H r Hr.
  - cbn in H. injection H as <-. destruct Hr.
  - cbn [for_rows] in H. steps H. subst rows.
    apply in_app_or in Hr. destruct Hr as [Hr | Hr].
    + exists x, a. split; [left; reflexivity | split; [exact E | exact Hr]].
    + destruct (IH _ eq_refl r Hr) as [y [rs [Hy [Hb Hrs]]]].
      exists y, rs. split; [right; exact Hy | split; assumption].
Qed.

Lemma try_continue_In (body : res (list row)) (rows : list row) (r : row) :
  try_continue body = Ok rows -> In r rows -> body = Ok rows.
Proof.
  unfold try_continue, catch. destruct body as [a|e]; intros H Hr.
  - exact H.
  - injection H as <-. destruct Hr.
Qed.

Section Rows.

Variable float_of_str : string -> option float.

Lemma moneyline_rows_market (mkt sel bk nak nk : string) (bet ml : pyval)
    (limit : res pyval) (names : res (pyval * pyval)) (rows : list row) :
  moneyline_rows mkt sel bk nak nk bet ml limit names = Ok rows ->
  forall r, In r rows -> market r = mkt /\ selection r = sel.
Proof.
  unfold moneyline_rows. intros H r Hr.
  steps H; subst rows; cbn in Hr; try contradiction.
  destruct Hr as [<- | []]. split; reflexivity.
Qed.

(** A spread row comes from a secondary line and a reference handicap
    that [math.isclose] accepts: the handicap itself for the home side, its
    negation for the away side. *)
Lemma spread_rows_paired (mkt : string) (away : bool)
    (s pin_spread bet_line line meta_limits : pyval) (names : res (pyval * pyval))
    (rows : list row) :
  spread_rows float_of_str mkt away s pin_spread bet_line line meta_limits names = Ok rows ->
  forall r, In r rows ->
  market r = mkt
  /\ selection r = (if away then "Away" else "Home")
  /\ exists fb fl,
       py_float float_of_str bet_line = Ok fb
       /\ py_float float_of_str line = Ok fl
       /\ isclose fb (if away then (- fl)%float else fl) = true.
Proof.
  unfold spread_rows. intros H r Hr.
  steps H; subst rows; cbn in Hr; try contradiction.
  destruct Hr as [<- | []]. cbn [market selection].
  split; [reflexivity | split; [reflexivity |]].
  exists a, a0. repeat split; try assumption.
  apply negb_false_iff. assumption.
Qed.

Lemma total_1h_rows_market (under : bool) (total pin_total bet_line : pyval)
    (pin_line : option float) (meta_limits home_t away_t : pyval) (rows : list row) :
  total_1h_rows under total pin_total bet_line pin_line meta_limits home_t away_t = Ok rows ->
  forall r, In r rows -> market r = "1H Total".
Proof.
  unfold total_1h_rows. intros H r Hr.
  steps H; subst rows; cbn in Hr; try contradiction;
    destruct Hr as [<- | []]; reflexivity.
Qed.

Lemma total_side_market (under : bool) (odds pin_total : pyval) (pin_line : float)
    (meta_limits : pyval) (names : res (pyval * pyval)) (cur new : best) :
  total_side under odds pin_total pin_line meta_limits names cur = Ok new ->
  (forall r e, cur = Some (r, e) -> market r = "Total") ->
  forall r e, new = Some (r, e) -> market r = "Total".
Proof.
  unfold total_side. intros H Hc r e Hn.
  steps H; subst new; try (eapply Hc; eassumption);
    injection Hn as <- <-; reflexivity.
Qed.

End Rows.

Lemma py_get_ok_field (v : pyval) (k : string) (x : pyval) :
  py_get v k PNone = Ok x -> x = field v k.
Proof.
  destruct v; cbn; try discriminate. intros H. injection H as <-. reflexivity.
Qed.

Lemma reference_spreads_items (period pin_spreads : pyval)
    (items : list (string * pyval)) (kv : string * pyval) :
  py_get period "spreads" (PDict []) = Ok pin_spreads ->
  py_items pin_spreads = Ok items -> In kv items ->
  In (snd kv) (reference_spreads period).
Proof.
  intros Hg Hi Hk. destruct pin_spreads; try discriminate Hi.
  cbn in Hi. injection Hi as ->.
  destruct period; try discriminate Hg. cbn in Hg.
  unfold reference_spreads, field.
  destruct (dict_get d "spreads") as [x|].
  - injection Hg as ->. apply in_map. exact Hk.
  - injection Hg as <-. destruct Hk.
Qed.

Lemma secondary_spreads_iter (away : bool) (data v : pyval) (l : list pyval) :
  py_get data (if away then "away_spreads" else "home_spreads") (PList []) = Ok v ->
  py_iter v = Ok l -> secondary_spreads away data = l.
Proof. intros Hg Hi. unfold secondary_spreads. rewrite Hg, Hi. reflexivity. Qed.

Section FirstHalf.

Variable float_of_str : string -> option float.

(** The spread loops of the first-half function (secondary spread outside,
    reference spread inside). *)
Lemma spread_loop_1h (away : bool) (pin_spreads meta_limits : pyval)
    (names : res (pyval * pyval)) (spreads : list pyval) (rows : list row) (r : row) :
  for_rows spreads (fun spread =>
    bet_line <- py_get spread "line" PNone ;;
    items <- py_items pin_spreads ;;
    for_rows items (fun kv =>
      let pin_spread := snd kv in
      line <- py_get pin_spread "hdp" PNone ;;
      try_continue (spread_rows float_of_str "1H Spread" away spread pin_spread bet_line line
                      meta_limits names))) = Ok rows ->
  In r rows ->
  market r = "1H Spread"
  /\ selection r = (if away then "Away" else "Home")
  /\ exists s items kv fb fl,
       In s spreads /\ py_items pin_spreads = Ok items /\ In kv items
       /\ py_float float_of_str (field s "line") = Ok fb
       /\ py_float float_of_str (field (snd kv) "hdp") = Ok fl
       /\ isclose fb (if away then (- fl)%float else fl) = true.
Proof.
  intros H Hr.
  destruct (for_rows_In _ _ _ H r Hr) as [s [rs [Hs [Hb Hrs]]]].
  steps Hb.
  destruct (for_rows_In _ _ _ Hb r Hrs) as [kv [rs' [Hkv [Hb' Hrs']]]].
  cbv zeta in Hb'. steps Hb'.
  apply (try_continue_In _ _ r) in Hb'; [|exact Hrs'].
  destruct (spread_rows_paired _ _ _ _ _ _ _ _ _ _ Hb' r Hrs') as [Hm [Hsel [fb [fl [H1 [H2 H3]]]]]].
  split; [exact Hm | split; [exact Hsel |]].
  exists s, a0, kv, fb, fl.
  apply py_get_ok_field in E, E1. subst.
  repeat split; assumption.
Qed.

Lemma total_loop_1h (under : bool) (pin_totals meta_limits home_t away_t : pyval)
    (totals : list pyval) (rows : list row) (r : row) :
  for_rows totals (fun total =>
    bet_line <- py_get total "line" PNone ;;
    items <- py_items pin_totals ;;
    for_rows items (fun kv =>
      let pin_total := snd kv in
      pts <- py_get pin_total "points" PNone ;;
      pin_line <- normalize_total_line float_of_str pts ;;
      try_continue (total_1h_rows under total pin_total bet_line pin_line
                      meta_limits home_t away_t))) = Ok rows ->
  In r rows -> market r = "1H Total".
Proof.
  intros H Hr.
  destruct (for_rows_In _ _ _ H r Hr) as [s [rs [Hs [Hb Hrs]]]].
  steps Hb.
  destruct (for_rows_In _ _ _ Hb r Hrs) as [kv [rs' [Hkv [Hb' Hrs']]]].
  cbv zeta in Hb'. steps Hb'.
  apply (try_continue_In _ _ r) in Hb'; [|exact Hrs'].
  eapply total_1h_rows_market; eassumption.
Qed.

(** Every row of the first-half function is labelled first half, and its
    spread rows pair a first-half spread of the secondary book with a
    spread of the reference period it was given. *)
Lemma analyze_1h_rows (bet_1h_data pinnacle_1h_data pin_data : pyval) (r : row) :
  In r (fst (_analyze_1h_markets_for_ev float_of_str bet_1h_data pinnacle_1h_data pin_data)) ->
  is_1h r = true
  /\ (market r = "1H Spread" \/ market r = "Spread" ->
      spread_pairing float_of_str bet_1h_data pinnacle_1h_data r).
Proof.
  unfold _analyze_1h_markets_for_ev.
  destruct (analyze_1h_try _ _ _ _) as [rows|e] eqn:H; cbn [fst]; [|intros []].
  intros Hr. unfold analyze_1h_try in H. steps H. subst rows.
  repeat (apply in_app_or in Hr; destruct Hr as [Hr | Hr]).
  - destruct (moneyline_rows_market _ _ _ _ _ _ _ _ _ _ E3 r Hr) as [Hm _].
    unfold is_1h. rewrite Hm. split; [reflexivity|]. intros [H|H]; discriminate H.
  - destruct (moneyline_rows_market _ _ _ _ _ _ _ _ _ _ E4 r Hr) as [Hm _].
    unfold is_1h. rewrite Hm. split; [reflexivity|]. intros [H|H]; discriminate H.
  - destruct (spread_loop_1h _ _ _ _ _ _ _ E8 Hr)
      as [Hm [Hsel [s [items [kv [fb [fl [Hs [Hi [Hk [H1 [H2 H3]]]]]]]]]]]].
    unfold is_1h. rewrite Hm. split; [reflexivity|]. intros _.
    exists false, s, (snd kv), fb, fl. repeat split; try assumption.
    + rewrite (secondary_spreads_iter false _ _ _ E6 E7). exact Hs.
    + eapply reference_spreads_items; eassumption.
  - destruct (spread_loop_1h _ _ _ _ _ _ _ E11 Hr)
      as [Hm [Hsel [s [items [kv [fb [fl [Hs [Hi [Hk [H1 [H2 H3]]]]]]]]]]]].
    unfold is_1h. rewrite Hm. split; [reflexivity|]. intros _.
    exists true, s, (snd kv), fb, fl. repeat split; try assumption.
    + rewrite (secondary_spreads_iter true _ _ _ E9 E10). exact Hs.
    + eapply reference_spreads_items; eassumption.
  - pose proof (total_loop_1h _ _ _ _ _ _ _ _ E15 Hr) as Hm.
    unfold is_1h. rewrite Hm. split; [reflexivity|]. intros [H|H]; discriminate H.
  - pose proof (total_loop_1h _ _ _ _ _ _ _ _ E18 Hr) as Hm.
    unfold is_1h. rewrite Hm. split; [reflexivity|]. intros [H|H]; discriminate H.
Qed.

End FirstHalf.

Lemma for_state_inv {A S} (P : S -> Prop) (body : S -> A -> res S) (l : list A) :
  (forall st x st', In x l -> P st -> body st x = Ok st' -> P st') ->
  forall st st', P st -> for_state l st body = Ok st' -> P st'.
Proof.
  induction l as [|x l IH]; intros Hb st st' Hst H.
  - cbn in H. injection H as <-. exact Hst.
  - cbn [for_state] in H. step H.
    refine (IH _ a st' _ H).
    + intros s y s' Hy. apply Hb. right. exact Hy.
    + refine (Hb st x a _ Hst _); [left; reflexivity | assumption].
Qed.

Section FullGame.

Variable float_of_str : string -> option float.

(** One turn of a spread loop of the full-game section. *)
Lemma spread_loop_full (away : bool) (pin_spread line meta_limits : pyval)
    (names : res (pyval * pyval)) (spreads : list pyval) (rows : list row) (r : row) :
  for_rows spreads (fun s =>
    bet_line <- py_get s "line" PNone ;;
    try_continue (spread_rows float_of_str "Spread" away s pin_spread bet_line line
                    meta_limits names)) = Ok rows ->
  In r rows ->
  market r = "Spread"
  /\ selection r = (if away then "Away" else "Home")
  /\ exists s fb fl,
       In s spreads
       /\ py_float float_of_str (field s "line") = Ok fb
       /\ py_float float_of_str line = Ok fl
       /\ isclose fb (if away then (- fl)%float else fl) = true.
Proof.
  intros H Hr.
  destruct (for_rows_In _ _ _ H r Hr) as [s [rs [Hs [Hb Hrs]]]].
  destruct (py_get s "line" PNone) as [bl|] eqn:Hl; [cbn [bind] in Hb | discriminate Hb].
  apply (try_continue_In _ _ r) in Hb; [|exact Hrs].
  destruct (spread_rows_paired _ _ _ _ _ _ _ _ _ _ Hb r Hrs) as [Hm [Hsel [fb [fl [H1 [H2 H3]]]]]].
  split; [exact Hm | split; [exact Hsel |]].
  exists s, fb, fl. apply py_get_ok_field in Hl. subst. repeat split; assumption.
Qed.

(** The spread section of the full-game pairings (reference spread
    outside, secondary spread inside). *)
Lemma spreads_block_full (bet_data meta_limits : pyval) (names : res (pyval * pyval))
    (items : list (string * pyval)) (rows : list row) (r : row) :
  for_rows items (fun kv =>
    let pin_spread := snd kv in
    line <- py_get pin_spread "hdp" PNone ;;
    hs <- py_get bet_data "home_spreads" (PList []) ;;
    hs <- py_iter hs ;;
    rh <- for_rows hs (fun s =>
            bet_line <- py_get s "line" PNone ;;
            try_continue (spread_rows float_of_str "Spread" false s pin_spread bet_line line
                            meta_limits names)) ;;
    aws <- py_get bet_data "away_spreads" (PList []) ;;
    aws <- py_iter aws ;;
    ra <- for_rows aws (fun s =>
            bet_line <- py_get s "line" PNone ;;
            try_continue (spread_rows float_of_str "Spread" true s pin_spread bet_line line
                            meta_limits names)) ;;
    Ok (rh ++ ra)) = Ok rows ->
  In r rows ->
  market r = "Spread"
  /\ exists (away : bool) s kv fb fl,
       selection r = (if away then "Away" else "Home")
       /\ In s (secondary_spreads away bet_data)
       /\ In kv items
       /\ py_float float_of_str (field s "line") = Ok fb
       /\ py_float float_of_str (field (snd kv) "hdp") = Ok fl
       /\ isclose fb (if away then (- fl)%float else fl) = true.
Proof.
  intros H Hr.
  destruct (for_rows_In _ _ _ H r Hr) as [kv [rs [Hkv [Hb Hrs]]]].
  clear H. cbv zeta in Hb.
  destruct (py_get (snd kv) "hdp" PNone) as [line|] eqn:Hline; [cbn [bind] in Hb | discriminate Hb].
  destruct (py_get bet_data "home_spreads" (PList [])) as [hv|] eqn:Hh; [cbn [bind] in Hb | discriminate Hb].
  destruct (py_iter hv) as [hs|] eqn:Hhi; [cbn [bind] in Hb | discriminate Hb].
  destruct (for_rows hs _) as [rh|] eqn:Hrh; [cbn [bind] in Hb | discriminate Hb].
  destruct (py_get bet_data "away_spreads" (PList [])) as [av|] eqn:Ha; [cbn [bind] in Hb | discriminate Hb].
  destruct (py_iter av) as [aws|] eqn:Hai; [cbn [bind] in Hb | discriminate Hb].
  destruct (for_rows aws _) as [ra|] eqn:Hra; [cbn [bind] in Hb | discriminate Hb].
  injection Hb as <-. apply py_get_ok_field in Hline. subst line.
  apply in_app_or in Hrs. destruct Hrs as [Hrs | Hrs].
  - destruct (spread_loop_full _ _ _ _ _ _ _ _ Hrh Hrs)
      as [Hm [Hsel [s [fb [fl [Hs [H1 [H2 H3]]]]]]]].
    split; [exact Hm|]. exists false, s, kv, fb, fl. repeat split; try assumption.
    rewrite (secondary_spreads_iter false _ _ _ Hh Hhi). exact Hs.
  - destruct (spread_loop_full _ _ _ _ _ _ _ _ Hra Hrs)
      as [Hm [Hsel [s [fb [fl [Hs [H1 [H2 H3]]]]]]]].
    split; [exact Hm|]. exists true, s, kv, fb, fl. repeat split; try assumption.
    rewrite (secondary_spreads_iter true _ _ _ Ha Hai). exact Hs.
Qed.

(** The totals section keeps rows of the [Total] market only. *)
Lemma totals_block_full (pin_totals meta_limits : pyval) (names : res (pyval * pyval))
    (betbck_totals : list (option float * pyval * pyval)) (st : best * best) :
  for_state betbck_totals (None, None) (fun st bck_total =>
    let '(bck_line, over_odds, under_odds) := bck_total in
    items <- py_items pin_totals ;;
    for_state items st (fun st kv =>
      let pin_total := snd kv in
      pts <- py_get pin_total "points" PNone ;;
      pin_line <- normalize_total_line float_of_str pts ;;
      match bck_line, pin_line with
      | Some bl, Some pl =>
          if isclose bl pl then
            bo <- total_side false over_odds pin_total pl meta_limits names (fst st) ;;
            bu <- total_side true under_odds pin_total pl meta_limits names (snd st) ;;
            Ok (bo, bu)
          else Ok st
      | _, _ => Ok st
      end)) = Ok st ->
  total_rows_only st.
Proof.
  apply (for_state_inv total_rows_only).
  2:{ intros r e [H | H]; discriminate H. }
  intros st0 [[bck_line over_odds] under_odds] st1 _ Hst0 Hb.
  destruct (py_items pin_totals) as [items|] eqn:Hi; [cbn [bind] in Hb | discriminate Hb].
  revert Hb. apply (for_state_inv total_rows_only); [|exact Hst0].
  clear st0 st1 Hst0. intros st0 kv st1 _ Hst0 Hb. cbv zeta in Hb.
  destruct (py_get (snd kv) "points" PNone) as [pts|]; [cbn [bind] in Hb | discriminate Hb].
  destruct (normalize_total_line float_of_str pts) as [pin_line|]; [cbn [bind] in Hb | discriminate Hb].
  destruct bck_line as [bl|]; [|injection Hb as <-; exact Hst0].
  destruct pin_line as [pl|]; [|injection Hb as <-; exact Hst0].
  destruct (isclose bl pl); [|injection Hb as <-; exact Hst0].
  destruct (total_side false _ _ _ _ _ _) as [bo|] eqn:Ho; [cbn [bind] in Hb | discriminate Hb].
  destruct (total_side true _ _ _ _ _ _) as [bu|] eqn:Hu; [cbn [bind] in Hb | discriminate Hb].
  injection Hb as <-. intros r e Hr. cbn [fst snd] in Hr. destruct Hr as [Hr | Hr].
  - eapply (total_side_market false); [exact Ho | | exact Hr].
    intros r0 e0 H0. eapply Hst0. left. exact H0.
  - eapply (total_side_market true); [exact Hu | | exact Hr].
    intros r0 e0 H0. eapply Hst0. right. exact H0.
Qed.

(** Every row of the full-game pairings is labelled without the first-half
    prefix, and its spread rows pair a full-game spread of the secondary
    book with a spread of the reference period it was given. *)
Lemma full_game_rows_markets (bet_data pin_data full_game ml meta_limits : pyval)
    (rows : list row) (r : row) :
  full_game_rows float_of_str bet_data pin_data full_game ml meta_limits = Ok rows ->
  In r rows ->
  is_1h r = false
  /\ (market r = "1H Spread" \/ market r = "Spread" ->
      spread_pairing float_of_str bet_data full_game r).
Proof.
  intros H Hr. unfold full_game_rows in H.
  destruct (moneyline_rows "Moneyline" "Home" _ _ _ _ _ _ _) as [r1|] eqn:H1;
    [cbn [bind] in H | discriminate H].
  destruct (moneyline_rows "Moneyline" "Away" _ _ _ _ _ _ _) as [r2|] eqn:H2;
    [cbn [bind] in H | discriminate H].
  destruct (moneyline_rows "Moneyline" "Draw" _ _ _ _ _ _ _) as [r3|] eqn:H3;
    [cbn [bind] in H | discriminate H].
  destruct (py_get full_game "spreads" PNone) as [sp|] eqn:Hsp;
    [cbn [bind] in H | discriminate H].
  destruct (py_items _) as [items|] eqn:Hitems; [cbn [bind] in H | discriminate H].
  destruct (for_rows items _) as [r4|] eqn:H4; [cbn [bind] in H | discriminate H].
  destruct (py_get full_game "totals" PNone) as [tt|] eqn:Htt;
    [cbn [bind] in H | discriminate H].
  destruct (py_get bet_data "game_total_line" PNone) as [gtl|] eqn:Hgtl;
    [cbn [bind] in H | discriminate H].
  match type of H with bind ?m _ = _ => destruct m as [betbck_totals|] eqn:Hbt end;
    [cbn [bind] in H | discriminate H].
  destruct (for_state betbck_totals _ _) as [st|] eqn:Hst; [cbn [bind] in H | discriminate H].
  injection H as <-.
  assert (Hmarket : forall m, market r = m -> startswith "1H" m = false ->
                    (m = "1H Spread" \/ m = "Spread" -> spread_pairing float_of_str bet_data full_game r) ->
                    is_1h r = false
                    /\ (market r = "1H Spread" \/ market r = "Spread" ->
                        spread_pairing float_of_str bet_data full_game r)).
  { intros m Hm Hs Hp. unfold is_1h. rewrite Hm. split; [exact Hs | exact Hp]. }
  repeat (apply in_app_or in Hr; destruct Hr as [Hr | Hr]).
  - destruct (moneyline_rows_market _ _ _ _ _ _ _ _ _ _ H1 r Hr) as [Hm _].
    apply (Hmarket _ Hm); [reflexivity | intros [E|E]; discriminate E].
  - destruct (moneyline_rows_market _ _ _ _ _ _ _ _ _ _ H2 r Hr) as [Hm _].
    apply (Hmarket _ Hm); [reflexivity | intros [E|E]; discriminate E].
  - destruct (moneyline_rows_market _ _ _ _ _ _ _ _ _ _ H3 r Hr) as [Hm _].
    apply (Hmarket _ Hm); [reflexivity | intros [E|E]; discriminate E].
  - destruct (spreads_block_full _ _ _ _ _ _ H4 Hr)
      as [Hm [away [s [kv [fb [fl [Hsel [Hs [Hkv [Hf1 [Hf2 Hc]]]]]]]]]]].
    apply (Hmarket _ Hm); [reflexivity | intros _].
    exists away, s, (snd kv), fb, fl. repeat split; try assumption.
    unfold reference_spreads. apply py_get_ok_field in Hsp. rewrite <- Hsp.
    destruct sp; try (cbn in Hitems; injection Hitems as <-; destruct Hkv).
    cbn in Hitems. injection Hitems as <-. apply in_map. exact Hkv.
  - pose proof (totals_block_full _ _ _ _ _ Hst) as Ht.
    destruct (fst st) as [[r0 e0]|] eqn:Hf; [|destruct Hr].
    destruct Hr as [<- | []].
    apply (Hmarket "Total"); [eapply Ht; left; exact Hf | reflexivity
                             | intros [E|E]; discriminate E].
  - pose proof (totals_block_full _ _ _ _ _ Hst) as Ht.
    destruct (snd st) as [[r0 e0]|] eqn:Hf; [|destruct Hr].
    destruct Hr as [<- | []].
    apply (Hmarket "Total"); [eapply Ht; right; exact Hf | reflexivity
                             | intros [E|E]; discriminate E].
Qed.

End FullGame.

Lemma field_copy_of (v : pyval) (k : string) : field (copy_of v) k = field v k.
Proof.
  unfold copy_of. destruct (truthy v) eqn:T; [reflexivity|].
  destruct v as [| | | | | |d]; try reflexivity.
  destruct d; [reflexivity | discriminate T].
Qed.

Lemma periods_field (pin_data periods : pyval) (k : string) :
  py_get pin_data "periods" (PDict []) = Ok periods ->
  field periods k = field (field pin_data "periods") k.
Proof.
  destruct pin_data as [| | | | | |d]; try discriminate. cbn [py_get field].
  destruct (dict_get d "periods"); intros H; injection H as <-; reflexivity.
Qed.

Lemma money_line_of_get (full_game ml0 : pyval) :
  py_get full_game "money_line" (PDict []) = Ok ml0 ->
  (if is_none ml0 then PDict [] else if negb (is_dict ml0) then PDict [] else ml0)
  = money_line_of full_game.
Proof.
  intros H. unfold money_line_of. rewrite H. destruct ml0; reflexivity.
Qed.

Section Origin.

Variable float_of_str : string -> option float.

(** The rows of the [try] block are the rows of the full-game section
    followed by those of the first-half function, which receives the
    first-half record of the secondary game and period 1 of the reference
    event. *)
Lemma analyze_try_origin (bet_data pd : pyval) (rows : list row) (r : row) :
  fst (analyze_try float_of_str bet_data pd) = Ok rows ->
  In r rows ->
  (exists frows,
     full_game_rows float_of_str bet_data (field pd "data") (reference_period pd 0)
       (money_line_of (reference_period pd 0)) (meta_of (reference_period pd 0)) = Ok frows
     /\ In r frows)
  \/ In r (fst (_analyze_1h_markets_for_ev float_of_str (field bet_data "1H_data")
                  (reference_period pd 1) (field pd "data"))).
Proof.
  unfold analyze_try. rewrite fst_bindM. cbn [lift fst].
  destruct (py_getitem pd "data") as [pin_data|] eqn:Hpd; [|discriminate].
  assert (Hdata : field pd "data" = pin_data).
  { destruct pd; try discriminate Hpd. cbn in Hpd |- *.
    destruct (dict_get d "data"); [injection Hpd as <-; reflexivity | discriminate Hpd]. }
  rewrite Hdata.
  destruct (is_none pin_data); [cbn; intros H; injection H as <-; intros []|].
  destruct (is_dict pin_data) eqn:Hdict; cbn [negb];
    [|cbn; intros H; injection H as <-; intros []].
  rewrite fst_bindM. cbn [lift fst].
  destruct (py_get pin_data "periods" (PDict [])) as [periods|] eqn:Hper; [|discriminate].
  destruct (is_none periods); [cbn; intros H; injection H as <-; intros []|].
  destruct (is_dict periods) eqn:Hpdict; cbn [negb];
    [|cbn; intros H; injection H as <-; intros []].
  assert (Hp0 : reference_period pd 0 = py_or (field periods "num_0") (field periods "0")).
  { unfold reference_period, reference_periods. rewrite Hdata.
    rewrite !(periods_field _ _ _ Hper). reflexivity. }
  assert (Hp1 : reference_period pd 1 = py_or (field periods "num_1") (field periods "1")).
  { unfold reference_period, reference_periods. rewrite Hdata.
    rewrite !(periods_field _ _ _ Hper). reflexivity. }
  destruct periods as [| | | | | |pp]; try discriminate Hpdict.
  rewrite fst_bindM. cbn [lift fst]. rewrite py_get_field.
  rewrite fst_bindM. cbn [lift fst]. rewrite py_get_field, or_else_ok. rewrite <- Hp0.
  set (full_game := reference_period pd 0) in *.
  destruct (is_none full_game); [cbn; intros H; injection H as <-; intros []|].
  destruct (is_dict full_game) eqn:Hfg; cbn [negb];
    [|cbn; intros H; injection H as <-; intros []].
  destruct (truthy full_game); cbn [negb];
    [|cbn; intros H; injection H as <-; intros []].
  rewrite fst_bindM. cbn [lift fst].
  destruct (py_get full_game "money_line" (PDict [])) as [ml0|] eqn:Hml; [|discriminate].
  rewrite fst_bindM. cbn [lift fst].
  destruct (py_get full_game "meta" PNone) as [mt|] eqn:Hmt; [|discriminate].
  apply py_get_ok_field in Hmt. subst mt. fold (meta_of full_game).
  rewrite fst_bindM.
  match goal with
  | |- context [match fst ?m with Ok _ => _ | Raise _ => _ end] =>
      assert (Hmlv : fst m = Ok (money_line_of full_game))
        by (rewrite <- (money_line_of_get _ _ Hml); destruct ml0; reflexivity)
  end.
  rewrite Hmlv. rewrite fst_bindM. cbn [lift fst].
  destruct (full_game_rows float_of_str bet_data pin_data full_game
              (money_line_of full_game) (meta_of full_game))
    as [potential_bets|] eqn:Hfull; [|intros H; discriminate H].
  rewrite fst_bindM. cbn [lift fst].
  destruct (py_get bet_data "1H_data" PNone) as [d1h|] eqn:H1h; [|discriminate].
  apply py_get_ok_field in H1h. subst d1h.
  destruct (truthy (field bet_data "1H_data")) eqn:T1h.
  2:{ cbn. intros H Hr. injection H as <-. left. exists potential_bets. split; [reflexivity | exact Hr]. }
  rewrite fst_bindM. cbn [logM fst]. rewrite fst_bindM. cbn [lift fst]. rewrite py_get_field.
  rewrite fst_bindM. cbn [lift fst]. rewrite py_get_field, or_else_ok. rewrite <- Hp1.
  set (first_half := reference_period pd 1) in *.
  destruct (truthy first_half && is_dict first_half).
  2:{ cbn. intros H Hr. injection H as <-. left. exists potential_bets. split; [reflexivity | exact Hr]. }
  rewrite fst_bindM. cbn [logM fst]. rewrite fst_bindM. cbn [lift fst].
  destruct (py_getitem bet_data "1H_data") as [d|] eqn:Hd; [|discriminate].
  assert (Hdv : d = field bet_data "1H_data").
  { destruct bet_data; try discriminate Hd. cbn in Hd |- *.
    destruct (dict_get d0 "1H_data"); [injection Hd as <-; reflexivity | discriminate Hd]. }
  subst d. rewrite fst_bindM.
  destruct (_analyze_1h_markets_for_ev float_of_str (field bet_data "1H_data") first_half pin_data)
    as [rows_1h log] eqn:H1.
  cbn [fst retM]. intros H Hr. injection H as <-.
  apply in_app_or in Hr. destruct Hr as [Hr | Hr].
  - left. exists potential_bets. split; [reflexivity | exact Hr].
  - right. cbn [fst]. exact Hr.
Qed.

(** The rows an analysis returns: full-game rows from the secondary game
    and period 0, first-half rows from its first-half record and period 1. *)
Lemma analyze_origin (bet_data pinnacle_data : pyval) (rows : list row) (r : row) :
  fst (analyze_markets_for_ev float_of_str bet_data pinnacle_data) = Ok rows ->
  In r rows ->
  (exists frows, full_game_part float_of_str bet_data pinnacle_data = Ok frows /\ In r frows)
  \/ In r (first_half_part float_of_str bet_data pinnacle_data).
Proof.
  unfold analyze_markets_for_ev, full_game_part, first_half_part, secondary_first_half.
  destruct (truthy pinnacle_data) eqn:Tp.
  2:{ destruct (_validate_period_separation _ _) as [[|] vlog];
        cbn; intros H; injection H as <-; intros []. }
  fold (copy_of bet_data).
  destruct (_validate_period_separation _ _) as [valid vlog].
  rewrite fst_bindM. cbn [fst].
  destruct valid; cbn [negb]; [|cbn; intros H; injection H as <-; intros []].
  rewrite Tp. cbn [negb].
  destruct (is_dict pinnacle_data); cbn [negb];
    [|cbn; intros H; injection H as <-; intros []].
  rewrite fst_bindM. cbn [lift fst].
  destruct (py_get pinnacle_data "data" PNone) as [d|]; [|discriminate].
  destruct (truthy d); cbn [negb]; [|cbn; intros H; injection H as <-; intros []].
  rewrite fst_bindM. cbn [lift fst].
  destruct (py_getitem pinnacle_data "data") as [d'|]; [|discriminate].
  destruct (is_none d'); [cbn; intros H; injection H as <-; intros []|].
  destruct (fst (analyze_try float_of_str (copy_of bet_data) pinnacle_data)) as [rows'|e] eqn:Ht;
    cbn [fst]; [|intros H; injection H as <-; intros []].
  intros H Hr. injection H as <-.
  destruct (analyze_try_origin _ _ _ _ Ht Hr) as [Hf | Hh]; [left; exact Hf | right].
  rewrite field_copy_of in Hh. exact Hh.
Qed.

End Origin.

(** ** What each section reads *)

Lemma py_get_lookup (v v' : pyval) (k : string) (d : pyval) :
  lookup v k = lookup v' k -> py_get v k d = py_get v' k d.
Proof.
  destruct v, v'; cbn; try discriminate; try reflexivity.
  intros H. injection H as ->. reflexivity.
Qed.

Lemma py_getitem_lookup (v v' : pyval) (k : string) :
  lookup v k = lookup v' k -> py_getitem v k = py_getitem v' k.
Proof.
  destruct v, v'; cbn; try discriminate; try reflexivity.
  intros H. injection H as ->. reflexivity.
Qed.

Lemma moneyline_rows_frame (mkt sel bk nak nk : string) (bet bet' ml : pyval)
    (limit : res pyval) (names : res (pyval * pyval)) :
  lookup bet bk = lookup bet' bk ->
  moneyline_rows mkt sel bk nak nk bet ml limit names
  = moneyline_rows mkt sel bk nak nk bet' ml limit names.
Proof.
  intros H. unfold moneyline_rows.
  rewrite (py_get_lookup _ _ _ PNone H), (py_getitem_lookup _ _ _ H). reflexivity.
Qed.

Lemma team_names_eq (pd pd' : pyval) :
  team_names pd = team_names pd' ->
  py_get pd "home" (PStr "") = py_get pd' "home" (PStr "")
  /\ py_get pd "away" (PStr "") = py_get pd' "away" (PStr "").
Proof.
  unfold team_names.
  destruct pd, pd'; cbn; intros H; try discriminate H; try (split; reflexivity).
  injection H as H1 H2. split; congruence.
Qed.

Section Frames.

Variable float_of_str : string -> option float.

(** The first-half rows are a function of the first-half record of the
    secondary game, of period 1 of the reference event and of the team
    names. *)
Lemma first_half_part_frame (bet_data bet_data' pinnacle_data pinnacle_data' : pyval) :
  secondary_first_half bet_data = secondary_first_half bet_data' ->
  reference_period pinnacle_data 1 = reference_period pinnacle_data' 1 ->
  team_names (field pinnacle_data "data") = team_names (field pinnacle_data' "data") ->
  first_half_part float_of_str bet_data pinnacle_data
  = first_half_part float_of_str bet_data' pinnacle_data'.
Proof.
  intros Hb Hp Hn. unfold first_half_part. rewrite Hb, Hp.
  generalize (field pinnacle_data "data") (field pinnacle_data' "data") Hn.
  intros pd pd' Hn'. unfold _analyze_1h_markets_for_ev.
  assert (Ht : analyze_1h_try float_of_str (secondary_first_half bet_data')
                 (reference_period pinnacle_data' 1) pd
               = analyze_1h_try float_of_str (secondary_first_half bet_data')
                   (reference_period pinnacle_data' 1) pd').
  { unfold analyze_1h_try. destruct (team_names_eq _ _ Hn') as [Hh Ha].
    rewrite Hh, Ha. reflexivity. }
  rewrite Ht. reflexivity.
Qed.

(** The full-game rows are a function of the full-game entries of the
    secondary game, of period 0 of the reference event and of the team
    names. *)
Lemma full_game_part_frame (bet_data bet_data' pinnacle_data pinnacle_data' : pyval) :
  same_full_game bet_data bet_data' ->
  reference_period pinnacle_data 0 = reference_period pinnacle_data' 0 ->
  team_names (field pinnacle_data "data") = team_names (field pinnacle_data' "data") ->
  full_game_part float_of_str bet_data pinnacle_data
  = full_game_part float_of_str bet_data' pinnacle_data'.
Proof.
  intros Hb Hp Hn. unfold full_game_part. rewrite Hp.
  unfold same_full_game in Hb.
  generalize (copy_of bet_data) (copy_of bet_data') Hb.
  generalize (field pinnacle_data "data") (field pinnacle_data' "data") Hn.
  clear. intros pd pd' Hn b b' Hk.
  unfold full_game_rows. fold (team_names pd). fold (team_names pd'). rewrite Hn.
  rewrite (moneyline_rows_frame _ _ "home_moneyline_american" _ _ b b')
    by (apply Hk; cbn; tauto).
  rewrite (moneyline_rows_frame _ _ "away_moneyline_american" _ _ b b')
    by (apply Hk; cbn; tauto).
  rewrite (moneyline_rows_frame _ _ "draw_moneyline_american" _ _ b b')
    by (apply Hk; cbn; tauto).
  rewrite (py_get_lookup b b' "home_spreads" (PList [])) by (apply Hk; cbn; tauto).
  rewrite (py_get_lookup b b' "away_spreads" (PList [])) by (apply Hk; cbn; tauto).
  rewrite (py_get_lookup b b' "game_total_line" PNone) by (apply Hk; cbn; tauto).
  rewrite (py_get_lookup b b' "game_total_over_odds" PNone) by (apply Hk; cbn; tauto).
  rewrite (py_get_lookup b b' "game_total_under_odds" PNone) by (apply Hk; cbn; tauto).
  reflexivity.
Qed.

End Frames.


Section Separation.

Variable float_of_str : string -> option float.

(** C1: every row an analysis returns is either labelled [1H] and one of
    the rows the first-half function computes from the first-half record of
    the secondary game and period 1 of the reference event, or not so
    labelled and one of the rows the full-game section computes from the
    secondary game and period 0.  The first-half rows depend on nothing but
    that record, period 1 and the team names; the full-game rows on nothing
    but the full-game entries of the secondary game, period 0 and the team
    names. *)
Theorem period_separation :
  (forall bet_data pinnacle_data rows r,
     fst (analyze_markets_for_ev float_of_str bet_data pinnacle_data) = Ok rows ->
     In r rows ->
     (is_1h r = true /\ In r (first_half_part float_of_str bet_data pinnacle_data))
     \/ (is_1h r = false
         /\ exists frows,
              full_game_part float_of_str bet_data pinnacle_data = Ok frows /\ In r frows))
  /\ (forall bet_data bet_data' pinnacle_data pinnacle_data',
        secondary_first_half bet_data = secondary_first_half bet_data' ->
        reference_period pinnacle_data 1 = reference_period pinnacle_data' 1 ->
        team_names (field pinnacle_data "data") = team_names (field pinnacle_data' "data") ->
        first_half_part float_of_str bet_data pinnacle_data
        = first_half_part float_of_str bet_data' pinnacle_data')
  /\ (forall bet_data bet_data' pinnacle_data pinnacle_data',
        same_full_game bet_data bet_data' ->
        reference_period pinnacle_data 0 = reference_period pinnacle_data' 0 ->
        team_names (field pinnacle_data "data") = team_names (field pinnacle_data' "data") ->
        full_game_part float_of_str bet_data pinnacle_data
        = full_game_part float_of_str bet_data' pinnacle_data').
Proof.
  split; [|split].
  - intros bet_data pinnacle_data rows r H Hr.
    destruct (analyze_origin _ _ _ _ _ H Hr) as [[frows [Hf Hin]] | Hh].
    + right. split; [|exists frows; split; assumption].
      unfold full_game_part in Hf.
      apply (full_game_rows_markets _ _ _ _ _ _ _ _ Hf Hin).
    + left. split; [|exact Hh].
      unfold first_half_part in Hh. apply (analyze_1h_rows _ _ _ _ _ Hh).
  - apply first_half_part_frame.
  - apply full_game_part_frame.
Qed.

End Separation.

Lemma period_separation_witness :
  Forall (fun r =>
    (is_1h r = true /\ In r (first_half_part (fun _ => None) sample_bet sample_pinnacle))
    \/ (is_1h r = false
        /\ exists frows,
             full_game_part (fun _ => None) sample_bet sample_pinnacle = Ok frows /\ In r frows))
    sample_rows.
Proof.
  apply Forall_forall. intros r.
  apply (proj1 (period_separation (fun _ => None)) sample_bet sample_pinnacle).
  vm_compute. reflexivity.
Defined.


(* ===================================================================== *)
(** * Event matcher *)
(* ===================================================================== *)

Module MatchFacts.
Import MatchGames.

Section Uniqueness.

Variable token_set_ratio : string -> string -> float.
Variable iso_time_diff : string -> string -> option float.

(** The candidate the search keeps is the one it started with or an event
    of the list that passes the filters, so its id is not consumed yet. *)
Lemma search_best (processed : list string) (g : betbck_game) (h a : string)
    (events : list pinnacle_event) :
  forall st e,
  best_match (search token_set_ratio iso_time_diff processed g h a events st) = Some e ->
  best_match st = Some e
  \/ (In e events /\ skipped iso_time_diff processed g e = false).
Proof.
  induction events as [|x events IH]; intros st e H.
  - left. exact H.
  - cbn [search] in H.
    destruct (skipped iso_time_diff processed g x) eqn:Hs.
    + destruct (IH _ _ H) as [H0 | [H0 H1]]; [left; exact H0 | right].
      split; [right; exact H0 | exact H1].
    + cbv zeta in H.
      match type of H with
      | context [PrimFloat.ltb (best_score st) ?sd] =>
          destruct (PrimFloat.ltb (best_score st) sd) eqn:Hd
      end; cbn [andb] in H.
      * match type of H with
        | context [PrimFloat.leb 95 ?sd] => destruct (PrimFloat.leb 95 sd)
        end.
        { cbn [best_match] in H. injection H as <-. right.
          split; [left; reflexivity | exact Hs]. }
        match type of H with
        | context [if ?c then mkSearch ?e1 ?s1 ?o1 else ?st1] =>
            destruct c eqn:Hf
        end; cbn [andb] in H.
        { match type of H with
          | context [PrimFloat.leb 95 ?sf] => destruct (PrimFloat.leb 95 sf)
          end.
          - cbn [best_match] in H. injection H as <-. right.
            split; [left; reflexivity | exact Hs].
          - destruct (IH _ _ H) as [H0 | [H0 H1]].
            + cbn [best_match] in H0. injection H0 as <-. right.
              split; [left; reflexivity | exact Hs].
            + right. split; [right; exact H0 | exact H1]. }
        destruct (IH _ _ H) as [H0 | [H0 H1]].
        { cbn [best_match] in H0. injection H0 as <-. right.
          split; [left; reflexivity | exact Hs]. }
        right. split; [right; exact H0 | exact H1].
      * match type of H with
        | context [if ?c then mkSearch ?e1 ?s1 ?o1 else ?st1] =>
            destruct c eqn:Hf
        end; cbn [andb] in H.
        { match type of H with
          | context [PrimFloat.leb 95 ?sf] => destruct (PrimFloat.leb 95 sf)
          end.
          - cbn [best_match] in H. injection H as <-. right.
            split; [left; reflexivity | exact Hs].
          - destruct (IH _ _ H) as [H0 | [H0 H1]].
            + cbn [best_match] in H0. injection H0 as <-. right.
              split; [left; reflexivity | exact Hs].
            + right. split; [right; exact H0 | exact H1]. }
        destruct (IH _ _ H) as [H0 | [H0 H1]]; [left; exact H0 | right].
        split; [right; exact H0 | exact H1].
Qed.

Lemma skipped_not_processed (processed : list string) (g : betbck_game)
    (e : pinnacle_event) (eid : string) :
  skipped iso_time_diff processed g e = false -> event_id e = Some eid ->
  ~ In eid processed.
Proof.
  unfold skipped. intros H He. rewrite He in H.
  repeat (apply orb_false_elim in H; destruct H as [H _]).
  intros Hin. apply str_in_In in Hin. congruence.
Qed.

(** The invariant of the loop over the games. *)

Lemma NoDup_snoc {A} (l : list A) (x : A) : NoDup l -> ~ In x l -> NoDup (l ++ [x]).
Proof.
  intros Hl Hx. induction Hl as [|y l Hy Hl IH]; cbn.
  - constructor; [intros [] | constructor].
  - constructor.
    + intros H. apply in_app_or in H. destruct H as [H | [H | []]].
      * exact (Hy H).
      * apply Hx. left. symmetry. exact H.
    + apply IH. intros H. apply Hx. right. exact H.
Qed.

Lemma match_game_consistent (major : list pinnacle_event) (st st' : loop_state)
    (g : betbck_game) :
  consistent st ->
  match_game token_set_ratio iso_time_diff major st g = Ok st' ->
  consistent st'.
Proof.
  intros Hc H. unfold match_game in H.
  destruct (str_in (game_key g) (matched_betbck_ids st)) eqn:Hg;
    [injection H as <-; exact Hc|].
  match type of H with
  | (if ?c then _ else _) = _ => destruct c; [injection H as <-; exact Hc|]
  end.
  cbv zeta in H.
  match type of H with
  | context [search ?t ?i ?p ?g0 ?h ?a ?ev ?s0] =>
      pose proof (search_best p g0 h a ev s0) as Hbest;
      destruct (search t i p g0 h a ev s0) as [bm bs bo]
  end.
  cbn [best_match best_score best_orientation] in H, Hbest.
  destruct bm as [e|]; [|injection H as <-; exact Hc].
  destruct (PrimFloat.leb FUZZY_MATCH_THRESHOLD bs); [|injection H as <-; exact Hc].
  destruct (event_id e) as [eid|] eqn:He; [|discriminate H].
  destruct (Hbest e eq_refl) as [H0 | [_ Hsk]]; [discriminate H0|].
  pose proof (skipped_not_processed _ _ _ _ Hsk He) as Hnew.
  match type of H with
  | (let '(_, _) := ?p in _) = _ => destruct p as [home_odds away_odds]
  end.
  injection H as <-. destruct Hc as [H1 [H2 H3]].
  unfold consistent. cbn [matched_events processed_pinnacle_event_ids matched_betbck_ids].
  rewrite !map_app. cbn [map pinnacle_event_id matched_betbck_game].
  split; [|split].
  - apply NoDup_snoc; [exact H1|]. intros Hin. apply in_map_iff in Hin.
    destruct Hin as [m [Hm Hin]]. apply Hnew. rewrite <- Hm. apply (H3 m Hin).
  - apply NoDup_snoc; [exact H2|]. intros Hin. apply in_map_iff in Hin.
    destruct Hin as [m [Hm Hin]].
    assert (Hk : In (game_key g) (matched_betbck_ids st)) by (rewrite <- Hm; apply (H3 m Hin)).
    apply str_in_In in Hk. congruence.
  - intros m Hin. apply in_app_or in Hin. destruct Hin as [Hin | [<- | []]].
    + destruct (H3 m Hin) as [Ha Hb]. split; right; assumption.
    + cbn [pinnacle_event_id matched_betbck_game]. split; left; reflexivity.
Qed.

(** C7: in the list one call of the matcher returns, no reference event id
    occurs in two match records and no secondary-game id occurs in two
    match records, whatever the ids matched by earlier calls. *)
Theorem match_uniqueness (matched_ids : list string)
    (pinnacle_events : list pinnacle_event) (betbck_games : list betbck_game)
    (records : list match_record) (matched_ids' : list string) :
  match_pinnacle_to_betbck token_set_ratio iso_time_diff matched_ids
    pinnacle_events betbck_games = Ok (records, matched_ids') ->
  NoDup (map pinnacle_event_id records)
  /\ NoDup (map (fun m => game_key (matched_betbck_game m)) records).
Proof.
  unfold match_pinnacle_to_betbck. intros H.
  destruct (for_state betbck_games _ _) as [st|] eqn:Hloop; [cbn [bind] in H | discriminate H].
  assert (Hc : consistent st).
  { revert Hloop. apply (for_state_inv consistent).
    - intros s g s' _ Hs Hg. exact (match_game_consistent _ _ _ _ Hs Hg).
    - unfold consistent. cbn. repeat split; try constructor; contradiction. }
  destruct betbck_games; [discriminate H|]. injection H as <- _.
  destruct Hc as [H1 [H2 _]]. split; assumption.
Qed.

End Uniqueness.

(** The sample slate: two records, for two events and two games. *)
Lemma match_uniqueness_witness :
  match_pinnacle_to_betbck exact_ratio (fun _ _ => None) [] sample_events sample_games
  = Ok (sample_records, ["g2"; "g1"])
  /\ List.length sample_records = 2%nat
  /\ NoDup (map pinnacle_event_id sample_records)
  /\ NoDup (map (fun m => game_key (matched_betbck_game m)) sample_records).
Proof.
  split; [vm_compute; reflexivity|]. split; [reflexivity|].
  apply (match_uniqueness exact_ratio (fun _ _ => None) [] sample_events sample_games
           sample_records ["g2"; "g1"]).
  vm_compute. reflexivity.
Defined.

End MatchFacts.

(* ===================================================================== *)
(** * Name normalizer *)
(* ===================================================================== *)

(** ** Regular expressions that cannot match *)

Lemma star_exec_none {R} (P : string -> Prop) (g : bool) (p : ascii -> bool)
    (k : nat -> string -> option R) :
  tail_closed P ->
  (forall pos s, P s -> k pos s = None) ->
  forall s pos, P s -> star_exec g p pos s k = None.
Proof.
  intros Ht Hk. induction s as [|a t IH]; intros pos Hs; cbn [star_exec].
  - apply Hk; exact Hs.
  - destruct (p a); [|apply Hk; exact Hs].
    destruct g.
    + rewrite (IH _ (Ht _ _ Hs)). apply Hk; exact Hs.
    + rewrite (Hk _ _ Hs). apply IH. exact (Ht _ _ Hs).
Qed.

(** A regex whose continuation fails everywhere on [P] fails on [P]. *)
Lemma exec_none {R} (P : string -> Prop) (r : re) :
  tail_closed P ->
  forall (k : nat -> string -> caps -> option R),
  (forall pos s c, P s -> k pos s c = None) ->
  forall pos s c, P s -> exec r pos s c k = None.
Proof.
  intros Ht. induction r as [p| | | |a IHa b IHb|a IHa b IHb|g p|i a IHa];
    intros k Hk pos s c Hs; cbn [exec].
  - destruct s as [|x t]; [reflexivity|].
    destruct (p x); [|reflexivity]. apply Hk. exact (Ht _ _ Hs).
  - destruct (Nat.eqb pos 0); [apply Hk; exact Hs | reflexivity].
  - destruct s as [|x t]; [apply Hk; exact Hs|].
    destruct t; [|reflexivity].
    destruct (Ascii.eqb x newline); [apply Hk; exact Hs | reflexivity].
  - apply Hk; exact Hs.
  - apply IHa; [|exact Hs]. intros pos' s' c' Hs'. apply IHb; assumption.
  - rewrite (IHa k Hk _ _ _ Hs). apply IHb; assumption.
  - apply (star_exec_none P); [exact Ht | | exact Hs].
    intros pos' s' Hs'. apply Hk; exact Hs'.
  - apply IHa; [|exact Hs]. intros pos' s' c' Hs'. apply Hk; exact Hs'.
Qed.

Lemma fails_seq_l (P : string -> Prop) (a b : re) : fails P a -> fails P (Seq a b).
Proof. intros H R pos s c k Hs. cbn [exec]. apply H. exact Hs. Qed.

Lemma fails_seq_r (P : string -> Prop) (a b : re) :
  tail_closed P -> fails P b -> fails P (Seq a b).
Proof.
  intros Ht H R pos s c k Hs. cbn [exec].
  apply (exec_none P); [exact Ht | | exact Hs].
  intros pos' s' c' Hs'. apply H. exact Hs'.
Qed.

Lemma fails_alt (P : string -> Prop) (a b : re) : fails P a -> fails P b -> fails P (Alt a b).
Proof.
  intros Ha Hb R pos s c k Hs. cbn [exec]. rewrite (Ha R _ _ _ _ Hs). apply Hb. exact Hs.
Qed.

Lemma fails_group (P : string -> Prop) (i : nat) (a : re) : fails P a -> fails P (Group i a).
Proof. intros H R pos s c k Hs. cbn [exec]. apply H. exact Hs. Qed.

Lemma fails_chr (P : string -> Prop) (p : ascii -> bool) :
  (forall c t, P (String c t) -> p c = false) -> fails P (Chr p).
Proof.
  intros H R pos s c k Hs. cbn [exec]. destruct s as [|x t]; [reflexivity|].
  rewrite (H _ _ Hs). reflexivity.
Qed.

(** ** Literals *)

Lemma exec_lit_ci {R} (p : string) :
  forall pos s c (k : nat -> string -> caps -> option R),
  exec (lit_ci p) pos s c k
  = if startswith_ci p s then k (pos + String.length p)%nat (drop (String.length p) s) c
    else None.
Proof.
  induction p as [|a p IH]; intros pos s c k.
  - cbn. rewrite Nat.add_0_r. reflexivity.
  - destruct p as [|b p'].
    + cbn [lit_ci ch_ci exec startswith_ci String.length drop].
      destruct s as [|x t]; [reflexivity|].
      rewrite andb_true_r, Nat.add_1_r. reflexivity.
    + change (lit_ci (String a (String b p'))) with (Seq (ch_ci a) (lit_ci (String b p'))).
      cbn [exec ch_ci]. destruct s as [|x t]; [reflexivity|].
      change (startswith_ci (String a (String b p')) (String x t))
        with (Ascii.eqb (lower_char x) (lower_char a) && startswith_ci (String b p') t).
      change (drop (String.length (String a (String b p'))) (String x t))
        with (drop (String.length (String b p')) t).
      change (String.length (String a (String b p')))
        with (S (String.length (String b p'))).
      destruct (Ascii.eqb (lower_char x) (lower_char a)); [|reflexivity].
      rewrite IH. cbn [andb]. rewrite Nat.add_succ_r. reflexivity.
Qed.

Lemma lower_char_id (c : ascii) : is_upper c = false -> lower_char c = c.
Proof. unfold lower_char. intros ->. reflexivity. Qed.

(** On text without capitals, a lower-case literal matches with or
    without [re.IGNORECASE] alike. *)
Lemma startswith_ci_lower (p : string) :
  no_upper p -> forall s, no_upper s -> startswith_ci p s = startswith p s.
Proof.
  unfold no_upper. induction p as [|a p IH]; intros Hp s Hs; [reflexivity|].
  destruct s as [|b s]; [reflexivity|].
  cbn [all_chars] in Hp, Hs. apply andb_prop in Hp, Hs.
  destruct Hp as [Ha Hp], Hs as [Hb Hs]. apply negb_true_iff in Ha, Hb.
  cbn [startswith_ci startswith]. rewrite (lower_char_id _ Ha), (lower_char_id _ Hb).
  rewrite (IH Hp s Hs). rewrite (Ascii.eqb_sym b a). reflexivity.
Qed.

Lemma no_upper_tail : tail_closed no_upper.
Proof.
  intros c t H. unfold no_upper in *. cbn [all_chars] in H.
  apply andb_prop in H. tauto.
Qed.

Lemma contains_tail (p : string) (c : ascii) (t : string) :
  contains p (String c t) = false -> contains p t = false.
Proof. cbn [contains]. intros H. apply orb_false_elim in H. tauto. Qed.

Lemma contains_startswith (p s : string) : contains p s = false -> startswith p s = false.
Proof. destruct s; cbn [contains]; intros H; apply orb_false_elim in H; tauto. Qed.

Lemma without_tail (p : string) : tail_closed (without p).
Proof.
  intros c t [H1 H2]. split; [exact (no_upper_tail _ _ H1) | exact (contains_tail _ _ _ H2)].
Qed.

Lemma fails_lit_ci (p : string) : no_upper p -> fails (without p) (lit_ci p).
Proof.
  intros Hp R pos s c k [H1 H2]. rewrite exec_lit_ci.
  rewrite (startswith_ci_lower p Hp s H1), (contains_startswith _ _ H2). reflexivity.
Qed.

(** ** Substitution and search without a match *)

Lemma sub_all_id (r : re) (P : nat -> string -> Prop) :
  (forall pos c t, P pos (String c t) -> P (S pos) t) ->
  (forall pos s, P pos s -> match_at r pos s = None) ->
  forall s pos, P pos s -> sub_all r pos 0 s = s.
Proof.
  intros Ht Hm. induction s as [|c t IH]; intros pos Hs; [reflexivity|].
  cbn [sub_all]. rewrite (Hm _ _ Hs). f_equal. apply IH. exact (Ht _ _ _ Hs).
Qed.

Lemma search_from_none (r : re) (P : string -> Prop) :
  tail_closed P ->
  (forall pos s, P s -> match_at r pos s = None) ->
  forall s pos, P s -> search_from r pos s = None.
Proof.
  intros Ht Hm. induction s as [|c t IH]; intros pos Hs; cbn [search_from].
  - rewrite (Hm _ _ Hs). reflexivity.
  - rewrite (Hm _ _ Hs). apply IH. exact (Ht _ _ Hs).
Qed.

Lemma fails_match_at (P : string -> Prop) (r : re) :
  fails P r -> forall pos s, P s -> match_at r pos s = None.
Proof. intros H pos s Hs. unfold match_at. apply H. exact Hs. Qed.

(** ** Characters of a clean name *)

Ltac by_cases_on_char c :=
  destruct c as [[] [] [] [] [] [] [] []]; vm_compute; intuition congruence.

Lemma clean_char_not_upper (c : ascii) : clean_char c = true -> is_upper c = false.
Proof. by_cases_on_char c. Qed.

Lemma clean_char_kept (c : ascii) : clean_char c = true -> kept_char c = true.
Proof. by_cases_on_char c. Qed.

Lemma clean_char_not_paren (c : ascii) : clean_char c = true -> Ascii.eqb "("%char c = false.
Proof. by_cases_on_char c. Qed.

Lemma clean_char_not_newline (c : ascii) : clean_char c = true -> Ascii.eqb c newline = false.
Proof. by_cases_on_char c. Qed.

Lemma clean_char_space (c : ascii) :
  clean_char c = true -> is_space c = true -> c = " "%char.
Proof. by_cases_on_char c. Qed.

Lemma name_start_char (c : ascii) :
  is_lower c || Ascii.eqb c "_"%char = true ->
  is_digit c = false /\ is_word c = true /\ is_space c = false.
Proof. by_cases_on_char c. Qed.

Lemma word_not_space (c : ascii) : is_word c = true -> is_space c = false.
Proof. by_cases_on_char c. Qed.

Lemma all_chars_impl (p q : ascii -> bool) (s : string) :
  (forall c, p c = true -> q c = true) -> all_chars p s = true -> all_chars q s = true.
Proof.
  intros H. induction s as [|c t IH]; [reflexivity|]. cbn [all_chars].
  intros E. apply andb_prop in E. destruct E as [E1 E2].
  rewrite (H _ E1), (IH E2). reflexivity.
Qed.

Lemma all_chars_tail (p : ascii -> bool) : tail_closed (fun s => all_chars p s = true).
Proof. intros c t H. cbn [all_chars] in H. apply andb_prop in H. tauto. Qed.

Lemma all_chars_drop (p : ascii -> bool) (n : nat) :
  forall s, all_chars p s = true -> all_chars p (drop n s) = true.
Proof.
  induction n as [|n IH]; intros s H; [exact H|].
  destruct s as [|c t]; [reflexivity|]. cbn [drop]. apply IH.
  exact (all_chars_tail p _ _ H).
Qed.

Lemma clean_no_upper (y : string) : all_chars clean_char y = true -> no_upper y.
Proof.
  apply all_chars_impl. intros c H. rewrite (clean_char_not_upper _ H). reflexivity.
Qed.

Lemma lower_no_upper (s : string) : no_upper s -> lower s = s.
Proof.
  unfold no_upper. induction s as [|c t IH]; [reflexivity|]. cbn [all_chars lower].
  intros H. apply andb_prop in H. destruct H as [H1 H2]. apply negb_true_iff in H1.
  rewrite (lower_char_id _ H1), (IH H2). reflexivity.
Qed.

(** ** [strip], [split] and [join] on a clean name *)

Lemma rstrip_ends_word (s : string) : ends_word s = true -> rstrip s = s.
Proof.
  induction s as [|c t IH]; [reflexivity|]. intros H. cbn [rstrip].
  destruct t as [|d t'].
  - cbn [rstrip]. cbn in H. rewrite (word_not_space _ H). reflexivity.
  - rewrite (IH H). reflexivity.
Qed.

Lemma strip_clean (s : string) : starts_name s = true -> ends_word s = true -> strip s = s.
Proof.
  intros H1 H2. unfold strip. destruct s as [|c t]; [reflexivity|].
  cbn [starts_name] in H1. destruct (name_start_char _ H1) as [_ [_ Hs]].
  cbn [lstrip]. rewrite Hs. apply rstrip_ends_word. exact H2.
Qed.

Lemma join_sp_cons (c : ascii) (w : string) (ws : list string) :
  join_sp (String c w :: ws) = String c (join_sp (w :: ws)).
Proof. destruct ws; reflexivity. Qed.

Lemma spaced_tail : tail_closed spaced.
Proof.
  intros c t [Hc [Hd He]]. repeat split.
  - exact (all_chars_tail _ _ _ Hc).
  - exact (contains_tail _ _ _ Hd).
  - destruct t; [reflexivity | exact He].
Qed.

Lemma spaced_head (c : ascii) (t : string) : spaced (String c t) -> clean_char c = true.
Proof. intros [Hc _]. cbn [all_chars] in Hc. apply andb_prop in Hc. tauto. Qed.

(** Splitting a spaced text and joining the words gives the text back,
    less one leading space. *)
Lemma split_join_spaced (s : string) :
  spaced s -> s <> EmptyString ->
  split_ws s <> []
  /\ join_sp (split_ws s)
     = match s with
       | String c t => if is_space c then t else s
       | EmptyString => EmptyString
       end.
Proof.
  induction s as [|c t IH]; [intros _ H; contradiction H; reflexivity|].
  intros Hsp _. pose proof (spaced_tail _ _ Hsp) as Ht.
  pose proof (spaced_head _ _ Hsp) as Hc.
  cbn [split_ws]. destruct (is_space c) eqn:Hs.
  - pose proof (clean_char_space _ Hc Hs) as ->.
    destruct t as [|c' t'].
    { destruct Hsp as [_ [_ He]]. cbn in He. discriminate He. }
    destruct (IH Ht) as [Hne Hj]; [discriminate|].
    split; [exact Hne|]. rewrite Hj.
    destruct (is_space c') eqn:Hs'; [|reflexivity].
    pose proof (clean_char_space _ (spaced_head _ _ Ht) Hs') as ->.
    destruct Hsp as [_ [Hd _]]. cbn in Hd. discriminate Hd.
  - destruct t as [|c' t']; [split; [discriminate | reflexivity]|].
    destruct (IH Ht) as [Hne Hj]; [discriminate|].
    destruct (is_space c') eqn:Hs'.
    + split; [discriminate|].
      pose proof (clean_char_space _ (spaced_head _ _ Ht) Hs') as ->.
      destruct (split_ws (String " " t')) as [|w ws]; [contradiction Hne; reflexivity|].
      change (join_sp (String c EmptyString :: w :: ws))
        with (String c (String " " (join_sp (w :: ws)))).
      rewrite Hj. reflexivity.
    + destruct (split_ws (String c' t')) as [|w ws]; [contradiction Hne; reflexivity|].
      split; [discriminate|]. rewrite join_sp_cons, Hj. reflexivity.
Qed.

(** ** The stages of the normalizer on a clean name *)

Lemma fails_weaken (P Q : string -> Prop) (r : re) :
  (forall s, P s -> Q s) -> fails Q r -> fails P r.
Proof. intros H Hf R pos s c k Hs. apply Hf. apply H. exact Hs. Qed.

Lemma free_of_tail (l : list string) : tail_closed (free_of l).
Proof.
  intros c t [H1 H2]. split; [exact (no_upper_tail _ _ H1)|].
  intros q Hq. exact (contains_tail _ _ _ (H2 q Hq)).
Qed.

Lemma fails_phrase (l : list string) (p : string) :
  In p l -> no_upper p -> fails (free_of l) (lit_ci p).
Proof.
  intros Hin Hp. apply (fails_weaken _ (without p)); [|apply fails_lit_ci; exact Hp].
  intros s [H1 H2]. split; [exact H1 | exact (H2 p Hin)].
Qed.

Lemma forallb_absent (f : string -> string -> bool) (l : list string) (y : string) :
  forallb (fun p => negb (f p y)) l = true -> forall p, In p l -> f p y = false.
Proof.
  intros H p Hp. rewrite forallb_forall in H. apply negb_true_iff. exact (H p Hp).
Qed.

Lemma fold_left_id {A B} (f : A -> B -> A) (l : list B) (y : A) :
  (forall x, In x l -> f y x = y) -> fold_left f l y = y.
Proof.
  induction l as [|x l IH]; intros H; [reflexivity|]. cbn [fold_left].
  rewrite (H x (or_introl eq_refl)). apply IH. intros z Hz. apply H. right. exact Hz.
Qed.

Lemma exec_eol {R} (pos : nat) (s : string) (c : caps)
    (k : nat -> string -> caps -> option R) :
  exec Eol pos s c k = if before_end s then k pos s c else None.
Proof. destruct s as [|a [|b t]]; reflexivity. Qed.

Lemma startswith_drop_empty (p : string) :
  forall s, startswith p s = true -> drop (String.length p) s = EmptyString -> s = p.
Proof.
  induction p as [|x p IH]; intros s H1 H2; [exact H2|].
  destruct s as [|a t]; [discriminate H1|]. cbn [startswith] in H1.
  apply andb_prop in H1. destruct H1 as [Hx Ht]. apply Ascii.eqb_eq in Hx. subst a.
  cbn [String.length drop] in H2. rewrite (IH t Ht H2). reflexivity.
Qed.

Lemma endswith_refl (p : string) : endswith p p = true.
Proof. destruct p; cbn [endswith]; rewrite String.eqb_refl; reflexivity. Qed.

Lemma suffix_not_at_end (suffix s : string) :
  all_chars clean_char s = true -> endswith suffix s = false ->
  startswith suffix s = true -> before_end (drop (String.length suffix) s) = false.
Proof.
  intros Hc He Hs. pose proof (all_chars_drop _ (String.length suffix) s Hc) as Hd.
  destruct (drop (String.length suffix) s) as [|a [|b t]] eqn:E; [| |reflexivity].
  - rewrite (startswith_drop_empty _ _ Hs E), endswith_refl in He. discriminate He.
  - cbn [all_chars] in Hd. apply andb_prop in Hd. destruct Hd as [Ha _].
    exact (clean_char_not_newline _ Ha).
Qed.

Lemma not_ending_tail (suffix : string) : tail_closed (not_ending suffix).
Proof.
  intros c t [H1 H2]. split; [exact (all_chars_tail _ _ _ H1)|].
  cbn [endswith] in H2. apply orb_false_elim in H2. tauto.
Qed.

Lemma exec_seq {R} (a b : re) (pos : nat) (s : string) (c : caps)
    (k : nat -> string -> caps -> option R) :
  exec (Seq a b) pos s c k = exec a pos s c (fun pos' s' c' => exec b pos' s' c' k).
Proof. reflexivity. Qed.

Lemma exec_alt {R} (a b : re) (pos : nat) (s : string) (c : caps)
    (k : nat -> string -> caps -> option R) :
  exec (Alt a b) pos s c k
  = match exec a pos s c k with Some x => Some x | None => exec b pos s c k end.
Proof. reflexivity. Qed.

Lemma exec_group {R} (i : nat) (a : re) (pos : nat) (s : string) (c : caps)
    (k : nat -> string -> caps -> option R) :
  exec (Group i a) pos s c k
  = exec a pos s c (fun pos' s' c' => k pos' s' ((i, (pos, pos')) :: c')).
Proof. reflexivity. Qed.

Lemma re_suffix_fails (suffix : string) :
  no_upper suffix -> fails (not_ending suffix) (re_suffix suffix).
Proof.
  intros Hsuf R pos s c k Hs. unfold re_suffix.
  rewrite exec_seq, exec_group, exec_alt, exec_seq.
  assert (HK : forall pos0 pos' s' c',
    not_ending suffix s' ->
    exec (lit_ci suffix) pos' s' c'
      (fun pos'' s'' c'' => exec Eol pos'' s'' ((1%nat, (pos0, pos'')) :: c'') k) = None).
  { intros pos0 pos' s' c' [H1 H2]. rewrite exec_lit_ci.
    rewrite (startswith_ci_lower _ Hsuf _ (clean_no_upper _ H1)).
    destruct (startswith suffix s') eqn:E; [|reflexivity].
    rewrite exec_eol, (suffix_not_at_end _ _ H1 H2 E). reflexivity. }
  rewrite (exec_none (not_ending suffix) (plus is_space) (not_ending_tail suffix)
             (fun pos' s' c' => exec (lit_ci suffix) pos' s' c'
                (fun pos'' s'' c'' => exec Eol pos'' s'' ((1%nat, (pos, pos'')) :: c'') k))
             (HK pos) pos s c Hs).
  apply HK. exact Hs.
Qed.

Lemma suffixes_lower : Forall no_upper league_country_suffixes.
Proof. repeat constructor. Qed.

(** A run of non-word characters never reaches the end of a text that
    ends with a word character. *)
Lemma star_eol_none {R} (c : caps) (k : nat -> string -> caps -> option R) :
  forall t pos,
  all_chars clean_char t = true -> ends_word t = true -> t <> EmptyString ->
  star_exec true (fun a => negb (is_word a)) pos t (fun pos' s' => exec Eol pos' s' c k) = None.
Proof.
  induction t as [|b t IH]; intros pos Hc He Hne; [contradiction Hne; reflexivity|].
  cbn [star_exec]. cbn [all_chars] in Hc. apply andb_prop in Hc. destruct Hc as [Hb Hc].
  destruct t as [|b' t'].
  - cbn [ends_word] in He. rewrite He. cbn [negb exec].
    rewrite (clean_char_not_newline _ Hb). reflexivity.
  - rewrite (IH (S pos) Hc He); [|discriminate].
    destruct (negb (is_word b)); reflexivity.
Qed.

Lemma edge_run_none {R} (c : caps) (k : nat -> string -> caps -> option R)
    (s : string) (pos : nat) :
  all_chars clean_char s = true -> ends_word s = true ->
  exec (Seq (plus (fun a => negb (is_word a))) Eol) pos s c k = None.
Proof.
  intros Hc He. unfold plus. cbn [exec]. destruct s as [|a t]; [reflexivity|].
  destruct (negb (is_word a)) eqn:Ea; [|reflexivity].
  cbn [all_chars] in Hc. apply andb_prop in Hc. destruct Hc as [_ Hc].
  destruct t as [|b t'].
  - cbn [ends_word] in He. rewrite He in Ea. discriminate Ea.
  - apply star_eol_none; [exact Hc | exact He | discriminate].
Qed.

Section CleanName.

Variable y : string.
Hypothesis Hclean : clean y = true.

Lemma clean_parts :
  all_chars clean_char y = true /\ starts_name y = true /\ ends_word y = true
  /\ contains "  " y = false /\ contains "must" y = false
  /\ (forall p, In p trophy_phrases -> contains p y = false)
  /\ (forall p, In p league_country_suffixes -> endswith p y = false)
  /\ (forall p, In p common_prefixes -> startswith p y = false)
  /\ (forall p, In p rewrite_phrases -> contains p y = false)
  /\ String.eqb y "internazionale" = false.
Proof.
  unfold clean in Hclean. repeat (apply andb_prop in Hclean; destruct Hclean as [Hclean ?]).
  repeat match goal with H : negb _ = true |- _ => apply negb_true_iff in H end.
  repeat split; try assumption; apply forallb_absent; assumption.
Qed.

Lemma clean_not_empty : String.eqb y "" = false.
Proof.
  destruct clean_parts as [_ [Hs _]]. destruct y; [discriminate Hs | reflexivity].
Qed.

Lemma clean_strip : strip y = y.
Proof. destruct clean_parts as [_ [Hs [He _]]]. exact (strip_clean _ Hs He). Qed.

Lemma clean_lower : lower y = y.
Proof. destruct clean_parts as [Hc _]. exact (lower_no_upper _ (clean_no_upper _ Hc)). Qed.

Lemma stage_leading_number : re_sub re_leading_number y = y.
Proof.
  destruct clean_parts as [_ [Hs _]]. unfold re_sub.
  apply (sub_all_id _ (fun pos s => pos = 0%nat -> starts_name s = true)).
  - intros pos c t _ H. discriminate H.
  - intros pos s H. unfold match_at, re_leading_number, plus. cbn [seqs exec].
    destruct (Nat.eqb pos 0) eqn:E; [|reflexivity].
    apply Nat.eqb_eq in E. specialize (H E). destruct s as [|a t]; [reflexivity|].
    cbn [starts_name] in H. destruct (name_start_char _ H) as [-> _]. reflexivity.
  - intros _. exact Hs.
Qed.

Lemma stage_pitcher : strip_pitcher pitcher_patterns y = y.
Proof.
  destruct clean_parts as [Hc [_ [_ [_ [Hm _]]]]].
  assert (Hw : without "must" y) by (split; [exact (clean_no_upper _ Hc) | exact Hm]).
  assert (Hp : Forall (fails (without "must")) pitcher_patterns).
  { unfold pitcher_patterns, must_start_tail. cbn [seqs app].
    repeat constructor;
      repeat first [ apply fails_seq_l; apply fails_lit_ci; reflexivity
                   | apply fails_seq_r; [apply without_tail|] ]. }
  induction Hp as [|r l Hr _ IH]; [reflexivity|].
  cbn [strip_pitcher]. unfold re_match. rewrite (fails_match_at _ _ Hr 0%nat y Hw).
  exact IH.
Qed.

Lemma stage_trophy : re_match re_trophy y = None.
Proof.
  destruct clean_parts as [Hc [_ [_ [_ [_ [Ht _]]]]]].
  unfold re_match. apply (fails_match_at (free_of trophy_phrases)).
  - unfold re_trophy. cbn [seqs alts].
    apply fails_seq_r; [apply free_of_tail|].
    apply fails_seq_r; [apply free_of_tail|].
    repeat apply fails_alt;
      first [ apply fails_phrase; [cbn; tauto | reflexivity]
            | apply fails_seq_l; apply fails_phrase; [cbn; tauto | reflexivity] ].
  - split; [exact (clean_no_upper _ Hc) | exact Ht].
Qed.

Lemma stage_market_paren : re_sub re_market_paren y = y.
Proof.
  destruct clean_parts as [Hc _]. unfold re_sub.
  apply (sub_all_id _ (fun _ s => all_chars clean_char s = true)).
  - intros _ c t H. exact (all_chars_tail _ _ _ H).
  - intros pos s H. apply (fails_match_at (fun s => all_chars clean_char s = true)); [|exact H].
    unfold re_market_paren. cbn [seqs].
    apply fails_seq_r; [apply all_chars_tail|]. apply fails_seq_l. apply fails_chr.
    intros c t Hs. cbn [all_chars] in Hs. apply andb_prop in Hs.
    apply clean_char_not_paren. tauto.
  - exact Hc.
Qed.

Lemma stage_paren : re_sub re_paren y = y.
Proof.
  destruct clean_parts as [Hc _]. unfold re_sub.
  apply (sub_all_id _ (fun _ s => all_chars clean_char s = true)).
  - intros _ c t H. exact (all_chars_tail _ _ _ H).
  - intros pos s H. apply (fails_match_at (fun s => all_chars clean_char s = true)); [|exact H].
    unfold re_paren. cbn [seqs].
    apply fails_seq_r; [apply all_chars_tail|]. apply fails_seq_l. apply fails_chr.
    intros c t Hs. cbn [all_chars] in Hs. apply andb_prop in Hs.
    apply clean_char_not_paren. tauto.
  - exact Hc.
Qed.

Lemma stage_suffixes : fold_left strip_suffix league_country_suffixes y = y.
Proof.
  destruct clean_parts as [Hc [_ [_ [_ [_ [_ [Hsuf _]]]]]]].
  apply fold_left_id. intros suffix Hin. unfold strip_suffix, re_search.
  rewrite (search_from_none _ (not_ending suffix)); [reflexivity | | |].
  - apply not_ending_tail.
  - intros pos s Hs. apply (fails_match_at (not_ending suffix)); [|exact Hs].
    apply re_suffix_fails. pose proof suffixes_lower as Hl.
    rewrite Forall_forall in Hl. exact (Hl _ Hin).
  - split; [exact Hc | exact (Hsuf _ Hin)].
Qed.

Lemma stage_prefixes : fold_left strip_prefix common_prefixes y = y.
Proof.
  destruct clean_parts as [_ [_ [_ [_ [_ [_ [_ [Hpre _]]]]]]]].
  apply fold_left_id. intros prefix Hin. unfold strip_prefix.
  rewrite (Hpre _ Hin). reflexivity.
Qed.

Lemma stage_rewrites : fixed_rewrites y y = y.
Proof.
  destruct clean_parts as [_ [_ [_ [_ [_ [_ [_ [_ [Hrw Hint]]]]]]]]].
  unfold fixed_rewrites.
  repeat (rewrite Hrw; [|cbn; tauto]). rewrite Hint. reflexivity.
Qed.

Lemma stage_edges : re_sub re_edges y = y.
Proof.
  destruct clean_parts as [Hc [Hs [He _]]]. unfold re_sub.
  apply (sub_all_id _ (fun pos s =>
           all_chars clean_char s = true /\ ends_word s = true
           /\ (pos = 0%nat -> starts_name s = true))).
  - intros pos c t [H1 [H2 _]]. split; [exact (all_chars_tail _ _ _ H1)|].
    split; [|intros H; discriminate H]. destruct t; [reflexivity | exact H2].
  - intros pos s [H1 [H2 H3]]. unfold match_at, re_edges.
    change (exec (Alt ?a ?b) ?p ?s ?c ?k)
      with (match exec a p s c k with Some x => Some x | None => exec b p s c k end).
    rewrite edge_run_none by assumption.
    cbn [exec]. destruct (Nat.eqb pos 0) eqn:E; [|reflexivity].
    apply Nat.eqb_eq in E. specialize (H3 E). unfold plus. cbn [exec].
    destruct s as [|a t]; [reflexivity|]. cbn [starts_name] in H3.
    destruct (name_start_char _ H3) as [_ [-> _]]. reflexivity.
  - repeat split; [exact Hc | exact He | intros _; exact Hs].
Qed.

Lemma stage_other : re_sub re_other y = y.
Proof.
  destruct clean_parts as [Hc _]. unfold re_sub.
  apply (sub_all_id _ (fun _ s => all_chars clean_char s = true)).
  - intros _ c t H. exact (all_chars_tail _ _ _ H).
  - intros pos s H. apply (fails_match_at (fun s => all_chars clean_char s = true)); [|exact H].
    unfold re_other. apply fails_chr.
    intros c t Hs. cbn [all_chars] in Hs. apply andb_prop in Hs. destruct Hs as [Hs _].
    rewrite (clean_char_kept _ Hs). reflexivity.
  - exact Hc.
Qed.

Lemma stage_words : join_sp (split_ws y) = y.
Proof.
  destruct clean_parts as [Hc [Hs [He [Hd _]]]].
  destruct (split_join_spaced y) as [_ Hj].
  - repeat split; assumption.
  - intros E. rewrite E in Hs. discriminate Hs.
  - rewrite Hj. destruct y as [|c t]; [reflexivity|]. cbn [starts_name] in Hs.
    destruct (name_start_char _ Hs) as [_ [_ ->]]. reflexivity.
Qed.

End CleanName.

(** C9 (counterexample).  The normalizer is not idempotent: one pass over
    ["fc fc fc a"] removes two club prefixes and leaves ["fc a"], from which
    a second pass removes the third. *)
Lemma normalizer_not_idempotent :
  normalize_team_name_for_matching "fc fc fc a" = "fc a"
  /\ normalize_team_name_for_matching (normalize_team_name_for_matching "fc fc fc a") = "a".
Proof. split; vm_compute; reflexivity. Qed.

(** C9 (amended).  Whenever the normalized name is clean (only lower-case
    letters, digits, underscores, single spaces and [. - +]; starting with
    a letter or underscore and ending with a word character; with no
    pitcher annotation, prop phrase, league or country suffix, club prefix
    or rewritten phrase left in it), normalizing it again returns it
    unchanged. *)
Theorem normalizer_idempotent_on_clean (x : string) :
  clean (normalize_team_name_for_matching x) = true ->
  normalize_team_name_for_matching (normalize_team_name_for_matching x)
  = normalize_team_name_for_matching x.
Proof.
  remember (normalize_team_name_for_matching x) as y eqn:Ey. intros H.
  unfold normalize_team_name_for_matching. cbv zeta.
  rewrite (clean_not_empty y H).
  rewrite (stage_leading_number y H), !(clean_strip y H).
  rewrite (stage_pitcher y H), (stage_trophy y H), (clean_lower y H).
  rewrite (stage_market_paren y H), (clean_strip y H).
  rewrite (stage_paren y H), (clean_strip y H).
  rewrite (stage_suffixes y H), !(stage_prefixes y H), (stage_rewrites y H).
  rewrite (stage_edges y H), (stage_other y H), (stage_words y H).
  rewrite (clean_strip y H), (clean_not_empty y H).
  reflexivity.
Qed.

Lemma normalizer_idempotent_on_clean_witness :
  clean (normalize_team_name_for_matching "2 Arsenal FC (match)") = true
  /\ normalize_team_name_for_matching (normalize_team_name_for_matching "2 Arsenal FC (match)")
     = normalize_team_name_for_matching "2 Arsenal FC (match)".
Proof.
  split; [vm_compute; reflexivity|].
  apply (normalizer_idempotent_on_clean "2 Arsenal FC (match)"). vm_compute. reflexivity.
Defined.

(* ===================================================================== *)
(** * Further properties: no-vig prices *)
(* ===================================================================== *)

Lemma place_aligned (odds_list : list pyval) :
  forall nvps_for_valid,
  Forall2 (fun odd nvp => valid_odd odd = false -> nvp = PNone)
    odds_list (place odds_list nvps_for_valid).
Proof.
  induction odds_list as [|odd r IH]; intros nvps; cbn [place]; [constructor|].
  destruct (valid_odd odd) eqn:E.
  - destruct nvps as [|n ns]; constructor; try apply IH; intros H; congruence.
  - constructor; [reflexivity | apply IH].
Qed.

Lemma all_none_aligned (odds_list : list pyval) :
  Forall2 (fun odd nvp => valid_odd odd = false -> nvp = PNone)
    odds_list (all_none odds_list).
Proof.
  induction odds_list as [|odd r IH]; cbn; constructor; [reflexivity | exact IH].
Qed.

Section NoVigShape.

Variable math_pow : float -> float -> res float.
Variable math_log : float -> res float.
Variable round3 : float -> float.

Lemma nvp_aligned (odds_list nvps : list pyval) :
  calculate_nvp_for_market math_pow math_log round3 odds_list = Ok nvps ->
  Forall2 (fun odd nvp => valid_odd odd = false -> nvp = PNone) odds_list nvps.
Proof.
  unfold calculate_nvp_for_market. intros H.
  destruct (List.length (filter valid_odd odds_list) <? 2)%nat.
  { injection H as <-. apply all_none_aligned. }
  destruct (implied_probs (filter valid_odd odds_list)) as [probs|e]; [|discriminate H].
  cbn [bind] in H.
  destruct (PrimFloat.eqb (py_sum probs) 0).
  { injection H as <-. apply all_none_aligned. }
  destruct (PrimFloat.leb (py_sum probs) 1.0001).
  { injection H as <-. apply place_aligned. }
  destruct (adjust_power_probabilities math_pow math_log probs) as [tp|e]; [|discriminate H].
  cbn [bind] in H. injection H as <-. apply place_aligned.
Qed.

(** Whenever [calculate_nvp_for_market] returns, its list has one entry
    per input entry, in the same positions, and the entry of an input that
    is not a valid price is [None]. *)
Theorem nvp_aligned_with_input (odds_list nvps : list pyval) :
  calculate_nvp_for_market math_pow math_log round3 odds_list = Ok nvps ->
  List.length nvps = List.length odds_list
  /\ Forall2 (fun odd nvp => valid_odd odd = false -> nvp = PNone) odds_list nvps.
Proof.
  intros H. pose proof (nvp_aligned _ _ H) as Ha.
  split; [symmetry; exact (Forall2_length Ha) | exact Ha].
Qed.

Lemma powered_length (ps : list float) (k : float) :
  forall l, powered math_pow ps k = Ok (Some l) -> List.length l = List.length ps.
Proof.
  induction ps as [|p r IH]; intros l H; cbn [powered] in H.
  - injection H as <-. reflexivity.
  - destruct (math_pow p k) as [v|[]]; try discriminate H.
    destruct (powered math_pow r k) as [[l'|]|e]; cbn [bind] in H; try discriminate H.
    injection H as <-. cbn [List.length]. f_equal. apply IH. reflexivity.
Qed.

Lemma pow_list_length (ps : list float) (k : float) :
  forall l, pow_list math_pow ps k = Ok l -> List.length l = List.length ps.
Proof.
  induction ps as [|p r IH]; intros l H; cbn [pow_list] in H.
  - injection H as <-. reflexivity.
  - destruct (math_pow p k) as [v|e]; cbn [bind] in H; [|discriminate H].
    destruct (pow_list math_pow r k) as [l'|e]; cbn [bind] in H; [|discriminate H].
    injection H as <-. cbn [List.length]. f_equal. apply IH. reflexivity.
Qed.

Lemma proportional_length (ps : list float) :
  List.length (proportional ps) = List.length ps.
Proof.
  unfold proportional. destruct (PrimFloat.eqb (py_sum ps) 0); apply length_map.
Qed.

(** An early [return] from the Newton loop is the proportional fallback. *)
Lemma newton_return (n : nat) (tolerance : float) (ps : list float) :
  forall k l, newton math_pow math_log n tolerance ps k = Ok (inl l) -> l = proportional ps.
Proof.
  induction n as [|n IH]; intros k l H; cbn [newton] in H; [discriminate H|].
  destruct (powered math_pow ps k) as [[cur|]|e]; cbn [bind] in H; try discriminate H.
  - destruct (PrimFloat.eqb (py_sum cur) 0); [discriminate H|].
    destruct (PrimFloat.ltb (abs (py_sum cur - 1)) tolerance); [discriminate H|].
    destruct (derivative_terms math_pow math_log ps k) as [dt|e]; cbn [bind] in H;
      [|discriminate H].
    destruct (PrimFloat.ltb (abs (py_sum dt)) 1e-9); [discriminate H|].
    exact (IH _ _ H).
  - injection H as <-. reflexivity.
Qed.

(** Whenever [adjust_power_probabilities] returns, it returns one
    probability for each positive input probability. *)
Theorem adjusted_one_per_positive (probabilities true_probs : list float) :
  adjust_power_probabilities math_pow math_log probabilities = Ok true_probs ->
  List.length true_probs
  = List.length (filter (fun p => PrimFloat.ltb 0 p) probabilities).
Proof.
  unfold adjust_power_probabilities.
  set (valid := filter (fun p => PrimFloat.ltb 0 p) probabilities). intros H.
  destruct (List.length valid <? 2)%nat.
  { injection H as <-. apply length_map. }
  destruct (newton math_pow math_log 100 1e-4 valid 1) as [[l|k]|e] eqn:En;
    cbn [bind] in H; [| |discriminate H].
  - injection H as <-. rewrite (newton_return _ _ _ _ _ En). apply proportional_length.
  - destruct (pow_list math_pow valid k) as [fp|e] eqn:Ep; cbn [bind] in H; [|discriminate H].
    destruct (PrimFloat.eqb (py_sum fp) 0); injection H as <-; rewrite length_map;
      [reflexivity | exact (pow_list_length _ _ _ Ep)].
Qed.

End NoVigShape.

(** A market with a text among its prices, and one with a price that is
    not valid. *)
Lemma nvp_aligned_with_input_witness :
  calculate_nvp_for_market (fun _ _ => Raise ValueError) (fun _ => Raise ValueError)
    (fun x => x) [PFloat 2.5; PStr "x"; PFloat 1; PInt 2]
  = Ok [PFloat 2.5; PNone; PNone; PInt 2]
  /\ List.length [PFloat 2.5; PNone; PNone; PInt 2]
     = List.length [PFloat 2.5; PStr "x"; PFloat 1; PInt 2]
  /\ Forall2 (fun odd nvp => valid_odd odd = false -> nvp = PNone)
       [PFloat 2.5; PStr "x"; PFloat 1; PInt 2] [PFloat 2.5; PNone; PNone; PInt 2].
Proof.
  split; [vm_compute; reflexivity|].
  apply (nvp_aligned_with_input (fun _ _ => Raise ValueError) (fun _ => Raise ValueError)
           (fun x => x) [PFloat 2.5; PStr "x"; PFloat 1; PInt 2]).
  vm_compute. reflexivity.
Defined.

(** Three probabilities, two of them positive, with a power that leaves
    its base as it is: the first sum is 1 and the loop stops at once. *)
Lemma adjusted_one_per_positive_witness :
  adjust_power_probabilities (fun p _ => Ok p) (fun _ => Raise ValueError)
    [0.5; 0; 0.5]%float = Ok [0.5; 0.5]%float
  /\ List.length [0.5; 0.5]%float
     = List.length (filter (fun p => PrimFloat.ltb 0 p) [0.5; 0; 0.5]%float).
Proof.
  split; [vm_compute; reflexivity|].
  apply (adjusted_one_per_positive (fun p _ => Ok p) (fun _ => Raise ValueError)
           [0.5; 0; 0.5]%float).
  vm_compute. reflexivity.
Defined.

(* ===================================================================== *)
(** * Further properties: total lines *)
(* ===================================================================== *)

Lemma all_chars_app (p : ascii -> bool) (a b : string) :
  all_chars p (a ++ b)%string = all_chars p a && all_chars p b.
Proof.
  induction a as [|c a IH]; [reflexivity|]. cbn [append all_chars].
  rewrite IH, andb_assoc. reflexivity.
Qed.

(** Replacing every occurrence of one character: the result only holds
    characters of the replacement and the other characters of the text. *)
Lemma replace_char_all (p : ascii -> bool) (a : ascii) (new s : string) :
  all_chars p new = true ->
  all_chars (fun c => p c || Ascii.eqb a c) s = true ->
  all_chars p (replace (String a EmptyString) new s) = true.
Proof.
  intros Hn. unfold replace. induction s as [|c t IH]; [reflexivity|].
  cbn [all_chars]. intros H. apply andb_prop in H. destruct H as [Hc Ht].
  cbn [replace_aux startswith String.length Nat.sub].
  destruct (Ascii.eqb a c) eqn:E; cbn [andb].
  - rewrite all_chars_app, Hn, (IH Ht). reflexivity.
  - rewrite orb_false_r in Hc. cbn [all_chars]. rewrite Hc, (IH Ht). reflexivity.
Qed.

Lemma contains_char_all (a : ascii) (s : string) :
  contains (String a EmptyString) s = false ->
  all_chars (fun c => negb (Ascii.eqb a c)) s = true.
Proof.
  induction s as [|c t IH]; [reflexivity|]. cbn [contains startswith all_chars].
  intros H. apply orb_false_elim in H. destruct H as [H1 H2].
  rewrite andb_true_r in H1. rewrite H1, (IH H2). reflexivity.
Qed.

Lemma asian_total_needs_separator :
  fails (fun s => all_chars no_separator s = true) re_asian_total.
Proof.
  unfold re_asian_total. cbn [seqs].
  apply fails_seq_r; [apply all_chars_tail|]. apply fails_seq_l. apply fails_chr.
  intros c t H. cbn [all_chars] in H. apply andb_prop in H. destruct H as [H _].
  unfold no_separator in H.
  apply andb_prop in H. destruct H as [H H3]. apply andb_prop in H. destruct H as [H1 H2].
  apply negb_true_iff in H1, H2, H3.
  rewrite (Ascii.eqb_sym c ","%char), (Ascii.eqb_sym c "/"%char), (Ascii.eqb_sym c " "%char).
  rewrite H1, H2, H3. reflexivity.
Qed.

Section TotalLines.

Variable float_of_str : string -> option float.

(** A text without a slash is never read as an Asian line: spaces are
    removed and commas become points before the pattern is tried, so the
    only separator left is the slash; the text is then whatever [float]
    makes of it, a comma form such as [2.5,3] included. *)
Theorem total_line_without_slash (s : string) :
  contains "/" s = false ->
  normalize_total_line float_of_str (PStr s)
  = Ok (float_of_str (replace "," "." (replace " " "" s))).
Proof.
  intros H. unfold normalize_total_line.
  assert (Hl : all_chars no_separator (replace "," "." (replace " " "" s)) = true).
  { apply replace_char_all; [reflexivity|].
    assert (H1 : all_chars (fun c => negb (Ascii.eqb "/" c) && negb (Ascii.eqb " " c))
                   (replace " " "" s) = true).
    { apply replace_char_all; [reflexivity|].
      apply (all_chars_impl (fun c => negb (Ascii.eqb "/" c))); [|exact (contains_char_all _ _ H)].
      intros c Hc. rewrite Hc. destruct (Ascii.eqb " " c); reflexivity. }
    revert H1. apply all_chars_impl. intros c Hc. unfold no_separator. rewrite Hc.
    destruct (Ascii.eqb "," c); reflexivity. }
  unfold re_match.
  rewrite (fails_match_at _ _ asian_total_needs_separator 0%nat _ Hl). reflexivity.
Qed.

End TotalLines.

Lemma total_line_without_slash_witness :
  contains "/" "2.5,3" = false
  /\ normalize_total_line (fun _ => None) (PStr "2.5,3") = Ok None.
Proof.
  split; [reflexivity|].
  apply (total_line_without_slash (fun _ => None) "2.5,3"). reflexivity.
Defined.

(* ===================================================================== *)
(** * Further properties: [lower] and [strip] *)
(* ===================================================================== *)

Lemma lower_char_idem (c : ascii) : lower_char (lower_char c) = lower_char c.
Proof. destruct c as [[] [] [] [] [] [] [] []]; reflexivity. Qed.

Lemma is_space_lower_char (c : ascii) : is_space (lower_char c) = is_space c.
Proof. destruct c as [[] [] [] [] [] [] [] []]; reflexivity. Qed.

Lemma lower_idem (s : string) : lower (lower s) = lower s.
Proof.
  induction s as [|c t IH]; [reflexivity|]. cbn [lower].
  rewrite lower_char_idem, IH. reflexivity.
Qed.

Lemma lower_lstrip (s : string) : lower (lstrip s) = lstrip (lower s).
Proof.
  induction s as [|c t IH]; [reflexivity|]. cbn [lower lstrip].
  rewrite is_space_lower_char. destruct (is_space c); [exact IH | reflexivity].
Qed.

Lemma lower_rstrip (s : string) : lower (rstrip s) = rstrip (lower s).
Proof.
  induction s as [|c t IH]; [reflexivity|]. cbn [lower rstrip].
  rewrite <- IH, is_space_lower_char.
  destruct (rstrip t) as [|d r]; cbn [lower]; [destruct (is_space c)|]; reflexivity.
Qed.

Lemma lower_strip (s : string) : lower (strip s) = strip (lower s).
Proof. unfold strip. rewrite lower_rstrip, lower_lstrip. reflexivity. Qed.

Lemma rstrip_idem (s : string) : rstrip (rstrip s) = rstrip s.
Proof.
  induction s as [|c t IH]; [reflexivity|]. cbn [rstrip].
  destruct (rstrip t) as [|d r] eqn:E.
  - destruct (is_space c) eqn:Hc; [reflexivity|]. cbn [rstrip]. rewrite Hc. reflexivity.
  - change (rstrip (String c (String d r)))
      with (match rstrip (String d r) with
            | EmptyString => if is_space c then EmptyString else String c EmptyString
            | r' => String c r'
            end).
    rewrite IH. reflexivity.
Qed.

Lemma lstrip_headed (s : string) : headed (lstrip s).
Proof.
  induction s as [|c t IH]; [exact I|]. cbn [lstrip].
  destruct (is_space c) eqn:E; [exact IH | exact E].
Qed.

Lemma rstrip_headed (s : string) : headed s -> headed (rstrip s).
Proof.
  destruct s as [|c t]; [intros _; exact I|]. cbn [headed rstrip]. intros H.
  destruct (rstrip t); [rewrite H|]; exact H.
Qed.

Lemma lstrip_of_headed (s : string) : headed s -> lstrip s = s.
Proof. destruct s as [|c t]; [reflexivity|]. cbn [headed lstrip]. intros ->. reflexivity. Qed.

Lemma strip_idem (s : string) : strip (strip s) = strip s.
Proof.
  unfold strip.
  rewrite (lstrip_of_headed _ (rstrip_headed _ (lstrip_headed s))). apply rstrip_idem.
Qed.

(* ===================================================================== *)
(** * Further properties: alias table *)
(* ===================================================================== *)

Lemma canonical_names_fixed :
  forallb (fun e => String.eqb (alias_normalize (fst e)) (fst e)) TEAM_ALIASES = true.
Proof. vm_compute. reflexivity. Qed.

(** [alias_normalize] is idempotent: a canonical name of the table is its
    own canonical name, and a name the table does not know is only
    lower-cased and trimmed. *)
Theorem alias_normalize_idempotent (name : string) :
  alias_normalize (alias_normalize name) = alias_normalize name.
Proof.
  unfold alias_normalize at 2 3.
  destruct (find _ TEAM_ALIASES) as [[canonical aliases]|] eqn:E.
  - apply find_some in E. destruct E as [Hin _].
    pose proof (proj1 (forallb_forall _ _) canonical_names_fixed _ Hin) as H.
    apply String.eqb_eq in H. exact H.
  - unfold alias_normalize.
    rewrite lower_strip, lower_idem, strip_idem, E. reflexivity.
Qed.

(* ===================================================================== *)
(** * Further properties: normal forms of team names *)
(* ===================================================================== *)

(** ** Operations that keep a class of characters *)

Section KeepsClass.

Variable p : ascii -> bool.

Lemma sub_all_keeps (r : re) (s : string) :
  all_chars p s = true -> forall pos skip, all_chars p (sub_all r pos skip s) = true.
Proof.
  induction s as [|c t IH]; intros H pos skip; [reflexivity|].
  cbn [all_chars] in H. apply andb_prop in H. destruct H as [Hc Ht].
  cbn [sub_all]. destruct skip as [|n]; [|apply IH; exact Ht].
  destruct (match_at r pos (String c t)) as [[e caps0]|].
  - destruct (Nat.eqb e pos); [|apply IH; exact Ht].
    cbn [all_chars]. rewrite Hc. apply IH. exact Ht.
  - cbn [all_chars]. rewrite Hc. apply IH. exact Ht.
Qed.

Lemma lstrip_keeps (s : string) : all_chars p s = true -> all_chars p (lstrip s) = true.
Proof.
  induction s as [|c t IH]; intros H; [reflexivity|]. cbn [lstrip].
  destruct (is_space c); [|exact H]. apply IH. exact (all_chars_tail p _ _ H).
Qed.

Lemma rstrip_keeps (s : string) : all_chars p s = true -> all_chars p (rstrip s) = true.
Proof.
  induction s as [|c t IH]; intros H; [reflexivity|].
  cbn [all_chars] in H. apply andb_prop in H. destruct H as [Hc Ht]. cbn [rstrip].
  specialize (IH Ht). destruct (rstrip t) as [|d r].
  - destruct (is_space c); [reflexivity|]. cbn [all_chars]. rewrite Hc. reflexivity.
  - cbn [all_chars] in IH |- *. rewrite Hc. exact IH.
Qed.

Lemma strip_keeps (s : string) : all_chars p s = true -> all_chars p (strip s) = true.
Proof. intros H. unfold strip. apply rstrip_keeps, lstrip_keeps, H. Qed.

Lemma take_keeps (n : nat) :
  forall s, all_chars p s = true -> all_chars p (take n s) = true.
Proof.
  induction n as [|n IH]; intros s H; [destruct s; reflexivity|].
  destruct s as [|c t]; [reflexivity|].
  cbn [all_chars] in H. apply andb_prop in H. destruct H as [Hc Ht].
  cbn [take all_chars]. rewrite Hc. apply IH. exact Ht.
Qed.

Lemma re_sub1_keeps (r : re) (s : string) :
  all_chars p s = true -> all_chars p (re_sub1 r s) = true.
Proof.
  intros H. unfold re_sub1. destruct (re_search r s) as [[[a b] c]|]; [|exact H].
  rewrite all_chars_app, (take_keeps _ _ H), (all_chars_drop _ _ _ H). reflexivity.
Qed.

Lemma strip_suffix_keeps (norm_name suffix : string) :
  all_chars p norm_name = true -> all_chars p (strip_suffix norm_name suffix) = true.
Proof.
  intros H. unfold strip_suffix. destruct (re_search _ _); [|exact H]. cbv zeta.
  match goal with |- context [if ?c then _ else _] => destruct c end; [|exact H].
  apply strip_keeps, re_sub1_keeps, H.
Qed.

Lemma strip_prefix_keeps (norm_name prefix : string) :
  all_chars p norm_name = true -> all_chars p (strip_prefix norm_name prefix) = true.
Proof.
  intros H. unfold strip_prefix. destruct (startswith prefix norm_name); [|exact H].
  apply strip_keeps, all_chars_drop, H.
Qed.

Lemma fold_left_keeps (f : string -> string -> string) (l : list string) :
  (forall s x, all_chars p s = true -> all_chars p (f s x) = true) ->
  forall s, all_chars p s = true -> all_chars p (fold_left f l s) = true.
Proof.
  intros Hf. induction l as [|x l IH]; intros s H; [exact H|].
  cbn [fold_left]. apply IH, Hf, H.
Qed.

Lemma replace_keeps (old new s : string) :
  all_chars p new = true -> all_chars p s = true -> all_chars p (replace old new s) = true.
Proof.
  intros Hn. unfold replace. generalize 0%nat as skip.
  induction s as [|c t IH]; intros skip H; [reflexivity|].
  cbn [all_chars] in H. apply andb_prop in H. destruct H as [Hc Ht].
  cbn [replace_aux]. destruct skip as [|n]; [|apply IH; exact Ht].
  destruct (startswith old (String c t)).
  - rewrite all_chars_app, Hn. apply IH. exact Ht.
  - cbn [all_chars]. rewrite Hc. apply IH. exact Ht.
Qed.

Lemma split_ws_keeps (s : string) :
  all_chars p s = true -> Forall (fun w => all_chars p w = true) (split_ws s).
Proof.
  induction s as [|c t IH]; intros H; [constructor|].
  cbn [all_chars] in H. apply andb_prop in H. destruct H as [Hc Ht].
  specialize (IH Ht). cbn [split_ws]. destruct (is_space c); [exact IH|].
  destruct t as [|c' t']; [repeat constructor; cbn [all_chars]; rewrite Hc; reflexivity|].
  destruct (is_space c').
  - constructor; [cbn [all_chars]; rewrite Hc; reflexivity | exact IH].
  - destruct (split_ws (String c' t')) as [|w ws].
    + repeat constructor. cbn [all_chars]. rewrite Hc. reflexivity.
    + inversion IH as [|w0 ws0 Hw Hws]; subst.
      constructor; [cbn [all_chars]; rewrite Hc; exact Hw | exact Hws].
Qed.

Lemma join_sp_keeps (l : list string) :
  p " "%char = true -> Forall (fun w => all_chars p w = true) l ->
  all_chars p (join_sp l) = true.
Proof.
  intros Hsp. induction l as [|w l IH]; intros H; [reflexivity|].
  inversion H as [|w0 l0 Hw Hl]; subst. specialize (IH Hl).
  destruct l as [|w' l']; [exact Hw|].
  change (join_sp (w :: w' :: l')) with (w ++ " " ++ join_sp (w' :: l'))%string.
  rewrite !all_chars_app, Hw, IH. cbn [all_chars]. rewrite Hsp. reflexivity.
Qed.

End KeepsClass.

(** ** The normal form is lower-case, trimmed, and empty only for a blank name *)

Lemma lower_char_not_upper (c : ascii) : is_upper (lower_char c) = false.
Proof. destruct c as [[] [] [] [] [] [] [] []]; reflexivity. Qed.

Lemma lower_is_lower (s : string) : no_upper (lower s).
Proof.
  unfold no_upper. induction s as [|c t IH]; [reflexivity|].
  cbn [lower all_chars]. rewrite lower_char_not_upper, IH. reflexivity.
Qed.

Lemma fixed_rewrites_lower (name_l norm_name : string) :
  no_upper norm_name -> no_upper (fixed_rewrites name_l norm_name).
Proof.
  intros H. unfold fixed_rewrites.
  repeat match goal with
         | |- no_upper (if ?c then _ else _) => destruct c
         end;
    first [ reflexivity | exact H | apply replace_keeps; [reflexivity | exact H] ].
Qed.

(** The normalized name contains no capital letter. *)
Theorem normalized_name_is_lower_case (name : string) :
  no_upper (normalize_team_name_for_matching name).
Proof.
  unfold normalize_team_name_for_matching.
  destruct (String.eqb name ""); [reflexivity|]. cbv zeta.
  match goal with
  | |- no_upper (if ?c then _ else _) => destruct c
  end; [|apply strip_keeps, lower_is_lower].
  apply strip_keeps, join_sp_keeps; [reflexivity|]. apply split_ws_keeps.
  apply sub_all_keeps, sub_all_keeps, fixed_rewrites_lower.
  apply fold_left_keeps; [intros s x; apply strip_prefix_keeps|].
  apply fold_left_keeps; [intros s x; apply strip_prefix_keeps|].
  apply fold_left_keeps; [intros s x; apply strip_suffix_keeps|].
  apply strip_keeps, sub_all_keeps, strip_keeps, sub_all_keeps, lower_is_lower.
Qed.

(** The normalized name has no white space at either end. *)
Theorem normalized_name_is_trimmed (name : string) :
  strip (normalize_team_name_for_matching name) = normalize_team_name_for_matching name.
Proof.
  unfold normalize_team_name_for_matching.
  destruct (String.eqb name ""); [reflexivity|]. cbv zeta.
  match goal with
  | |- strip (if ?c then _ else _) = _ => destruct c
  end; apply strip_idem.
Qed.

Lemma lower_empty (s : string) : lower s = "" -> s = "".
Proof. destruct s; [reflexivity | discriminate]. Qed.

Lemma rstrip_of_headed (s : string) : headed s -> rstrip s = "" -> s = "".
Proof.
  destruct s as [|c t]; [reflexivity|]. cbn [headed rstrip]. intros H.
  destruct (rstrip t); [rewrite H|]; discriminate.
Qed.

Lemma lstrip_empty (s : string) : lstrip s = "" -> all_chars is_space s = true.
Proof.
  induction s as [|c t IH]; [reflexivity|]. cbn [lstrip all_chars].
  destruct (is_space c); [exact IH | discriminate].
Qed.

Lemma strip_empty (s : string) : strip s = "" -> all_chars is_space s = true.
Proof.
  unfold strip. intros H. apply lstrip_empty.
  exact (rstrip_of_headed _ (lstrip_headed s) H).
Qed.

Lemma space_not_digit (c : ascii) : is_space c = true -> is_digit c = false.
Proof. destruct c as [[] [] [] [] [] [] [] []]; vm_compute; intuition congruence. Qed.

Lemma leading_number_of_blank (s : string) :
  all_chars is_space s = true -> re_sub re_leading_number s = s.
Proof.
  intros H. unfold re_sub.
  apply (sub_all_id _ (fun _ s => all_chars is_space s = true)); [| |exact H].
  - intros _ c t Hs. exact (all_chars_tail _ _ _ Hs).
  - intros pos t Ht. unfold match_at, re_leading_number, plus. cbn [seqs exec].
    destruct (Nat.eqb pos 0); [|reflexivity].
    destruct t as [|a t']; [reflexivity|].
    cbn [all_chars] in Ht. apply andb_prop in Ht. destruct Ht as [Ha _].
    rewrite (space_not_digit _ Ha). reflexivity.
Qed.

(** The normalized name is empty exactly when the name is blank: empty or
    white space only. *)
Theorem normalized_name_empty_iff_blank (name : string) :
  normalize_team_name_for_matching name = "" <-> strip name = "".
Proof.
  unfold normalize_team_name_for_matching.
  destruct (String.eqb name "") eqn:E.
  { apply String.eqb_eq in E. subst name. split; reflexivity. }
  cbv zeta. split.
  - match goal with
    | |- (if negb (String.eqb ?f "") then _ else _) = _ -> _ =>
        destruct (String.eqb f "") eqn:Ef; cbn [negb]
    end.
    + rewrite <- lower_strip. apply lower_empty.
    + intros H. rewrite H in Ef. discriminate Ef.
  - intros H. rewrite (leading_number_of_blank _ (strip_empty _ H)), H.
    match goal with
    | |- (if ?c then _ else _) = _ => replace c with false by (vm_compute; reflexivity)
    end.
    rewrite <- lower_strip, H. reflexivity.
Qed.

(* ===================================================================== *)
(** * Further properties: prop markets, similarity, search term *)
(* ===================================================================== *)

Lemma existsb_incl {A} (f : A -> bool) (l l' : list A) :
  incl l l' -> existsb f l = true -> existsb f l' = true.
Proof.
  intros Hi H. apply existsb_exists in H. destruct H as [x [Hx Hf]].
  apply existsb_exists. exists x. split; [apply Hi; exact Hx | exact Hf].
Qed.

Lemma existsb_same {A} (f g : A -> bool) (l : list A) :
  (forall x, f x = g x) -> existsb f l = existsb g l.
Proof.
  intros H. induction l as [|x l IH]; [reflexivity|]. cbn [existsb]. rewrite H, IH. reflexivity.
Qed.

Lemma pod_indicators_in_matcher :
  incl PROP_INDICATORS_IN_TEAM_NAMES MatchGames.PROP_INDICATORS.
Proof.
  intros x Hx. apply str_in_In.
  assert (H : forallb (fun y => str_in y MatchGames.PROP_INDICATORS)
                PROP_INDICATORS_IN_TEAM_NAMES = true) by (vm_compute; reflexivity).
  exact (proj1 (forallb_forall _ _) H x Hx).
Qed.

(** The prop filter of the matcher is at least as strict as the one of
    [pod_utils.py]: a pair of names the latter calls a prop market is one
    for the matcher too. *)
Theorem matcher_prop_filter_subsumes (home_team_name away_team_name : string) :
  is_prop_market_by_name home_team_name away_team_name = true ->
  MatchGames.is_prop_market_by_name home_team_name away_team_name = true.
Proof.
  unfold is_prop_market_by_name, MatchGames.is_prop_market_by_name, MatchGames.any_in.
  destruct (String.eqb home_team_name "" || String.eqb away_team_name ""); [discriminate|].
  cbn [existsb]. rewrite orb_false_r.
  destruct (existsb (fun indicator => contains indicator (lower home_team_name))
              PROP_INDICATORS_IN_TEAM_NAMES) eqn:Eh.
  { rewrite (existsb_incl _ _ _ pod_indicators_in_matcher Eh). reflexivity. }
  destruct (existsb (fun indicator => contains indicator (lower away_team_name))
              PROP_INDICATORS_IN_TEAM_NAMES) eqn:Ea.
  { rewrite (existsb_incl _ _ _ pod_indicators_in_matcher Ea).
    destruct (existsb _ MatchGames.PROP_INDICATORS); reflexivity. }
  cbn [orb]. intros H.
  destruct (existsb _ MatchGames.PROP_INDICATORS || existsb _ MatchGames.PROP_INDICATORS);
    [reflexivity | exact H].
Qed.

Lemma matcher_prop_filter_subsumes_witness :
  is_prop_market_by_name "Brazil to win the tournament" "The Field" = true
  /\ MatchGames.is_prop_market_by_name "Brazil to win the tournament" "The Field" = true.
Proof.
  split; [reflexivity|].
  apply (matcher_prop_filter_subsumes "Brazil to win the tournament" "The Field"). reflexivity.
Defined.

(** The alert does not depend on which of the two names is the home team. *)
Theorem prop_alert_symmetric (home_team away_team : string) :
  is_prop_or_corner_alert home_team away_team = is_prop_or_corner_alert away_team home_team.
Proof.
  unfold is_prop_or_corner_alert. f_equal; apply existsb_same; intros w; apply orb_comm.
Qed.

Lemma Z_range_In (n : nat) :
  forall lo z, lo <= z < lo + Z.of_nat n -> In z (Z_range n lo).
Proof.
  induction n as [|n IH]; intros lo z H; [lia|]. cbn [Z_range].
  destruct (Z.eq_dec z lo) as [->|Hne]; [left; reflexivity|].
  right. apply IH. lia.
Qed.

Lemma scores_agree : forallb score_agrees (Z_range 101 0) = true.
Proof. vm_compute. reflexivity. Qed.

Section FuzzyFacts.

Variable token_set_ratio : string -> string -> Z.
Hypothesis ratio_range : forall a b, 0 <= token_set_ratio a b <= 100.

(** With [fuzzywuzzy] installed, two names match exactly when their
    similarity is at least 0.82; the similarity never fails. *)
Theorem match_iff_similarity_082 (team1 team2 : string) :
  exists s,
    calculate_name_similarity (Some token_set_ratio) team1 team2 = Ok s
    /\ fuzzy_team_match (Some token_set_ratio) team1 team2 = PrimFloat.leb 0.82 s.
Proof.
  unfold calculate_name_similarity, fuzzy_team_match, FUZZY_MATCH_THRESHOLD. cbv zeta.
  set (score := token_set_ratio _ _).
  assert (H : score_agrees score = true).
  { apply (proj1 (forallb_forall _ _) scores_agree).
    apply Z_range_In. pose proof (ratio_range (normalize_team_name_for_matching team1)
                                    (normalize_team_name_for_matching team2)).
    fold score in H. lia. }
  unfold score_agrees in H. apply andb_prop in H. destruct H as [Hfin Heq].
  apply negb_true_iff in Hfin. apply Bool.eqb_prop in Heq.
  unfold py_float_of_int. rewrite Hfin. cbn [bind].
  eexists. split; [reflexivity | exact Heq].
Qed.

End FuzzyFacts.

Lemma exact_score_range (a b : string) : 0 <= exact_score a b <= 100.
Proof. unfold exact_score. destruct (String.eqb a b); lia. Defined.

Lemma match_iff_similarity_082_witness :
  exists s,
    calculate_name_similarity (Some exact_score) "LA Lakers" "la lakers" = Ok s
    /\ fuzzy_team_match (Some exact_score) "LA Lakers" "la lakers" = PrimFloat.leb 0.82 s.
Proof.
  apply (match_iff_similarity_082 exact_score exact_score_range "LA Lakers" "la lakers").
Defined.

(** ** Search term *)

Lemma known_terms_not_empty :
  forallb (fun e => negb (String.eqb (snd e) "")) known_terms = true.
Proof. reflexivity. Qed.

Lemma known_term_not_empty (name term : string) :
  known_term name = Some term -> term <> "".
Proof.
  unfold known_term. destruct (find _ known_terms) as [[k t]|] eqn:E; [|discriminate].
  intros H. injection H as <-. apply find_some in E. destruct E as [Hin _].
  pose proof (proj1 (forallb_forall _ _) known_terms_not_empty _ Hin) as Hne.
  cbn [snd] in Hne. apply negb_true_iff in Hne. apply String.eqb_neq. exact Hne.
Qed.

Lemma longer_not_empty (n : nat) (s : string) : (n <? String.length s)%nat = true -> s <> "".
Proof. intros H ->. cbn in H. discriminate H. Qed.

(** The search term is empty only when the home team has an empty normal
    form: it is a known term, a word of the normalized home name longer
    than two characters, or that name itself. *)
Theorem search_term_not_empty (pod_home_team_raw pod_away_team_raw : string) :
  normalize_team_name_for_matching pod_home_team_raw <> "" ->
  determine_betbck_search_term pod_home_team_raw pod_away_team_raw <> "".
Proof.
  intros Hne. unfold determine_betbck_search_term. cbv zeta.
  destruct (known_term (lower (normalize_team_name_for_matching pod_home_team_raw)))
    as [t|] eqn:Eh; [exact (known_term_not_empty _ _ Eh)|].
  destruct (known_term (lower (normalize_team_name_for_matching pod_away_team_raw)))
    as [t|] eqn:Ea; [exact (known_term_not_empty _ _ Ea)|].
  destruct (split_ws (normalize_team_name_for_matching pod_home_team_raw))
    as [|first rest] eqn:Ep; [exact Hne|].
  match goal with
  | |- (if ?c then _ else _) <> _ => destruct c eqn:E1
  end.
  - apply andb_prop in E1. destruct E1 as [E1 _]. apply andb_prop in E1. destruct E1 as [_ E1].
    exact (longer_not_empty _ _ E1).
  - match goal with
    | |- (if ?c then _ else _) <> _ => destruct c eqn:E2
    end; [|exact Hne].
    apply andb_prop in E2. destruct E2 as [E2 _]. exact (longer_not_empty _ _ E2).
Qed.

Lemma search_term_not_empty_witness :
  normalize_team_name_for_matching "Real Madrid" <> ""
  /\ determine_betbck_search_term "Real Madrid" "Barcelona" = "madrid"
  /\ determine_betbck_search_term "Real Madrid" "Barcelona" <> "".
Proof.
  assert (H : normalize_team_name_for_matching "Real Madrid" <> "")
    by (vm_compute; discriminate).
  split; [exact H|]. split; [vm_compute; reflexivity|].
  exact (search_term_not_empty "Real Madrid" "Barcelona" H).
Defined.

(* ===================================================================== *)
(** * Further properties: market analysis *)
(* ===================================================================== *)

Section ShapeFacts.

Variable float_of_str : string -> option float.

Lemma analyze_try_shape (bet_data pd : pyval) (rows : list row) :
  fst (analyze_try float_of_str bet_data pd) = Ok rows ->
  rows = []
  \/ exists frows hrows,
       rows = frows ++ hrows
       /\ truthy (reference_period pd 0) = true
       /\ is_dict (reference_period pd 0) = true
       /\ full_game_rows float_of_str bet_data (field pd "data") (reference_period pd 0)
            (money_line_of (reference_period pd 0)) (meta_of (reference_period pd 0)) = Ok frows
       /\ (hrows = []
           \/ (truthy (field bet_data "1H_data") = true
               /\ truthy (reference_period pd 1) = true
               /\ is_dict (reference_period pd 1) = true
               /\ hrows = fst (_analyze_1h_markets_for_ev float_of_str (field bet_data "1H_data")
                                 (reference_period pd 1) (field pd "data")))).
Proof.
  unfold analyze_try. rewrite fst_bindM. cbn [lift fst].
  destruct (py_getitem pd "data") as [pin_data|] eqn:Hpd; [|discriminate].
  assert (Hdata : field pd "data" = pin_data).
  { destruct pd; try discriminate Hpd. cbn in Hpd |- *.
    destruct (dict_get d "data"); [injection Hpd as <-; reflexivity | discriminate Hpd]. }
  rewrite Hdata.
  destruct (is_none pin_data); [cbn; intros H; injection H as <-; left; reflexivity|].
  destruct (is_dict pin_data) eqn:Hdict; cbn [negb];
    [|cbn; intros H; injection H as <-; left; reflexivity].
  rewrite fst_bindM. cbn [lift fst].
  destruct (py_get pin_data "periods" (PDict [])) as [periods|] eqn:Hper; [|discriminate].
  destruct (is_none periods); [cbn; intros H; injection H as <-; left; reflexivity|].
  destruct (is_dict periods) eqn:Hpdict; cbn [negb];
    [|cbn; intros H; injection H as <-; left; reflexivity].
  assert (Hp0 : reference_period pd 0 = py_or (field periods "num_0") (field periods "0")).
  { unfold reference_period, reference_periods. rewrite Hdata.
    rewrite !(periods_field _ _ _ Hper). reflexivity. }
  assert (Hp1 : reference_period pd 1 = py_or (field periods "num_1") (field periods "1")).
  { unfold reference_period, reference_periods. rewrite Hdata.
    rewrite !(periods_field _ _ _ Hper). reflexivity. }
  destruct periods as [| | | | | |pp]; try discriminate Hpdict.
  rewrite fst_bindM. cbn [lift fst]. rewrite py_get_field.
  rewrite fst_bindM. cbn [lift fst]. rewrite py_get_field, or_else_ok. rewrite <- Hp0.
  set (full_game := reference_period pd 0) in *.
  destruct (is_none full_game); [cbn; intros H; injection H as <-; left; reflexivity|].
  destruct (is_dict full_game) eqn:Hfg; cbn [negb];
    [|cbn; intros H; injection H as <-; left; reflexivity].
  destruct (truthy full_game) eqn:Tfg; cbn [negb];
    [|cbn; intros H; injection H as <-; left; reflexivity].
  rewrite fst_bindM. cbn [lift fst].
  destruct (py_get full_game "money_line" (PDict [])) as [ml0|] eqn:Hml; [|discriminate].
  rewrite fst_bindM. cbn [lift fst].
  destruct (py_get full_game "meta" PNone) as [mt|] eqn:Hmt; [|discriminate].
  apply py_get_ok_field in Hmt. subst mt. fold (meta_of full_game).
  rewrite fst_bindM.
  match goal with
  | |- context [match fst ?m with Ok _ => _ | Raise _ => _ end] =>
      assert (Hmlv : fst m = Ok (money_line_of full_game))
        by (rewrite <- (money_line_of_get _ _ Hml); destruct ml0; reflexivity)
  end.
  rewrite Hmlv. rewrite fst_bindM. cbn [lift fst].
  destruct (full_game_rows float_of_str bet_data pin_data full_game
              (money_line_of full_game) (meta_of full_game))
    as [potential_bets|] eqn:Hfull; [|intros H; discriminate H].
  rewrite fst_bindM. cbn [lift fst].
  destruct (py_get bet_data "1H_data" PNone) as [d1h|] eqn:H1h; [|discriminate].
  apply py_get_ok_field in H1h. subst d1h.
  destruct (truthy (field bet_data "1H_data")) eqn:T1h.
  2:{ cbn. intros H. injection H as <-. right. exists potential_bets, [].
      rewrite app_nil_r. repeat split. left. reflexivity. }
  rewrite fst_bindM. cbn [logM fst]. rewrite fst_bindM. cbn [lift fst]. rewrite py_get_field.
  rewrite fst_bindM. cbn [lift fst]. rewrite py_get_field, or_else_ok. rewrite <- Hp1.
  set (first_half := reference_period pd 1) in *.
  destruct (truthy first_half && is_dict first_half) eqn:Tfh.
  2:{ cbn. intros H. injection H as <-. right. exists potential_bets, [].
      rewrite app_nil_r. repeat split. left. reflexivity. }
  apply andb_prop in Tfh. destruct Tfh as [Tfh Dfh].
  rewrite fst_bindM. cbn [logM fst]. rewrite fst_bindM. cbn [lift fst].
  destruct (py_getitem bet_data "1H_data") as [d|] eqn:Hd; [|discriminate].
  assert (Hdv : d = field bet_data "1H_data").
  { destruct bet_data; try discriminate Hd. cbn in Hd |- *.
    destruct (dict_get d0 "1H_data"); [injection Hd as <-; reflexivity | discriminate Hd]. }
  subst d. rewrite fst_bindM.
  destruct (_analyze_1h_markets_for_ev float_of_str (field bet_data "1H_data") first_half pin_data)
    as [rows_1h log] eqn:H1.
  cbn [fst retM]. intros H. injection H as <-.
  right. exists potential_bets, rows_1h. repeat split; try assumption.
  right. repeat split; assumption.
Qed.

(** An analysis returns, and what it returns has the shape above. *)
Lemma analyze_shape (bet_data pinnacle_data : pyval) :
  exists rows,
    fst (analyze_markets_for_ev float_of_str bet_data pinnacle_data) = Ok rows
    /\ analysis_shape float_of_str bet_data pinnacle_data rows.
Proof.
  unfold analysis_shape, analyze_markets_for_ev, full_game_part, first_half_part,
    secondary_first_half.
  destruct (truthy pinnacle_data) eqn:Tp.
  2:{ destruct (_validate_period_separation _ _) as [[|] vlog];
        cbn; exists []; split; try reflexivity; left; reflexivity. }
  fold (copy_of bet_data).
  destruct (_validate_period_separation _ _) as [valid vlog].
  rewrite fst_bindM. cbn [fst].
  destruct valid; cbn [negb]; [|cbn; exists []; split; [reflexivity | left; reflexivity]].
  rewrite Tp. cbn [negb].
  destruct (is_dict pinnacle_data) eqn:Dp; cbn [negb];
    [|cbn; exists []; split; [reflexivity | left; reflexivity]].
  destruct pinnacle_data as [| | | | | |pd]; try discriminate Dp.
  rewrite fst_bindM. cbn [lift fst py_get].
  destruct (truthy match dict_get pd "data" with Some v => v | None => PNone end) eqn:Td;
    cbn [negb]; [|cbn; exists []; split; [reflexivity | left; reflexivity]].
  rewrite fst_bindM. cbn [lift fst py_getitem].
  destruct (dict_get pd "data") as [d'|]; [|discriminate Td]. cbn [fst].
  destruct (is_none d'); [cbn; exists []; split; [reflexivity | left; reflexivity]|].
  destruct (fst (analyze_try float_of_str (copy_of bet_data) (PDict pd))) as [rows'|e] eqn:Ht;
    cbn [fst]; [|exists []; split; [reflexivity | left; reflexivity]].
  exists rows'. split; [reflexivity|].
  destruct (analyze_try_shape _ _ _ Ht) as [-> | [frows [hrows [Hr [T0 [D0 [Hf Hh]]]]]]];
    [left; reflexivity | right].
  exists frows, hrows. rewrite field_copy_of in Hh. repeat split; assumption.
Qed.


(** A first-half row is returned only when the secondary game has a
    first-half record and the reference event has both a period 0 and a
    period 1. *)
Theorem first_half_rows_need_both_sides (bet_data pinnacle_data : pyval)
    (rows : list row) (r : row) :
  fst (analyze_markets_for_ev float_of_str bet_data pinnacle_data) = Ok rows ->
  In r rows -> is_1h r = true ->
  truthy (secondary_first_half bet_data) = true
  /\ truthy (reference_period pinnacle_data 0) = true
  /\ truthy (reference_period pinnacle_data 1) = true.
Proof.
  intros H Hr H1. destruct (analyze_shape bet_data pinnacle_data) as [rows' [Hr' Hs]].
  rewrite Hr' in H. injection H as ->.
  destruct Hs as [-> | [frows [hrows [-> [T0 [_ [Hf Hh]]]]]]]; [destruct Hr|].
  apply in_app_or in Hr. destruct Hr as [Hr | Hr].
  - unfold full_game_part in Hf.
    destruct (full_game_rows_markets _ _ _ _ _ _ _ _ Hf Hr) as [Hn _]. congruence.
  - destruct Hh as [-> | [T1h [T1 _]]]; [destruct Hr|]. repeat split; assumption.
Qed.

End ShapeFacts.

(** ** Kinds of rows *)

Lemma filter_none {A} (f : A -> bool) (l : list A) :
  (forall x, In x l -> f x = false) -> filter f l = [].
Proof.
  induction l as [|x l IH]; intros H; [reflexivity|]. cbn [filter].
  rewrite (H x (or_introl eq_refl)). apply IH. intros y Hy. apply H. right. exact Hy.
Qed.

Lemma count_kind_app (k : string * string) (a b : list row) :
  count_kind k (a ++ b) = (count_kind k a + count_kind k b)%nat.
Proof. unfold count_kind. rewrite filter_app, length_app. reflexivity. Qed.

Lemma kind_eqb_eq (a b : string * string) : kind_eqb a b = true <-> a = b.
Proof.
  destruct a as [a1 a2], b as [b1 b2]. unfold kind_eqb. cbn [fst snd].
  rewrite andb_true_iff, !String.eqb_eq. split.
  - intros [-> ->]. reflexivity.
  - intros E. injection E as -> ->. split; reflexivity.
Qed.

(** A section that keeps one row at most, of one kind. *)
Lemma count_single_part (k0 k : string * string) (rows : list row) :
  (forall r, In r rows -> kind r = k0) -> (List.length rows <= 1)%nat ->
  (count_kind k rows <= if kind_eqb k0 k then 1 else 0)%nat.
Proof.
  intros Hk Hl. unfold count_kind. destruct (kind_eqb k0 k) eqn:E.
  - pose proof (filter_length_le (fun r => kind_eqb (kind r) k) rows). lia.
  - rewrite filter_none; [cbn; lia|].
    intros r Hr. rewrite (Hk r Hr). exact E.
Qed.

(** A section whose rows are of other kinds. *)
Lemma count_other_part (ks : list (string * string)) (k : string * string) (rows : list row) :
  (forall r, In r rows -> In (kind r) ks) ->
  existsb (fun k0 => kind_eqb k0 k) ks = false ->
  count_kind k rows = 0%nat.
Proof.
  intros Hk Hn. unfold count_kind.
  rewrite filter_none; [reflexivity|]. intros r Hr.
  destruct (kind_eqb (kind r) k) eqn:E; [|reflexivity].
  rewrite <- Hn. symmetry. apply existsb_exists. exists (kind r). split; [exact (Hk r Hr) | exact E].
Qed.

Lemma moneyline_rows_single (mkt sel bk nak nk : string) (bet ml : pyval)
    (limit : res pyval) (names : res (pyval * pyval)) (rows : list row) :
  moneyline_rows mkt sel bk nak nk bet ml limit names = Ok rows ->
  (forall r, In r rows -> kind r = (mkt, sel)) /\ (List.length rows <= 1)%nat.
Proof.
  intros H. split.
  - intros r Hr. destruct (moneyline_rows_market _ _ _ _ _ _ _ _ _ _ H r Hr) as [Hm Hs].
    unfold kind. rewrite Hm, Hs. reflexivity.
  - unfold moneyline_rows in H. steps H; subst rows; cbn; lia.
Qed.

Lemma total_side_kind (under : bool) (odds pin_total : pyval) (pin_line : float)
    (meta_limits : pyval) (names : res (pyval * pyval)) (cur new : best) :
  total_side under odds pin_total pin_line meta_limits names cur = Ok new ->
  (forall r e, cur = Some (r, e) -> kind r = ("Total", if under then "Under" else "Over")) ->
  forall r e, new = Some (r, e) -> kind r = ("Total", if under then "Under" else "Over").
Proof.
  unfold total_side. intros H Hc r e Hn.
  steps H; subst new; try (eapply Hc; eassumption);
    injection Hn as <- <-; reflexivity.
Qed.

Section Kinds.

Variable float_of_str : string -> option float.

Lemma totals_block_slots (pin_totals meta_limits : pyval) (names : res (pyval * pyval))
    (betbck_totals : list (option float * pyval * pyval)) (st : best * best) :
  for_state betbck_totals (None, None) (fun st bck_total =>
    let '(bck_line, over_odds, under_odds) := bck_total in
    items <- py_items pin_totals ;;
    for_state items st (fun st kv =>
      let pin_total := snd kv in
      pts <- py_get pin_total "points" PNone ;;
      pin_line <- normalize_total_line float_of_str pts ;;
      match bck_line, pin_line with
      | Some bl, Some pl =>
          if isclose bl pl then
            bo <- total_side false over_odds pin_total pl meta_limits names (fst st) ;;
            bu <- total_side true under_odds pin_total pl meta_limits names (snd st) ;;
            Ok (bo, bu)
          else Ok st
      | _, _ => Ok st
      end)) = Ok st ->
  total_slots st.
Proof.
  apply (for_state_inv total_slots).
  2:{ split; intros r e H; discriminate H. }
  intros st0 [[bck_line over_odds] under_odds] st1 _ Hst0 Hb.
  destruct (py_items pin_totals) as [items|] eqn:Hi; [cbn [bind] in Hb | discriminate Hb].
  revert Hb. apply (for_state_inv total_slots); [|exact Hst0].
  clear st0 st1 Hst0. intros st0 kv st1 _ Hst0 Hb. cbv zeta in Hb.
  destruct (py_get (snd kv) "points" PNone) as [pts|]; [cbn [bind] in Hb | discriminate Hb].
  destruct (normalize_total_line float_of_str pts) as [pin_line|]; [cbn [bind] in Hb | discriminate Hb].
  destruct bck_line as [bl|]; [|injection Hb as <-; exact Hst0].
  destruct pin_line as [pl|]; [|injection Hb as <-; exact Hst0].
  destruct (isclose bl pl); [|injection Hb as <-; exact Hst0].
  destruct (total_side false _ _ _ _ _ _) as [bo|] eqn:Ho; [cbn [bind] in Hb | discriminate Hb].
  destruct (total_side true _ _ _ _ _ _) as [bu|] eqn:Hu; [cbn [bind] in Hb | discriminate Hb].
  injection Hb as <-. destruct Hst0 as [Hover Hunder]. split; cbn [fst snd].
  - exact (total_side_kind false _ _ _ _ _ _ _ Ho Hover).
  - exact (total_side_kind true _ _ _ _ _ _ _ Hu Hunder).
Qed.

Lemma best_rows_single (k : string * string) (b : best) :
  (forall r e, b = Some (r, e) -> kind r = k) ->
  (forall r, In r (match b with Some (r, _) => [r] | None => [] end) -> kind r = k)
  /\ (List.length (match b with Some (r, _) => [r] | None => [] end) <= 1)%nat.
Proof.
  intros H. destruct b as [[r0 e0]|]; cbn; split; try lia.
  intros r [<- | []]. exact (H r0 e0 eq_refl).
Qed.

(** The rows of the full-game pairings are of the full-game kinds, with
    one row at most of each moneyline and each total. *)
Lemma full_game_rows_kinds (bet_data pin_data full_game ml meta_limits : pyval)
    (rows : list row) :
  full_game_rows float_of_str bet_data pin_data full_game ml meta_limits = Ok rows ->
  (forall r, In r rows -> In (kind r) full_game_kinds)
  /\ (forall k, In k single_kinds -> (count_kind k rows <= 1)%nat).
Proof.
  intros H. unfold full_game_rows in H.
  destruct (moneyline_rows "Moneyline" "Home" _ _ _ _ _ _ _) as [r1|] eqn:H1;
    [cbn [bind] in H | discriminate H].
  destruct (moneyline_rows "Moneyline" "Away" _ _ _ _ _ _ _) as [r2|] eqn:H2;
    [cbn [bind] in H | discriminate H].
  destruct (moneyline_rows "Moneyline" "Draw" _ _ _ _ _ _ _) as [r3|] eqn:H3;
    [cbn [bind] in H | discriminate H].
  destruct (py_get full_game "spreads" PNone) as [sp|] eqn:Hsp;
    [cbn [bind] in H | discriminate H].
  destruct (py_items _) as [items|] eqn:Hitems; [cbn [bind] in H | discriminate H].
  destruct (for_rows items _) as [r4|] eqn:H4; [cbn [bind] in H | discriminate H].
  destruct (py_get full_game "totals" PNone) as [tt|] eqn:Htt;
    [cbn [bind] in H | discriminate H].
  destruct (py_get bet_data "game_total_line" PNone) as [gtl|] eqn:Hgtl;
    [cbn [bind] in H | discriminate H].
  match type of H with bind ?m _ = _ => destruct m as [betbck_totals|] eqn:Hbt end;
    [cbn [bind] in H | discriminate H].
  destruct (for_state betbck_totals _ _) as [st|] eqn:Hst; [cbn [bind] in H | discriminate H].
  injection H as <-.
  apply moneyline_rows_single in H1, H2, H3.
  destruct H1 as [K1 L1], H2 as [K2 L2], H3 as [K3 L3].
  destruct (totals_block_slots _ _ _ _ _ Hst) as [Hover Hunder].
  destruct (best_rows_single _ _ Hover) as [K5 L5].
  destruct (best_rows_single _ _ Hunder) as [K6 L6].
  assert (K4 : forall r, In r r4 -> In (kind r) [("Spread", "Home"); ("Spread", "Away")]).
  { intros r Hr.
    destruct (spreads_block_full _ _ _ _ _ _ _ H4 Hr) as [Hm [away [s [kv [fb [fl [Hsel _]]]]]]].
    unfold kind. rewrite Hm, Hsel. destruct away; cbn; tauto. }
  unfold best in *. split.
  - intros r Hr. repeat (apply in_app_or in Hr; destruct Hr as [Hr | Hr]).
    + rewrite (K1 r Hr). cbn. tauto.
    + rewrite (K2 r Hr). cbn. tauto.
    + rewrite (K3 r Hr). cbn. tauto.
    + destruct (K4 r Hr) as [<- | [<- | []]]; cbn; tauto.
    + rewrite (K5 r Hr). cbn. tauto.
    + rewrite (K6 r Hr). cbn. tauto.
  - intros k Hk. rewrite !count_kind_app.
    pose proof (count_single_part _ k _ K1 L1) as C1.
    pose proof (count_single_part _ k _ K2 L2) as C2.
    pose proof (count_single_part _ k _ K3 L3) as C3.
    pose proof (count_single_part _ k _ K5 L5) as C5.
    pose proof (count_single_part _ k _ K6 L6) as C6.
    assert (C4 : count_kind k r4 = 0%nat).
    { apply (count_other_part _ _ _ K4).
      cbn in Hk. repeat (destruct Hk as [<- | Hk]; [reflexivity|]). destruct Hk. }
    cbn in Hk.
    repeat (destruct Hk as [<- | Hk];
            [cbn [kind_eqb fst snd String.eqb Ascii.eqb Bool.eqb andb] in C1, C2, C3, C5, C6; lia|]).
    destruct Hk.
Qed.

End Kinds.

Lemma total_1h_rows_kind (under : bool) (total pin_total bet_line : pyval)
    (pin_line : option float) (meta_limits home_t away_t : pyval) (rows : list row) :
  total_1h_rows under total pin_total bet_line pin_line meta_limits home_t away_t = Ok rows ->
  forall r, In r rows -> kind r = ("1H Total", if under then "Under" else "Over").
Proof.
  unfold total_1h_rows. intros H r Hr.
  steps H; subst rows; cbn in Hr; try contradiction;
    destruct Hr as [<- | []]; reflexivity.
Qed.

Section FirstHalfKinds.

Variable float_of_str : string -> option float.

Lemma total_loop_1h_kind (under : bool) (pin_totals meta_limits home_t away_t : pyval)
    (totals : list pyval) (rows : list row) (r : row) :
  for_rows totals (fun total =>
    bet_line <- py_get total "line" PNone ;;
    items <- py_items pin_totals ;;
    for_rows items (fun kv =>
      let pin_total := snd kv in
      pts <- py_get pin_total "points" PNone ;;
      pin_line <- normalize_total_line float_of_str pts ;;
      try_continue (total_1h_rows under total pin_total bet_line pin_line
                      meta_limits home_t away_t))) = Ok rows ->
  In r rows -> kind r = ("1H Total", if under then "Under" else "Over").
Proof.
  intros H Hr.
  destruct (for_rows_In _ _ _ H r Hr) as [s [rs [Hs [Hb Hrs]]]].
  steps Hb.
  destruct (for_rows_In _ _ _ Hb r Hrs) as [kv [rs' [Hkv [Hb' Hrs']]]].
  cbv zeta in Hb'. steps Hb'.
  apply (try_continue_In _ _ r) in Hb'; [|exact Hrs'].
  eapply total_1h_rows_kind; eassumption.
Qed.

(** The rows of the first-half function are of the first-half kinds, with
    one row at most of each moneyline. *)
Lemma analyze_1h_kinds (bet_1h_data pinnacle_1h_data pin_data : pyval) :
  (forall r,
     In r (fst (_analyze_1h_markets_for_ev float_of_str bet_1h_data pinnacle_1h_data pin_data)) ->
     In (kind r) first_half_kinds)
  /\ (forall k, In k single_kinds ->
        (count_kind k
           (fst (_analyze_1h_markets_for_ev float_of_str bet_1h_data pinnacle_1h_data pin_data))
         <= 1)%nat).
Proof.
  unfold _analyze_1h_markets_for_ev.
  destruct (analyze_1h_try _ _ _ _) as [rows|e] eqn:H; cbn [fst];
    [|split; [intros r [] | intros k _; cbn; lia]].
  unfold analyze_1h_try in H. steps H. subst rows.
  apply moneyline_rows_single in E3, E4.
  destruct E3 as [K1 L1], E4 as [K2 L2].
  assert (K3 : forall r, In r a8 -> In (kind r) [("1H Spread", "Home"); ("1H Spread", "Away")]).
  { intros r Hr. destruct (spread_loop_1h _ _ _ _ _ _ _ _ E8 Hr) as [Hm [Hsel _]].
    unfold kind. rewrite Hm, Hsel. cbn. tauto. }
  assert (K4 : forall r, In r a11 -> In (kind r) [("1H Spread", "Home"); ("1H Spread", "Away")]).
  { intros r Hr. destruct (spread_loop_1h _ _ _ _ _ _ _ _ E11 Hr) as [Hm [Hsel _]].
    unfold kind. rewrite Hm, Hsel. cbn. tauto. }
  assert (K5 : forall r, In r a15 -> In (kind r) [("1H Total", "Over"); ("1H Total", "Under")]).
  { intros r Hr. rewrite (total_loop_1h_kind _ _ _ _ _ _ _ _ E15 Hr). cbn. tauto. }
  assert (K6 : forall r, In r a18 -> In (kind r) [("1H Total", "Over"); ("1H Total", "Under")]).
  { intros r Hr. rewrite (total_loop_1h_kind _ _ _ _ _ _ _ _ E18 Hr). cbn. tauto. }
  split.
  - intros r Hr. repeat (apply in_app_or in Hr; destruct Hr as [Hr | Hr]).
    + rewrite (K1 r Hr). cbn. tauto.
    + rewrite (K2 r Hr). cbn. tauto.
    + destruct (K3 r Hr) as [<- | [<- | []]]; cbn; tauto.
    + destruct (K4 r Hr) as [<- | [<- | []]]; cbn; tauto.
    + destruct (K5 r Hr) as [<- | [<- | []]]; cbn; tauto.
    + destruct (K6 r Hr) as [<- | [<- | []]]; cbn; tauto.
  - intros k Hk. rewrite !count_kind_app.
    pose proof (count_single_part _ k _ K1 L1) as C1.
    pose proof (count_single_part _ k _ K2 L2) as C2.
    assert (C : count_kind k a8 = 0%nat /\ count_kind k a11 = 0%nat
                /\ count_kind k a15 = 0%nat /\ count_kind k a18 = 0%nat).
    { cbn in Hk.
      repeat (destruct Hk as [<- | Hk];
              [repeat split;
               [apply (count_other_part _ _ _ K3) | apply (count_other_part _ _ _ K4)
               |apply (count_other_part _ _ _ K5) | apply (count_other_part _ _ _ K6)];
               reflexivity|]).
      destruct Hk. }
    destruct C as [C3 [C4 [C5 C6]]].
    cbn in Hk.
    repeat (destruct Hk as [<- | Hk];
            [cbn [kind_eqb fst snd String.eqb Ascii.eqb Bool.eqb andb] in C1, C2; lia|]).
    destruct Hk.
Qed.

End FirstHalfKinds.

Section RowKinds.

Variable float_of_str : string -> option float.

(** Every row an analysis returns is of one of the thirteen kinds: a
    moneyline (home, away or draw), a spread (home or away) or a total
    (over or under) of the full game, or a moneyline (home or away), a
    spread or a total of the first half. *)
Theorem rows_of_known_kinds (bet_data pinnacle_data : pyval) (rows : list row) (r : row) :
  fst (analyze_markets_for_ev float_of_str bet_data pinnacle_data) = Ok rows ->
  In r rows ->
  In (kind r) (full_game_kinds ++ first_half_kinds).
Proof.
  intros H Hr. destruct (analyze_shape float_of_str bet_data pinnacle_data) as [rows' [Hr' Hs]].
  rewrite Hr' in H. injection H as ->.
  destruct Hs as [-> | [frows [hrows [-> [_ [_ [Hf Hh]]]]]]]; [destruct Hr|].
  apply in_or_app. apply in_app_or in Hr. destruct Hr as [Hr | Hr].
  - left. unfold full_game_part in Hf.
    exact (proj1 (full_game_rows_kinds _ _ _ _ _ _ _ Hf) r Hr).
  - right. destruct Hh as [-> | [_ [_ [_ ->]]]]; [destruct Hr|].
    unfold first_half_part in Hr. exact (proj1 (analyze_1h_kinds _ _ _ _) r Hr).
Qed.

End RowKinds.


(** The first-half rows of the sample analysis. *)
Lemma first_half_rows_need_both_sides_witness :
  Forall (fun r =>
    is_1h r = true ->
    truthy (secondary_first_half sample_bet) = true
    /\ truthy (reference_period sample_pinnacle 0) = true
    /\ truthy (reference_period sample_pinnacle 1) = true)
    sample_rows
  /\ Exists (fun r => is_1h r = true) sample_rows.
Proof.
  split.
  - apply Forall_forall. intros r Hr H1.
    apply (first_half_rows_need_both_sides (fun _ => None) sample_bet sample_pinnacle
             sample_rows r); [vm_compute; reflexivity | exact Hr | exact H1].
  - apply Exists_cons_tl. apply Exists_cons_hd. reflexivity.
Defined.

Lemma rows_of_known_kinds_witness :
  Forall (fun r => In (kind r) (full_game_kinds ++ first_half_kinds)) sample_rows
  /\ map kind sample_rows = [("Moneyline", "Home"); ("1H Moneyline", "Home")].
Proof.
  split; [|reflexivity].
  apply Forall_forall. intros r Hr.
  apply (rows_of_known_kinds (fun _ => None) sample_bet sample_pinnacle sample_rows r);
    [vm_compute; reflexivity | exact Hr].
Defined.

(* ===================================================================== *)
(** * Spread rows *)
(* ===================================================================== *)






(** [v.get(k, default)] is the entry of [k] when [v.get(k)] is truthy. *)
Lemma py_get_truthy (v : pyval) (k : string) (default n : pyval) :
  py_get v k PNone = Ok n -> truthy n = true ->
  py_get v k default = Ok n /\ n = field v k.
Proof.
  destruct v as [| | | | | |d]; try discriminate. cbn [py_get field].
  destruct (dict_get d k) as [x|]; intros H T; injection H as <-;
    [split; reflexivity | discriminate T].
Qed.

Section SpreadFacts.

Variable float_of_str : string -> option float.




End SpreadFacts.





Section SpreadLoops.

Variable float_of_str : string -> option float.




End SpreadLoops.

Section SpreadSections.

Variable float_of_str : string -> option float.



End SpreadSections.

Section SpreadFirstHalf.

Variable float_of_str : string -> option float.


End SpreadFirstHalf.

Section SpreadSymmetry.

Variable float_of_str : string -> option float.





End SpreadSymmetry.


(* ===================================================================== *)
(** * The best total *)
(* ===================================================================== *)

(** [<] on the doubles is transitive. *)
Lemma SFltb_trans (a b c : spec_float) :
  SFltb a b = true -> SFltb b c = true -> SFltb a c = true.
Proof.
  unfold SFltb, SFcompare.
  destruct a as [sa|sa| |sa ma ea]; destruct b as [sb|sb| |sb mb eb];
    destruct c as [sc|sc| |sc mc ec]; try discriminate;
    try (destruct sa; destruct sb; destruct sc; (discriminate || reflexivity)).
  change (Pos.compare_cont Eq ma mb) with (Pos.compare ma mb).
  change (Pos.compare_cont Eq mb mc) with (Pos.compare mb mc).
  change (Pos.compare_cont Eq ma mc) with (Pos.compare ma mc).
  destruct sa; destruct sb; destruct sc; try discriminate; try reflexivity;
    destruct (Z.compare_spec ea eb); destruct (Z.compare_spec eb ec);
    destruct (Z.compare_spec ea ec); try discriminate; try reflexivity; try lia;
    destruct (Pos.compare_spec ma mb); destruct (Pos.compare_spec mb mc);
    destruct (Pos.compare_spec ma mc); cbn [CompOpp];
    try discriminate; try reflexivity; try lia.
Qed.

Lemma ltb_trans (a b c : float) :
  PrimFloat.ltb a b = true -> PrimFloat.ltb b c = true -> PrimFloat.ltb a c = true.
Proof. rewrite !ltb_spec. apply SFltb_trans. Qed.

Lemma ltb_irrefl (a : float) : PrimFloat.ltb a a = false.
Proof.
  rewrite ltb_spec. unfold SFltb, SFcompare.
  destruct (Prim2SF a) as [s|s| |s m e]; try reflexivity; try (destruct s; reflexivity).
  change (Pos.compare_cont Eq m m) with (Pos.compare m m).
  rewrite Z.compare_refl, Pos.compare_refl. destruct s; reflexivity.
Qed.

(** [calculate_ev] returns a float. *)
Lemma calculate_ev_float (bo : float) (t v : pyval) :
  calculate_ev bo t = Ok v -> exists e, v = PFloat e.
Proof.
  unfold calculate_ev. intros H. steps H; subst v; eexists; reflexivity.
Qed.

Lemma for_state_seen {A S} (P : list A -> S -> Prop) (body : S -> A -> res S) :
  (forall seen x st st', P seen st -> body st x = Ok st' -> P (seen ++ [x]) st') ->
  forall l seen st st', P seen st -> for_state l st body = Ok st' -> P (seen ++ l) st'.
Proof.
  intros Hb. induction l as [|x l IH]; intros seen st st' Hst H; cbn [for_state] in H.
  - injection H as <-. rewrite app_nil_r. exact Hst.
  - destruct (body st x) as [st1|] eqn:E; [cbn [bind] in H | discriminate H].
    replace (seen ++ x :: l) with ((seen ++ [x]) ++ l) by (rewrite <- app_assoc; reflexivity).
    apply (IH (seen ++ [x]) st1 st'); [|exact H].
    exact (Hb seen x st st1 Hst E).
Qed.

Section BestTotalFacts.

Variable float_of_str : string -> option float.

Lemma slot_keep (under : bool) (bck_line : option float) (odds p : pyval)
    (seen : list pyval) (b : best) :
  total_ev float_of_str under bck_line odds p = None ->
  slot_of float_of_str under bck_line odds seen b ->
  slot_of float_of_str under bck_line odds (seen ++ [p]) b.
Proof.
  intros Hn. destruct b as [[r v]|]; cbn [slot_of].
  - intros [e [-> [[q [Hq Hqe]] Hbest]]]. exists e. split; [reflexivity|]. split.
    + exists q. split; [apply in_or_app; left; exact Hq | exact Hqe].
    + intros p' e' Hp' He'. apply in_app_or in Hp'. destruct Hp' as [Hp' | [<- | []]].
      * exact (Hbest p' e' Hp' He').
      * rewrite Hn in He'. discriminate He'.
  - intros Hnone q Hq. apply in_app_or in Hq. destruct Hq as [Hq | [<- | []]];
      [exact (Hnone q Hq) | exact Hn].
Qed.

Lemma slot_lose (under : bool) (bck_line : option float) (odds p : pyval)
    (seen : list pyval) (r : row) (e e' : float) :
  total_ev float_of_str under bck_line odds p = Some e' ->
  PrimFloat.ltb e e' = false ->
  best_among float_of_str under bck_line odds seen r e ->
  best_among float_of_str under bck_line odds (seen ++ [p]) r e.
Proof.
  intros Hp Hlt [[q [Hq Hqe]] Hbest]. split.
  - exists q. split; [apply in_or_app; left; exact Hq | exact Hqe].
  - intros p' e0 Hp' He0. apply in_app_or in Hp'. destruct Hp' as [Hp' | [<- | []]].
    + exact (Hbest p' e0 Hp' He0).
    + rewrite Hp in He0. injection He0 as <-. exact Hlt.
Qed.

Lemma slot_win (under : bool) (bck_line : option float) (odds p : pyval)
    (seen : list pyval) (cur : best) (r : row) (e' : float) :
  total_ev float_of_str under bck_line odds p = Some e' ->
  total_row float_of_str under odds p e' r ->
  slot_of float_of_str under bck_line odds seen cur ->
  match cur with
  | None => True
  | Some (_, v) => exists e, v = PFloat e /\ PrimFloat.ltb e e' = true
  end ->
  best_among float_of_str under bck_line odds (seen ++ [p]) r e'.
Proof.
  intros Hp Hr Hs Hc. split.
  - exists p. split; [apply in_or_app; right; left; reflexivity | split; assumption].
  - intros p' e0 Hp' He0. apply in_app_or in Hp'. destruct Hp' as [Hp' | [<- | []]].
    + destruct cur as [[r0 v]|]; cbn [slot_of] in Hs.
      * destruct Hs as [e [-> [_ Hbest]]]. destruct Hc as [e1 [E1 Hlt]].
        injection E1 as <-.
        destruct (PrimFloat.ltb e' e0) eqn:L; [|reflexivity].
        pose proof (Hbest p' e0 Hp' He0) as Hb.
        rewrite (ltb_trans _ _ _ Hlt L) in Hb. discriminate Hb.
      * rewrite (Hs p' Hp') in He0. discriminate He0.
    + rewrite Hp in He0. injection He0 as <-. apply ltb_irrefl.
Qed.

(** One side of the totals loop against a reference total whose line
    matches. *)
Lemma total_side_slot (under : bool) (bl : float) (odds p : pyval) (pl : float)
    (meta_limits : pyval) (names : res (pyval * pyval)) (seen : list pyval) (cur new : best) :
  normalize_total_line float_of_str (field p "points") = Ok (Some pl) ->
  isclose bl pl = true ->
  total_side under odds p pl meta_limits names cur = Ok new ->
  slot_of float_of_str under (Some bl) odds seen cur ->
  slot_of float_of_str under (Some bl) odds (seen ++ [p]) new.
Proof.
  intros Hn Hc H Hs. unfold total_side in H.
  assert (Hev : total_ev float_of_str under (Some bl) odds p
                = if truthy odds
                     && truthy (field p (if under then "nvp_american_under" else "nvp_american_over"))
                  then
                    match american_to_decimal odds with
                    | Some bo =>
                        if truthy (PFloat bo)
                           && truthy (field p (if under then "nvp_under" else "nvp_over"))
                        then match calculate_ev bo (field p (if under then "nvp_under" else "nvp_over")) with
                             | Ok (PFloat e) => Some e
                             | _ => None
                             end
                        else None
                    | None => None
                    end
                  else None).
  { unfold total_ev. rewrite Hn, Hc. reflexivity. }
  destruct (truthy odds) eqn:To; cbn [negb] in H.
  2:{ injection H as <-. apply slot_keep; [|exact Hs]. rewrite Hev. reflexivity. }
  destruct (py_get p (if under then "nvp_american_under" else "nvp_american_over") PNone)
    as [n|] eqn:En; [cbn [bind] in H | discriminate H].
  destruct (truthy n) eqn:Tn; cbn [negb] in H.
  2:{ injection H as <-. apply slot_keep; [|exact Hs]. rewrite Hev.
      apply py_get_ok_field in En. subst n. rewrite Tn. reflexivity. }
  destruct (py_get_truthy _ _ (PStr "N/A") _ En Tn) as [Gn Fn].
  rewrite <- Fn, Tn in Hev. cbn [andb] in Hev.
  destruct (py_get p (if under then "nvp_under" else "nvp_over") PNone)
    as [t|] eqn:Et; [cbn [bind] in H | discriminate H].
  apply py_get_ok_field in Et. subst t.
  destruct (american_to_decimal odds) as [bo|] eqn:Eb; cbn [py_of_float_opt] in H.
  2:{ cbn [truthy andb] in H. injection H as <-. apply slot_keep; [exact Hev | exact Hs]. }
  destruct (truthy (PFloat bo) && truthy (field p (if under then "nvp_under" else "nvp_over")))
    eqn:Tb.
  2:{ injection H as <-. apply slot_keep; [exact Hev | exact Hs]. }
  destruct (calculate_ev bo _) as [v|] eqn:Ee; [cbn [bind] in H | discriminate H].
  destruct (calculate_ev_float _ _ _ Ee) as [e' ->].
  assert (Hwin :
    (let sel := if under then "Under" else "Over" in
     '(home_t, away_t) <- names ;;
     nvp <- py_get p (if under then "nvp_american_under" else "nvp_american_over") (PStr "N/A") ;;
     mx <- py_get p "max" PNone ;;
     lim <- or_else mx (py_get meta_limits "max_total" PNone) ;;
     et <- ev_text (PFloat e') ;;
     Ok (Some (mkRow "Total" sel [StrOf (PFloat pl)] nvp (Some lim) odds et home_t away_t
                 (format_bet_description "Total" sel [StrOf (PFloat pl)] home_t away_t),
               PFloat e'))) = Ok new ->
    match cur with
    | None => True
    | Some (_, v) => exists e, v = PFloat e /\ PrimFloat.ltb e e' = true
    end ->
    slot_of float_of_str under (Some bl) odds (seen ++ [p]) new).
  { cbv zeta. intros Hw Hcur.
    destruct names as [[home_t away_t]|]; [cbn [bind] in Hw | discriminate Hw].
    rewrite Gn in Hw. cbn [bind] in Hw.
    destruct (py_get p "max" PNone) as [mx|]; [cbn [bind] in Hw | discriminate Hw].
    destruct (or_else mx _) as [lim|]; [cbn [bind ev_text] in Hw | discriminate Hw].
    injection Hw as <-. cbn [slot_of]. exists e'. split; [reflexivity|].
    apply (slot_win under (Some bl) odds p seen cur); [exact Hev | | exact Hs | exact Hcur].
    unfold total_row, kind. cbn [market selection pinnacle_nvp betbck_odds ev line].
    split; [destruct under; reflexivity|]. split; [exact Fn|]. split; [reflexivity|].
    split; [reflexivity|]. exists pl. split; [exact Hn | reflexivity]. }
  destruct cur as [[r0 v0]|]; cbn [bind] in H.
  - cbn [slot_of] in Hs. destruct Hs as [e0 [-> Hbest]].
    cbn [is_none py_gt as_float bind] in H.
    destruct (PrimFloat.ltb e0 e') eqn:L.
    + apply Hwin; [exact H|]. exists e0. split; [reflexivity | exact L].
    + injection H as <-. cbn [slot_of]. exists e0. split; [reflexivity|].
      exact (slot_lose under (Some bl) odds p seen r0 e0 e' Hev L Hbest).
  - apply Hwin; [exact H | exact I].
Qed.

End BestTotalFacts.

Lemma reference_totals_full (period tt : pyval) (items : list (string * pyval)) :
  py_get period "totals" PNone = Ok tt ->
  py_items (if is_dict tt then tt else PDict []) = Ok items ->
  map snd items = reference_totals period.
Proof.
  intros Htt Hi. apply py_get_ok_field in Htt. unfold reference_totals. rewrite <- Htt.
  destruct tt; cbn in Hi; injection Hi as <-; reflexivity.
Qed.

Section BestTotalLoop.

Variable float_of_str : string -> option float.

(** The loop over the reference totals, for one secondary total. *)
Lemma totals_loop_slots (bck_line : option float) (over_odds under_odds meta_limits : pyval)
    (names : res (pyval * pyval)) (items : list (string * pyval)) (st : best * best) :
  for_state items (None, None) (fun st kv =>
    let pin_total := snd kv in
    pts <- py_get pin_total "points" PNone ;;
    pin_line <- normalize_total_line float_of_str pts ;;
    match bck_line, pin_line with
    | Some bl, Some pl =>
        if isclose bl pl then
          bo <- total_side false over_odds pin_total pl meta_limits names (fst st) ;;
          bu <- total_side true under_odds pin_total pl meta_limits names (snd st) ;;
          Ok (bo, bu)
        else Ok st
    | _, _ => Ok st
    end) = Ok st ->
  slots_of float_of_str bck_line over_odds under_odds items st.
Proof.
  intros H.
  refine (for_state_seen (slots_of float_of_str bck_line over_odds under_odds) _ _ items []
            (None, None) st
            _ H).
  2:{ split; intros p []. }
  clear st H. intros seen kv st st' [Ho Hu] Hb. cbv zeta in Hb.
  destruct (py_get (snd kv) "points" PNone) as [pts|] eqn:Hp;
    [cbn [bind] in Hb | discriminate Hb].
  apply py_get_ok_field in Hp. subst pts.
  destruct (normalize_total_line float_of_str (field (snd kv) "points")) as [pin_line|] eqn:Hn;
    [cbn [bind] in Hb | discriminate Hb].
  unfold slots_of. rewrite map_app. cbn [map].
  assert (Hskip : forall under odds, 
            match bck_line, pin_line with
            | Some bl, Some pl => isclose bl pl = false
            | _, _ => True
            end ->
            total_ev float_of_str under bck_line odds (snd kv) = None).
  { intros under odds Hm. unfold total_ev. rewrite Hn.
    destruct bck_line as [bl|]; [|reflexivity].
    destruct pin_line as [pl|]; [|reflexivity]. rewrite Hm. reflexivity. }
  destruct bck_line as [bl|].
  2:{ injection Hb as <-. split; (apply slot_keep; [apply Hskip; exact I | assumption]). }
  destruct pin_line as [pl|].
  2:{ injection Hb as <-. split; (apply slot_keep; [apply Hskip; exact I | assumption]). }
  destruct (isclose bl pl) eqn:Hc.
  2:{ injection Hb as <-. split; (apply slot_keep; [apply Hskip; reflexivity | assumption]). }
  destruct (total_side false _ _ _ _ _ _) as [bo|] eqn:Eo; [cbn [bind] in Hb | discriminate Hb].
  destruct (total_side true _ _ _ _ _ _) as [bu|] eqn:Eu; [cbn [bind] in Hb | discriminate Hb].
  injection Hb as <-. cbn [fst snd]. split.
  - exact (total_side_slot float_of_str false _ _ _ _ _ _ _ _ _ Hn Hc Eo Ho).
  - exact (total_side_slot float_of_str true _ _ _ _ _ _ _ _ _ Hn Hc Eu Hu).
Qed.

(** The total rows of the full-game pairings are the best ones. *)
Lemma full_game_best_totals (bet_data pin_data full_game ml meta_limits : pyval)
    (rows : list row) (under : bool) (r : row) :
  full_game_rows float_of_str bet_data pin_data full_game ml meta_limits = Ok rows ->
  In r rows ->
  kind r = ("Total", if under then "Under" else "Over") ->
  best_total float_of_str under bet_data full_game r.
Proof.
  intros H Hr Hk. unfold full_game_rows in H.
  destruct (moneyline_rows "Moneyline" "Home" _ _ _ _ _ _ _) as [r1|] eqn:H1;
    [cbn [bind] in H | discriminate H].
  destruct (moneyline_rows "Moneyline" "Away" _ _ _ _ _ _ _) as [r2|] eqn:H2;
    [cbn [bind] in H | discriminate H].
  destruct (moneyline_rows "Moneyline" "Draw" _ _ _ _ _ _ _) as [r3|] eqn:H3;
    [cbn [bind] in H | discriminate H].
  destruct (py_get full_game "spreads" PNone) as [sp|] eqn:Hsp;
    [cbn [bind] in H | discriminate H].
  destruct (py_items _) as [items|] eqn:Hitems; [cbn [bind] in H | discriminate H].
  destruct (for_rows items _) as [r4|] eqn:H4; [cbn [bind] in H | discriminate H].
  destruct (py_get full_game "totals" PNone) as [tt|] eqn:Htt;
    [cbn [bind] in H | discriminate H].
  destruct (py_get bet_data "game_total_line" PNone) as [gtl|] eqn:Hgtl;
    [cbn [bind] in H | discriminate H].
  match type of H with bind ?m _ = _ => destruct m as [betbck_totals|] eqn:Hbt end;
    [cbn [bind] in H | discriminate H].
  destruct (for_state betbck_totals _ _) as [st|] eqn:Hst; [cbn [bind] in H | discriminate H].
  injection H as <-.
  assert (Hm : forall m, market r = m -> m <> "Total" -> 
               best_total float_of_str under bet_data full_game r).
  { intros m Em Ne. unfold kind in Hk. injection Hk as Hk _. congruence. }
  assert (Hslots : forall (under' : bool) (r0 : row) (v0 : pyval),
            (if under' then snd st else fst st) = Some (r0, v0) ->
            kind r0 = ("Total", if under' then "Under" else "Over")
            /\ best_total float_of_str under' bet_data full_game r0).
  { intros under' r0 v0 Hs. apply py_get_ok_field in Hgtl. subst gtl.
    destruct (is_none (field bet_data "game_total_line")).
    { injection Hbt as <-. cbn [for_state] in Hst. injection Hst as <-.
      destruct under'; discriminate Hs. }
    destruct (normalize_total_line float_of_str (field bet_data "game_total_line"))
      as [l|] eqn:El; [cbn [bind] in Hbt | discriminate Hbt].
    destruct (py_get bet_data "game_total_over_odds" PNone) as [o|] eqn:Eo;
      [cbn [bind] in Hbt | discriminate Hbt].
    destruct (py_get bet_data "game_total_under_odds" PNone) as [u|] eqn:Eu;
      [cbn [bind] in Hbt | discriminate Hbt].
    injection Hbt as <-. apply py_get_ok_field in Eo, Eu. subst o u.
    cbn [for_state] in Hst.
    destruct (py_items (if is_dict tt then tt else PDict [])) as [titems|] eqn:Eti;
      [cbn [bind] in Hst | discriminate Hst].
    match type of Hst with
    | bind ?m _ = _ => destruct m as [st1|] eqn:Eloop; [cbn [bind] in Hst | discriminate Hst]
    end.
    injection Hst as <-.
    destruct (totals_loop_slots _ _ _ _ _ _ _ Eloop) as [So Su].
    rewrite (reference_totals_full _ _ _ Htt Eti) in So, Su.
    unfold best_total, secondary_total. rewrite El. cbn [fst snd].
    unfold best in *. destruct under'.
    - rewrite Hs in Su. cbn [slot_of] in Su.
      destruct Su as [e [_ Hb]]. split; [|exists e; exact Hb].
      destruct Hb as [[q [_ [_ Hrow]]] _]. exact (proj1 Hrow).
    - rewrite Hs in So. cbn [slot_of] in So.
      destruct So as [e [_ Hb]]. split; [|exists e; exact Hb].
      destruct Hb as [[q [_ [_ Hrow]]] _]. exact (proj1 Hrow). }
  repeat (apply in_app_or in Hr; destruct Hr as [Hr | Hr]).
  - destruct (moneyline_rows_market _ _ _ _ _ _ _ _ _ _ H1 r Hr) as [Em _].
    apply (Hm _ Em). discriminate.
  - destruct (moneyline_rows_market _ _ _ _ _ _ _ _ _ _ H2 r Hr) as [Em _].
    apply (Hm _ Em). discriminate.
  - destruct (moneyline_rows_market _ _ _ _ _ _ _ _ _ _ H3 r Hr) as [Em _].
    apply (Hm _ Em). discriminate.
  - destruct (spreads_block_full _ _ _ _ _ _ _ H4 Hr) as [Em _].
    apply (Hm _ Em). discriminate.
  - destruct (fst st) as [[r0 v0]|] eqn:Hs; [|destruct Hr]. destruct Hr as [<- | []].
    destruct (Hslots false r0 v0 eq_refl) as [K B]. rewrite K in Hk.
    destruct under; [discriminate Hk | exact B].
  - destruct (snd st) as [[r0 v0]|] eqn:Hs; [|destruct Hr]. destruct Hr as [<- | []].
    destruct (Hslots true r0 v0 eq_refl) as [K B]. rewrite K in Hk.
    destruct under; [exact B | discriminate Hk].
Qed.

End BestTotalLoop.

Section BestTotalRows.

Variable float_of_str : string -> option float.

Lemma secondary_total_copy_of (under : bool) (bet_data : pyval) :
  secondary_total float_of_str under (copy_of bet_data)
  = secondary_total float_of_str under bet_data.
Proof. unfold secondary_total. rewrite !field_copy_of. reflexivity. Qed.

(** An analysis returns one row at most for each moneyline selection of
    the full game and of the first half, and one row at most for the over
    and for the under of the full-game total; that row is the best one:
    the row of a reference total of period 0 whose line [math.isclose]
    accepts against the secondary line, with the EV of the secondary odds
    against its fair price, and no such reference total has a greater
    EV. *)
Theorem one_row_per_single_kind (bet_data pinnacle_data : pyval) (rows : list row) :
  fst (analyze_markets_for_ev float_of_str bet_data pinnacle_data) = Ok rows ->
  (forall k, In k single_kinds -> (count_kind k rows <= 1)%nat)
  /\ (forall (under : bool) (r : row),
        In r rows ->
        kind r = ("Total", if under then "Under" else "Over") ->
        best_total float_of_str under bet_data (reference_period pinnacle_data 0) r).
Proof.
  intros H. destruct (analyze_shape float_of_str bet_data pinnacle_data) as [rows' [Hr' Hs]].
  rewrite Hr' in H. injection H as ->.
  destruct Hs as [-> | [frows [hrows [-> [_ [_ [Hf Hh]]]]]]].
  { split; [intros k _; cbn; lia | intros under r []]. }
  unfold full_game_part in Hf.
  destruct (full_game_rows_kinds _ _ _ _ _ _ _ Hf) as [Kf Cf].
  assert (Kh : forall r, In r hrows -> In (kind r) first_half_kinds).
  { destruct Hh as [-> | [_ [_ [_ ->]]]]; [intros r []|].
    unfold first_half_part. exact (proj1 (analyze_1h_kinds _ _ _ _)). }
  split.
  - intros k Hk. rewrite count_kind_app.
    assert (Ch : (count_kind k hrows <= 1)%nat).
    { destruct Hh as [-> | [_ [_ [_ ->]]]]; [cbn; lia|].
      unfold first_half_part. exact (proj2 (analyze_1h_kinds _ _ _ _) k Hk). }
    pose proof (Cf k Hk) as Cf'.
    cbn in Hk.
    repeat (destruct Hk as [<- | Hk];
            [first [ rewrite (count_other_part _ _ _ Kh); [lia | reflexivity]
                   | rewrite (count_other_part _ _ _ Kf); [lia | reflexivity] ]|]).
    destruct Hk.
  - intros under r Hr Hk. apply in_app_or in Hr. destruct Hr as [Hr | Hr].
    + pose proof (full_game_best_totals _ _ _ _ _ _ _ under r Hf Hr Hk) as B.
      unfold best_total in *. rewrite secondary_total_copy_of in B. exact B.
    + pose proof (Kh r Hr) as K. rewrite Hk in K. cbn in K.
      destruct under; repeat (destruct K as [K | K]; [discriminate K|]); destruct K.
Qed.

End BestTotalRows.

(** Two reference totals of the same line: the row is that of the second,
    whose EV is the greater. *)
Lemma one_row_per_single_kind_witness :
  map (fun r => (kind r, pinnacle_nvp r)) totals_rows = [(("Total", "Over"), PStr "-111")]
  /\ (count_kind ("Total", "Over") totals_rows <= 1)%nat
  /\ Forall (fun r =>
       kind r = ("Total", "Over") ->
       best_total (fun _ => None) false totals_bet (reference_period totals_pinnacle 0) r)
       totals_rows.
Proof.
  pose proof (one_row_per_single_kind (fun _ => None) totals_bet totals_pinnacle totals_rows
                ltac:(vm_compute; reflexivity)) as [C B].
  split; [reflexivity|]. split.
  - apply C. cbn. tauto.
  - apply Forall_forall. intros r Hr Hk. exact (B false r Hr Hk).
Defined.

(* ===================================================================== *)
(** * Further properties: event matcher *)
(* ===================================================================== *)

Module MatchTrace.
Import MatchGames MatchInvariants.

Section Trace.

Variable token_set_ratio : string -> string -> float.
Variable iso_time_diff : string -> string -> option float.

(** One turn of the loop either leaves the state as it is or appends one
    record, for a candidate that passed the filters. *)
Lemma match_game_step (major : list pinnacle_event) (st st' : loop_state) (g : betbck_game) :
  match_game token_set_ratio iso_time_diff major st g = Ok st' ->
  st' = st
  \/ exists e eid m,
       In e major
       /\ skipped iso_time_diff (processed_pinnacle_event_ids st) g e = false
       /\ event_id e = Some eid
       /\ str_in (game_key g) (matched_betbck_ids st) = false
       /\ pinnacle_event_id m = eid
       /\ pinnacle_home_team m = pe_home_team e
       /\ pinnacle_away_team m = pe_away_team e
       /\ matched_betbck_game m = g
       /\ PrimFloat.leb FUZZY_MATCH_THRESHOLD (match_score m) = true
       /\ determine_sport_from_teams (lower (pe_home_team e)) (lower (pe_away_team e))
          = sport m
       /\ st' = mkLoop (matched_events st ++ [m])
                  (eid :: processed_pinnacle_event_ids st)
                  (game_key g :: matched_betbck_ids st).
Proof.
  intros H. unfold match_game in H.
  destruct (str_in (game_key g) (matched_betbck_ids st)) eqn:Hg;
    [injection H as <-; left; reflexivity|].
  match type of H with
  | (if ?c then _ else _) = _ => destruct c; [injection H as <-; left; reflexivity|]
  end.
  cbv zeta in H.
  match type of H with
  | context [search ?t ?i ?p ?g0 ?h ?a ?ev ?s0] =>
      pose proof (MatchFacts.search_best t i p g0 h a ev s0) as Hbest;
      destruct (search t i p g0 h a ev s0) as [bm bs bo]
  end.
  cbn [best_match best_score best_orientation] in H, Hbest.
  destruct bm as [e|]; [|injection H as <-; left; reflexivity].
  destruct (PrimFloat.leb FUZZY_MATCH_THRESHOLD bs) eqn:Hscore;
    [|injection H as <-; left; reflexivity].
  destruct (event_id e) as [eid|] eqn:He; [|discriminate H].
  destruct (Hbest e eq_refl) as [H0 | [Hin Hsk]]; [discriminate H0|].
  apply filter_In in Hin. destruct Hin as [Hin Hsport]. apply String.eqb_eq in Hsport.
  match type of H with
  | (let '(_, _) := ?p in _) = _ => destruct p as [home_odds away_odds]
  end.
  injection H as <-. right.
  eexists e, eid, _. repeat split; try eassumption; reflexivity.
Qed.

Lemma skipped_filters (processed : list string) (g : betbck_game) (e : pinnacle_event) :
  skipped iso_time_diff processed g e = false ->
  is_prop_market_by_name (pe_home_team e) (pe_away_team e) = false
  /\ is_league_compatible g e = true.
Proof.
  unfold skipped. intros H.
  repeat (apply orb_false_elim in H; destruct H as [H ?]).
  split; [assumption|]. apply negb_false_iff. assumption.
Qed.

Lemma match_game_traced (pinnacle_events : list pinnacle_event) (betbck_games : list betbck_game)
    (matched_ids : list string) (st st' : loop_state) (g : betbck_game) :
  In g betbck_games ->
  traced pinnacle_events betbck_games matched_ids st ->
  match_game token_set_ratio iso_time_diff
    (filter (fun e => negb (is_minor e)) pinnacle_events) st g = Ok st' ->
  traced pinnacle_events betbck_games matched_ids st'.
Proof.
  intros Hg [Hrec Hids] H.
  destruct (match_game_step _ _ _ _ H)
    as [-> | [e [eid [m [Hin [Hsk [He [Hkey [Hid [Hh [Ha [Hgm [Hsc [Hsp ->]]]]]]]]]]]]]];
    [split; assumption|].
  apply filter_In in Hin. destruct Hin as [Hin Hminor]. apply negb_true_iff in Hminor.
  destruct (skipped_filters _ _ _ Hsk) as [Hprop Hleague].
  split; cbn [matched_events matched_betbck_ids].
  - intros m' Hm'. apply in_app_or in Hm'. destruct Hm' as [Hm' | [Heq | []]];
      [exact (Hrec m' Hm')|].
    subst m'. rewrite Hgm. split; [exact Hg|]. split.
    + intros Hk. assert (Hk' : In (game_key g) (matched_betbck_ids st)).
      { rewrite Hids. apply in_or_app. right. exact Hk. }
      apply str_in_In in Hk'. congruence.
    + split; [exact Hsc|]. exists e. unfold pairs. rewrite Hid.
      repeat split; assumption.
  - rewrite map_app, rev_app_distr, Hids. cbn [map rev app]. rewrite Hgm. reflexivity.
Qed.

Lemma loop_traced (matched_ids : list string)
    (pinnacle_events : list pinnacle_event) (betbck_games : list betbck_game)
    (st : loop_state) :
  for_state betbck_games (mkLoop [] [] matched_ids)
    (match_game token_set_ratio iso_time_diff
       (filter (fun e => negb (is_minor e)) pinnacle_events)) = Ok st ->
  traced pinnacle_events betbck_games matched_ids st.
Proof.
  apply (for_state_inv (traced pinnacle_events betbck_games matched_ids)).
  - intros s g s' Hg Hs Hstep. exact (match_game_traced _ _ _ _ _ _ Hg Hs Hstep).
  - split; [intros m []|reflexivity].
Qed.

Lemma loop_consistent (matched_ids : list string) (major : list pinnacle_event)
    (betbck_games : list betbck_game) (st : loop_state) :
  for_state betbck_games (mkLoop [] [] matched_ids)
    (match_game token_set_ratio iso_time_diff major) = Ok st ->
  consistent st.
Proof.
  apply (for_state_inv consistent).
  - intros s g s' _ Hs Hg. exact (MatchFacts.match_game_consistent _ _ _ _ _ _ Hs Hg).
  - unfold consistent. cbn. repeat split; try constructor; contradiction.
Qed.

Lemma NoDup_map_Some {A} (l : list A) : NoDup l -> NoDup (map Some l).
Proof.
  induction 1 as [|x l Hx Hl IH]; cbn [map]; constructor; [|exact IH].
  intros H. apply in_map_iff in H. destruct H as [y [E Hy]].
  injection E as ->. exact (Hx Hy).
Qed.

(** The state the loop ended in, for a call that returned. *)
Lemma returned_state (matched_ids : list string)
    (pinnacle_events : list pinnacle_event) (betbck_games : list betbck_game)
    (records : list match_record) (matched_ids' : list string) :
  match_pinnacle_to_betbck token_set_ratio iso_time_diff matched_ids
    pinnacle_events betbck_games = Ok (records, matched_ids') ->
  exists st,
    for_state betbck_games (mkLoop [] [] matched_ids)
      (match_game token_set_ratio iso_time_diff
         (filter (fun e => negb (is_minor e)) pinnacle_events)) = Ok st
    /\ matched_events st = records /\ matched_betbck_ids st = matched_ids'.
Proof.
  unfold match_pinnacle_to_betbck. intros H.
  destruct (for_state betbck_games _ _) as [st|] eqn:Hloop; [cbn [bind] in H | discriminate H].
  destruct betbck_games; [discriminate H|]. injection H as <- <-.
  exists st. repeat split.
Qed.

(** Every record the matcher returns pairs a game of the slate with an
    event of the list: it holds that game, and the id and team names of an
    event that is not minor league, not a prop market, league-compatible
    with the game, and of the sport of the record. *)
Theorem records_pair_inputs (matched_ids : list string)
    (pinnacle_events : list pinnacle_event) (betbck_games : list betbck_game)
    (records : list match_record) (matched_ids' : list string) (m : match_record) :
  match_pinnacle_to_betbck token_set_ratio iso_time_diff matched_ids
    pinnacle_events betbck_games = Ok (records, matched_ids') ->
  In m records ->
  In (matched_betbck_game m) betbck_games
  /\ exists e,
       In e pinnacle_events
       /\ pairs m (matched_betbck_game m) e
       /\ is_minor e = false
       /\ is_prop_market_by_name (pe_home_team e) (pe_away_team e) = false
       /\ is_league_compatible (matched_betbck_game m) e = true
       /\ determine_sport_from_teams (lower (pe_home_team e)) (lower (pe_away_team e))
          = sport m.
Proof.
  intros H Hm. destruct (returned_state _ _ _ _ _ H) as [st [Hloop [<- _]]].
  destruct (loop_traced _ _ _ _ Hloop) as [Hrec _].
  destruct (Hrec m Hm) as [Hg [_ [_ He]]]. split; assumption.
Qed.

(** Every record the matcher returns has a score of at least
    [FUZZY_MATCH_THRESHOLD]. *)
Theorem records_reach_threshold (matched_ids : list string)
    (pinnacle_events : list pinnacle_event) (betbck_games : list betbck_game)
    (records : list match_record) (matched_ids' : list string) (m : match_record) :
  match_pinnacle_to_betbck token_set_ratio iso_time_diff matched_ids
    pinnacle_events betbck_games = Ok (records, matched_ids') ->
  In m records ->
  PrimFloat.leb FUZZY_MATCH_THRESHOLD (match_score m) = true.
Proof.
  intros H Hm. destruct (returned_state _ _ _ _ _ H) as [st [Hloop [<- _]]].
  destruct (loop_traced _ _ _ _ Hloop) as [Hrec _].
  destruct (Hrec m Hm) as [_ [_ [Hs _]]]. exact Hs.
Qed.

(** The keys matched by earlier calls persist: a game whose key was
    matched before the call is in no record, and the keys on exit are those
    on entry preceded by the keys of the new records, latest first. *)
Theorem matched_keys_persist (matched_ids : list string)
    (pinnacle_events : list pinnacle_event) (betbck_games : list betbck_game)
    (records : list match_record) (matched_ids' : list string) :
  match_pinnacle_to_betbck token_set_ratio iso_time_diff matched_ids
    pinnacle_events betbck_games = Ok (records, matched_ids') ->
  matched_ids'
  = rev (map (fun m => game_key (matched_betbck_game m)) records) ++ matched_ids
  /\ forall m, In m records -> ~ In (game_key (matched_betbck_game m)) matched_ids.
Proof.
  intros H. destruct (returned_state _ _ _ _ _ H) as [st [Hloop [<- <-]]].
  destruct (loop_traced _ _ _ _ Hloop) as [Hrec Hids].
  split; [exact Hids|]. intros m Hm. destruct (Hrec m Hm) as [_ [Hk _]]. exact Hk.
Qed.

(** There are at most as many records as games, and at most as many as
    events. *)
Theorem records_bounded (matched_ids : list string)
    (pinnacle_events : list pinnacle_event) (betbck_games : list betbck_game)
    (records : list match_record) (matched_ids' : list string) :
  match_pinnacle_to_betbck token_set_ratio iso_time_diff matched_ids
    pinnacle_events betbck_games = Ok (records, matched_ids') ->
  (List.length records <= List.length betbck_games)%nat
  /\ (List.length records <= List.length pinnacle_events)%nat.
Proof.
  intros H. destruct (returned_state _ _ _ _ _ H) as [st [Hloop [<- _]]].
  destruct (loop_traced _ _ _ _ Hloop) as [Hrec _].
  destruct (loop_consistent _ _ _ _ Hloop) as [Hids [Hkeys _]].
  split.
  - rewrite <- (length_map (fun m => game_key (matched_betbck_game m)) (matched_events st)).
    rewrite <- (length_map game_key betbck_games).
    apply NoDup_incl_length; [exact Hkeys|].
    intros k Hk. apply in_map_iff in Hk. destruct Hk as [m [<- Hm]].
    apply in_map. apply (Hrec m Hm).
  - rewrite <- (length_map (fun m => Some (pinnacle_event_id m)) (matched_events st)).
    rewrite <- (length_map event_id pinnacle_events).
    apply NoDup_incl_length.
    + rewrite <- (map_map pinnacle_event_id Some). apply NoDup_map_Some. exact Hids.
    + intros k Hk. apply in_map_iff in Hk. destruct Hk as [m [<- Hm]].
      destruct (Hrec m Hm) as [_ [_ [_ [e [He [[_ [Hid _]] _]]]]]].
      rewrite <- Hid. apply in_map. exact He.
Qed.

End Trace.

Lemma records_pair_inputs_witness :
  Forall (fun m =>
    In (matched_betbck_game m) sample_games
    /\ exists e,
         In e sample_events
         /\ pairs m (matched_betbck_game m) e
         /\ is_minor e = false
         /\ is_prop_market_by_name (pe_home_team e) (pe_away_team e) = false
         /\ is_league_compatible (matched_betbck_game m) e = true
         /\ determine_sport_from_teams (lower (pe_home_team e)) (lower (pe_away_team e))
            = sport m)
    sample_records.
Proof.
  apply Forall_forall. intros m Hm.
  apply (records_pair_inputs exact_ratio (fun _ _ => None) [] sample_events sample_games
           sample_records ["g2"; "g1"] m); [vm_compute; reflexivity | exact Hm].
Defined.

Lemma records_reach_threshold_witness :
  Forall (fun m => PrimFloat.leb FUZZY_MATCH_THRESHOLD (match_score m) = true) sample_records.
Proof.
  apply Forall_forall. intros m Hm.
  apply (records_reach_threshold exact_ratio (fun _ _ => None) [] sample_events sample_games
           sample_records ["g2"; "g1"] m); [vm_compute; reflexivity | exact Hm].
Defined.

(** The sample slate after its second game was matched: one record, for
    the first game. *)
Lemma matched_keys_persist_witness :
  match_pinnacle_to_betbck exact_ratio (fun _ _ => None) ["g2"] sample_events sample_games
  = Ok (later_records, ["g1"; "g2"])
  /\ List.length later_records = 1%nat
  /\ ["g1"; "g2"]
     = rev (map (fun m => game_key (matched_betbck_game m)) later_records) ++ ["g2"]
  /\ forall m, In m later_records -> ~ In (game_key (matched_betbck_game m)) ["g2"].
Proof.
  split; [vm_compute; reflexivity|]. split; [reflexivity|].
  apply (matched_keys_persist exact_ratio (fun _ _ => None) ["g2"] sample_events sample_games
           later_records ["g1"; "g2"]).
  vm_compute. reflexivity.
Defined.

Lemma records_bounded_witness :
  (List.length sample_records <= List.length sample_games)%nat
  /\ (List.length sample_records <= List.length sample_events)%nat.
Proof.
  apply (records_bounded exact_ratio (fun _ _ => None) [] sample_events sample_games
           sample_records ["g2"; "g1"]).
  vm_compute. reflexivity.
Defined.

End MatchTrace.

(* ===================================================================== *)
(** * Further properties: display of the reference odds *)
(* ===================================================================== *)

(** ** Look-up after an update *)

Lemma dict_get_set_same (d : list (string * pyval)) (k : string) (v : pyval) :
  dict_get (dict_set d k v) k = Some v.
Proof.
  unfold dict_get. induction d as [|[k' v'] r IH]; cbn [dict_set find fst].
  - rewrite String.eqb_refl. reflexivity.
  - destruct (String.eqb k' k) eqn:E; cbn [find fst]; rewrite E; [reflexivity | exact IH].
Qed.

Lemma dict_get_set_other (d : list (string * pyval)) (k k' : string) (v : pyval) :
  k <> k' -> dict_get (dict_set d k v) k' = dict_get d k'.
Proof.
  intros Hne. unfold dict_get. induction d as [|[k0 v0] r IH]; cbn [dict_set find fst].
  - apply String.eqb_neq in Hne. rewrite Hne. reflexivity.
  - destruct (String.eqb k0 k) eqn:E; cbn [find fst].
    + apply String.eqb_eq in E. subst k0. apply String.eqb_neq in Hne. rewrite Hne. reflexivity.
    + destruct (String.eqb k0 k'); [reflexivity | exact IH].
Qed.

Lemma dict_get_del_same (d : list (string * pyval)) (k : string) :
  dict_get (dict_del d k) k = None.
Proof.
  unfold dict_get, dict_del. induction d as [|[k0 v0] r IH]; [reflexivity|].
  cbn [filter fst]. destruct (String.eqb k0 k) eqn:E; cbn [negb]; [exact IH|].
  cbn [find fst]. rewrite E. exact IH.
Qed.

Lemma dict_get_del_other (d : list (string * pyval)) (k k' : string) :
  k <> k' -> dict_get (dict_del d k) k' = dict_get d k'.
Proof.
  intros Hne. unfold dict_get, dict_del. induction d as [|[k0 v0] r IH]; [reflexivity|].
  cbn [filter fst]. destruct (String.eqb k0 k) eqn:E; cbn [negb find fst].
  - apply String.eqb_eq in E. subst k0. apply String.eqb_neq in Hne. rewrite Hne. exact IH.
  - destruct (String.eqb k0 k'); [reflexivity | exact IH].
Qed.

(** Setting the value a key already has changes nothing. *)
Lemma dict_set_same_value (d : list (string * pyval)) (k : string) (v : pyval) :
  dict_get d k = Some v -> dict_set d k v = d.
Proof.
  unfold dict_get. induction d as [|[k0 v0] r IH]; cbn [find fst dict_set]; [discriminate|].
  destruct (String.eqb k0 k) eqn:E.
  - intros H. injection H as ->. reflexivity.
  - intros H. rewrite (IH H). reflexivity.
Qed.

Lemma dict_del_absent (d : list (string * pyval)) (k : string) :
  dict_get d k = None -> dict_del d k = d.
Proof.
  unfold dict_get, dict_del. induction d as [|[k0 v0] r IH]; [reflexivity|].
  cbn [find filter fst]. destruct (String.eqb k0 k) eqn:E; [discriminate|].
  cbn [negb]. intros H. rewrite (IH H). reflexivity.
Qed.

(** ** Loops that keep the keys *)

Lemma for_each_Forall2 {A B} (R : A -> B -> Prop) (body : A -> res B) (l : list A) :
  (forall x y, In x l -> body x = Ok y -> R x y) ->
  forall l', for_each l body = Ok l' -> Forall2 R l l'.
Proof.
  induction l as [|x r IH]; intros Hb l' H; cbn [for_each] in H.
  - injection H as <-. constructor.
  - destruct (body x) as [y|] eqn:Ey; [cbn [bind] in H | discriminate H].
    destruct (for_each r body) as [ys|] eqn:Eys; [cbn [bind] in H | discriminate H].
    injection H as <-. constructor.
    + apply Hb; [left; reflexivity | exact Ey].
    + apply IH; [|reflexivity]. intros x' y' Hx'. apply Hb. right. exact Hx'.
Qed.

Lemma same_keys_get (R : pyval -> pyval -> Prop) (d d' : list (string * pyval)) (k : string) :
  same_keys R d d' ->
  match dict_get d k with
  | Some v => exists v', dict_get d' k = Some v' /\ R v v'
  | None => dict_get d' k = None
  end.
Proof.
  unfold dict_get. induction 1 as [|[k0 v0] [k1 v1] r r' [Hk Hv] Hr IH]; [reflexivity|].
  cbn [fst snd] in Hk, Hv. subst k1. cbn [find fst].
  destruct (String.eqb k0 k); [exists v1; split; [reflexivity | exact Hv] | exact IH].
Qed.

(** ** What the processing keeps *)

Lemma kept_dict_refl (d : list (string * pyval)) : kept_dict d d.
Proof. intros k _. reflexivity. Qed.

Lemma kept_dict_trans (d1 d2 d3 : list (string * pyval)) :
  kept_dict d1 d2 -> kept_dict d2 d3 -> kept_dict d1 d3.
Proof. intros H1 H2 k Hk. rewrite (H2 k Hk). exact (H1 k Hk). Qed.

Lemma kept_dict_set (d : list (string * pyval)) (k : string) (v : pyval) :
  written k = true -> kept_dict d (dict_set d k v).
Proof.
  intros Hw k' Hk'. apply dict_get_set_other. intros ->. congruence.
Qed.

Lemma kept_refl (v : pyval) : kept v v.
Proof. intros k _. reflexivity. Qed.

Lemma kept_of_dicts (d d' : list (string * pyval)) :
  kept_dict d d' -> kept (PDict d) (PDict d').
Proof. intros H k Hk. cbn [field]. rewrite (H k Hk). reflexivity. Qed.

Lemma set_american_kept (d d' : list (string * pyval)) (target source : string) :
  written target = true -> set_american d target source = Ok d' -> kept_dict d d'.
Proof.
  intros Hw H. unfold set_american in H.
  destruct (decimal_to_american _) as [a|]; [cbn [bind] in H | discriminate H].
  injection H as <-. apply kept_dict_set. exact Hw.
Qed.

(** Chains the steps of a block that only writes. *)
Ltac kept_steps H :=
  repeat match type of H with
         | bind (set_american ?d ?t ?s) _ = Ok _ =>
             let d' := fresh "d" in
             let E := fresh "E" in
             destruct (set_american d t s) as [d'|] eqn:E; [cbn [bind] in H | discriminate H];
             apply set_american_kept in E; [|reflexivity]
         end.

(** Closes a goal [kept_dict a b] from the steps in the context. *)
Ltac kept_chain :=
  match goal with
  | H : kept_dict ?a ?b |- kept_dict ?a ?b => exact H
  | H : kept_dict ?a ?x |- kept_dict ?a ?b => apply (kept_dict_trans a x b H); kept_chain
  end.

Section DisplayFacts.

Variable math_pow : float -> float -> res float.
Variable math_log : float -> res float.
Variable round3 : float -> float.

Lemma display_moneyline_kept (ml ml' : list (string * pyval)) :
  display_moneyline math_pow math_log round3 ml = Ok ml' -> kept_dict ml ml'.
Proof.
  unfold display_moneyline. intros H.
  destruct (calculate_nvp_for_market _ _ _ _) as [nvps|]; [cbn [bind] in H | discriminate H].
  cbv zeta in H.
  match type of H with
  | context [set_american ?d "american_home" "home"] =>
      assert (H0 : kept_dict ml d)
        by (destruct (Nat.eqb (List.length nvps) 3);
            [repeat (eapply kept_dict_trans; [|apply kept_dict_set; reflexivity]) |];
            apply kept_dict_refl);
      generalize dependent d; intros d0 H H0
  end.
  kept_steps H. apply set_american_kept in H; [|reflexivity].
  kept_chain.
Qed.

Lemma display_two_way_kept (a b : string) (details details' : list (string * pyval)) :
  display_two_way math_pow math_log round3 a b details = Ok details' ->
  kept_dict details details'.
Proof.
  unfold display_two_way. intros H.
  destruct (calculate_nvp_for_market _ _ _ _) as [nvps|]; [cbn [bind] in H | discriminate H].
  cbv zeta in H.
  match type of H with
  | context [set_american ?d ("american_" ++ a)%string a] =>
      assert (H0 : kept_dict details d)
        by (destruct (Nat.eqb (List.length nvps) 2);
            [repeat (eapply kept_dict_trans; [|apply kept_dict_set; reflexivity]) |];
            apply kept_dict_refl);
      generalize dependent d; intros d0 H H0
  end.
  kept_steps H. apply set_american_kept in H; [|reflexivity].
  kept_chain.
Qed.

(** A spreads or totals block changes the entry under its key only, and
    there keeps the entries that are not written. *)
Lemma display_lines_kept (key a b : string) (pd pd' : list (string * pyval)) :
  display_lines math_pow math_log round3 key a b pd = Ok pd' ->
  (forall k, key <> k -> dict_get pd' k = dict_get pd k)
  /\ (forall line_key, kept (field (field (PDict pd) key) line_key)
                        (field (field (PDict pd') key) line_key)).
Proof.
  unfold display_lines. intros H.
  destruct (dict_get pd key) as [v|] eqn:Ek.
  2:{ injection H as <-. split; [reflexivity | intros lk; apply kept_refl]. }
  destruct v as [| | | | | |lines];
    try (injection H as <-; split; [reflexivity | intros lk; apply kept_refl]).
  destruct lines as [|entry entries];
    [injection H as <-; split; [reflexivity | intros lk; apply kept_refl]|].
  destruct (for_each (entry :: entries) _) as [lines'|] eqn:El; [cbn [bind] in H | discriminate H].
  injection H as <-. split.
  - intros k Hk. apply dict_get_set_other. exact Hk.
  - intros lk. cbn [field]. rewrite dict_get_set_same, Ek.
    assert (Hs : same_keys kept (entry :: entries) lines').
    { revert El. apply for_each_Forall2. intros [k0 v0] y _ Hy. cbn [snd fst] in Hy.
      destruct v0 as [| | | | | |details]; try (injection Hy as <-; split; [reflexivity | apply kept_refl]).
      destruct (display_two_way _ _ _ a b details) as [details'|] eqn:Ed;
        [cbn [bind] in Hy | discriminate Hy].
      injection Hy as <-. split; [reflexivity|].
      apply kept_of_dicts. exact (display_two_way_kept _ _ _ _ Ed). }
    pose proof (same_keys_get kept _ _ lk Hs) as Hg. cbn [field].
    destruct (dict_get (entry :: entries) lk) as [v0|].
    + destruct Hg as [v' [-> Hv]]. exact Hv.
    + rewrite Hg. apply kept_refl.
Qed.

Lemma display_period_kept (period_data period_data' : pyval) :
  display_period math_pow math_log round3 period_data = Ok period_data' ->
  period_kept period_data period_data'
  \/ (is_dict period_data = false /\ period_data' = period_data).
Proof.
  unfold display_period. intros H.
  destruct period_data as [| | | | | |pd]; try (right; injection H as <-; split; reflexivity).
  left. cbv zeta in H.
  match type of H with
  | bind ?m _ = _ => destruct m as [pd1|] eqn:E1; [cbn [bind] in H | discriminate H]
  end.
  destruct (display_lines _ _ _ "spreads" "home" "away" pd1) as [pd2|] eqn:E2;
    [cbn [bind] in H | discriminate H].
  destruct (display_lines _ _ _ "totals" "over" "under" pd2) as [pd3|] eqn:E3;
    [cbn [bind] in H | discriminate H].
  injection H as <-.
  destruct (display_lines_kept _ _ _ _ _ E2) as [O2 L2].
  destruct (display_lines_kept _ _ _ _ _ E3) as [O3 L3].
  assert (M1 : (forall k, "money_line" <> k ->
                 dict_get pd1 k = dict_get (dict_del pd "history") k)
               /\ kept (field (PDict (dict_del pd "history")) "money_line")
                    (field (PDict pd1) "money_line")).
  { destruct (dict_get (dict_del pd "history") "money_line") as [v|] eqn:Em.
    2:{ injection E1 as <-. split; [reflexivity | apply kept_refl]. }
    destruct v as [| | | | | |ml];
      try (injection E1 as <-; split; [reflexivity | apply kept_refl]).
    destruct ml as [|entry entries];
      [injection E1 as <-; split; [reflexivity | apply kept_refl]|].
    destruct (display_moneyline _ _ _ (entry :: entries)) as [ml'|] eqn:Eml;
      [cbn [bind] in E1 | discriminate E1].
    injection E1 as <-. split.
    - intros k Hk. apply dict_get_set_other. exact Hk.
    - cbn [field]. rewrite dict_get_set_same, Em.
      apply kept_of_dicts. exact (display_moneyline_kept _ _ Eml). }
  destruct M1 as [O1 L1].
  assert (D : forall k, "history" <> k -> field (PDict (dict_del pd "history")) k = field (PDict pd) k).
  { intros k Hk. cbn [field]. rewrite (dict_get_del_other _ _ _ Hk). reflexivity. }
  unfold period_kept. repeat split.
  - intros k Hk. cbn [field]. rewrite (O3 "money_line"), (O2 "money_line") by discriminate.
    specialize (L1 k Hk). cbn [field] in L1. rewrite L1.
    rewrite (dict_get_del_other pd "history" "money_line") by discriminate. reflexivity.
  - intros hk k Hk. cbn [field]. rewrite (O3 "spreads") by discriminate.
    specialize (L2 hk k Hk). cbn [field] in L2. rewrite L2.
    rewrite (O1 "spreads") by discriminate.
    rewrite (dict_get_del_other pd "history" "spreads") by discriminate. reflexivity.
  - intros pk k Hk. specialize (L3 pk k Hk). cbn [field] in L3 |- *. rewrite L3.
    rewrite (O2 "totals"), (O1 "totals") by discriminate.
    rewrite (dict_get_del_other pd "history" "totals") by discriminate. reflexivity.
  - cbn [field]. rewrite (O3 "history"), (O2 "history"), (O1 "history") by discriminate.
    rewrite dict_get_del_same. reflexivity.
Qed.

End DisplayFacts.

Lemma period_kept_refl (v : pyval) : is_dict v = false -> period_kept v v.
Proof.
  intros H. destruct v; try discriminate H;
    (unfold period_kept; repeat split; intros; try reflexivity; apply kept_refl).
Qed.

Lemma reference_periods_set (event detail : list (string * pyval)) (periods' : pyval) :
  reference_periods (PDict (dict_set event "data" (PDict (dict_set detail "periods" periods'))))
  = periods'.
Proof.
  unfold reference_periods. cbn [field]. rewrite dict_get_set_same. cbn [field].
  rewrite dict_get_set_same. reflexivity.
Qed.

Section DisplayTop.

Variable math_pow : float -> float -> res float.
Variable math_log : float -> res float.
Variable round3 : float -> float.

(** Whenever the processing returns, it has processed each period of the
    event on its own, or there was no dict of periods and the event is
    returned as it was. *)
Lemma process_periods (pinnacle_data pinnacle_data' : pyval) :
  process_event_odds_for_display math_pow math_log round3 pinnacle_data = Ok pinnacle_data' ->
  periods_processed (display_period math_pow math_log round3) pinnacle_data pinnacle_data'.
Proof.
  unfold process_event_odds_for_display, periods_processed. intros H.
  destruct (truthy pinnacle_data) eqn:T; cbn [negb] in H.
  2:{ injection H as <-. left. split; [reflexivity|].
      destruct pinnacle_data as [| | | | | |d]; try reflexivity.
      destruct d; [reflexivity | discriminate T]. }
  destruct (py_contains_data pinnacle_data) as [has|] eqn:Ec; [cbn [bind] in H | discriminate H].
  destruct pinnacle_data as [| | | | |l|event]; try discriminate Ec.
  - destruct has; cbn [negb] in H; [discriminate H|]. injection H as <-. left. split; reflexivity.
  - destruct has; cbn [negb] in H; [discriminate H|]. injection H as <-. left. split; reflexivity.
  - cbn [py_contains_data] in Ec. injection Ec as <-.
    destruct (dict_get event "data") as [v|] eqn:Ed; cbn [negb] in H.
    2:{ injection H as <-. left. split; [reflexivity|].
        unfold reference_periods. cbn [field]. rewrite Ed. reflexivity. }
    cbn [py_getitem] in H. rewrite Ed in H. cbn [bind] in H.
    destruct v as [| | | | | |detail];
      try (injection H as <-; left; split; [reflexivity|];
           unfold reference_periods; cbn [field]; rewrite Ed; reflexivity).
    destruct (dict_get detail "periods") as [p|] eqn:Ep.
    2:{ injection H as <-. left. split; [reflexivity|].
        unfold reference_periods. cbn [field]. rewrite Ed. cbn [field]. rewrite Ep. reflexivity. }
    destruct p as [| | | | | |periods];
      try (injection H as <-; left; split; [reflexivity|];
           unfold reference_periods; cbn [field]; rewrite Ed; cbn [field]; rewrite Ep;
           reflexivity).
    destruct (for_each periods _) as [periods'|] eqn:Ef; [cbn [bind] in H | discriminate H].
    injection H as <-. right. exists event, detail, periods, periods'.
    repeat split; try assumption.
    revert Ef. apply for_each_Forall2. intros [k v] y _ Hy. cbn [fst snd] in Hy |- *.
    destruct (display_period _ _ _ v) as [v'|]; [cbn [bind] in Hy | discriminate Hy].
    injection Hy as <-. split; reflexivity.
Qed.

(** The periods before and after, key by key. *)
Lemma processed_period (pinnacle_data pinnacle_data' : pyval) (period_key : string) :
  process_event_odds_for_display math_pow math_log round3 pinnacle_data = Ok pinnacle_data' ->
  display_period math_pow math_log round3 (field (reference_periods pinnacle_data) period_key)
  = Ok (field (reference_periods pinnacle_data') period_key)
  \/ (field (reference_periods pinnacle_data) period_key = PNone
      /\ field (reference_periods pinnacle_data') period_key = PNone).
Proof.
  intros H. destruct (process_periods _ _ H)
    as [[-> Hn] | [event [detail [periods [periods' [-> [Ed [Ep [-> Hs]]]]]]]]].
  - right. destruct (reference_periods pinnacle_data); try discriminate Hn; split; reflexivity.
  - rewrite reference_periods_set. unfold reference_periods. cbn [field]. rewrite Ed.
    cbn [field]. rewrite Ep. cbn [field].
    pose proof (same_keys_get _ _ _ period_key Hs) as Hg.
    destruct (dict_get periods period_key) as [v|].
    + destruct Hg as [v' [-> Hv]]. left. exact Hv.
    + rewrite Hg. right. split; reflexivity.
Qed.

Lemma processed_period_kept (pinnacle_data pinnacle_data' : pyval) (period_key : string) :
  process_event_odds_for_display math_pow math_log round3 pinnacle_data = Ok pinnacle_data' ->
  period_kept (field (reference_periods pinnacle_data) period_key)
    (field (reference_periods pinnacle_data') period_key).
Proof.
  intros H. destruct (processed_period _ _ period_key H) as [Hp | [-> ->]].
  - destruct (display_period_kept _ _ _ _ _ Hp) as [Hk | [Hd ->]];
      [exact Hk | exact (period_kept_refl _ Hd)].
  - apply period_kept_refl. reflexivity.
Qed.

(** The processing never changes a price: in every period, the entries of
    the moneyline, of each spread and of each total under keys that do not
    start with [nvp_] or [american_] are after the processing what they
    were before. *)
Theorem display_keeps_unwritten_entries (pinnacle_data pinnacle_data' : pyval)
    (period_key line_key k : string) :
  process_event_odds_for_display math_pow math_log round3 pinnacle_data = Ok pinnacle_data' ->
  written k = false ->
  let period := field (reference_periods pinnacle_data) period_key in
  let period' := field (reference_periods pinnacle_data') period_key in
  field (field period' "money_line") k = field (field period "money_line") k
  /\ field (field (field period' "spreads") line_key) k
     = field (field (field period "spreads") line_key) k
  /\ field (field (field period' "totals") line_key) k
     = field (field (field period "totals") line_key) k.
Proof.
  intros H Hk. cbv zeta.
  destruct (processed_period_kept _ _ period_key H) as [Hm [Hs [Ht _]]].
  split; [exact (Hm k Hk)|]. split; [exact (Hs line_key k Hk) | exact (Ht line_key k Hk)].
Qed.

(** After the processing no period has a [history] entry. *)
Theorem display_removes_history (pinnacle_data pinnacle_data' : pyval) (period_key : string) :
  process_event_odds_for_display math_pow math_log round3 pinnacle_data = Ok pinnacle_data' ->
  field (field (reference_periods pinnacle_data') period_key) "history" = PNone.
Proof.
  intros H. destruct (processed_period_kept _ _ period_key H) as [_ [_ [_ Hh]]]. exact Hh.
Qed.

(** An event without a dict of periods (no [data], a [data] that is not a
    dict, no [periods] or a [periods] that is not a dict) is returned as
    it is. *)
Theorem display_without_periods (event : list (string * pyval)) :
  is_dict (reference_periods (PDict event)) = false ->
  process_event_odds_for_display math_pow math_log round3 (PDict event) = Ok (PDict event).
Proof.
  unfold process_event_odds_for_display, reference_periods. cbn [field]. intros H.
  destruct (truthy (PDict event)); cbn [negb]; [|reflexivity].
  cbn [py_contains_data bind].
  destruct (dict_get event "data") as [v|] eqn:Ed; cbn [negb]; [|reflexivity].
  cbn [py_getitem]. rewrite Ed. cbn [bind].
  destruct v as [| | | | | |detail]; try reflexivity.
  cbn [field] in H. destruct (dict_get detail "periods") as [p|]; [|reflexivity].
  destruct p; try reflexivity. discriminate H.
Qed.

End DisplayTop.

(** ** What the processing stores *)

Lemma dict_get_none_set_same (d : list (string * pyval)) (k : string) (v : pyval) :
  dict_get_none (dict_set d k v) k = v.
Proof. unfold dict_get_none. rewrite dict_get_set_same. reflexivity. Qed.

Lemma dict_get_none_set_other (d : list (string * pyval)) (k k' : string) (v : pyval) :
  k <> k' -> dict_get_none (dict_set d k v) k' = dict_get_none d k'.
Proof. intros H. unfold dict_get_none. rewrite (dict_get_set_other _ _ _ _ H). reflexivity. Qed.

Lemma set_american_spec (d d' : list (string * pyval)) (target source : string) :
  set_american d target source = Ok d' ->
  exists a,
    decimal_to_american (dict_get_none d source) = Ok a
    /\ d' = dict_set d target (py_of_text a).
Proof.
  unfold set_american. intros H.
  destruct (decimal_to_american _) as [a|]; [cbn [bind] in H | discriminate H].
  injection H as <-. exists a. split; reflexivity.
Qed.

(** Simplifies look-ups in a dict built by successive updates. *)
Ltac lookups :=
  repeat first
    [ rewrite dict_get_none_set_same
    | rewrite dict_get_none_set_other by discriminate
    | rewrite dict_get_set_same
    | rewrite dict_get_set_other by discriminate ].

Ltac lookups_in H :=
  repeat first
    [ rewrite dict_get_none_set_same in H
    | rewrite dict_get_none_set_other in H by discriminate
    | rewrite dict_get_set_same in H
    | rewrite dict_get_set_other in H by discriminate ].

Lemma aligned_length (odds_list nvps : list pyval) :
  Forall2 (fun odd nvp => valid_odd odd = false -> nvp = PNone) odds_list nvps ->
  List.length nvps = List.length odds_list.
Proof. intros H. symmetry. exact (Forall2_length H). Qed.

Section DisplayValues.

Variable math_pow : float -> float -> res float.
Variable math_log : float -> res float.
Variable round3 : float -> float.

(** The moneyline after its block: the three no-vig prices of
    [calculate_nvp_for_market], the American texts of the three prices and
    of the three no-vig prices. *)
Lemma display_moneyline_spec (ml ml' : list (string * pyval)) :
  display_moneyline math_pow math_log round3 ml = Ok ml' ->
  exists nvps a0 a1 a2 b0 b1 b2,
    calculate_nvp_for_market math_pow math_log round3
      [dict_get_none ml "home"; dict_get_none ml "draw"; dict_get_none ml "away"] = Ok nvps
    /\ List.length nvps = 3%nat
    /\ decimal_to_american (dict_get_none ml "home") = Ok a0
    /\ decimal_to_american (dict_get_none ml "draw") = Ok a1
    /\ decimal_to_american (dict_get_none ml "away") = Ok a2
    /\ decimal_to_american (item nvps 0) = Ok b0
    /\ decimal_to_american (item nvps 1) = Ok b1
    /\ decimal_to_american (item nvps 2) = Ok b2
    /\ ml' = dict_set (dict_set (dict_set (dict_set (dict_set (dict_set
               (dict_set (dict_set (dict_set ml "nvp_home" (item nvps 0))
                            "nvp_draw" (item nvps 1)) "nvp_away" (item nvps 2))
               "american_home" (py_of_text a0)) "american_draw" (py_of_text a1))
               "american_away" (py_of_text a2)) "nvp_american_home" (py_of_text b0))
               "nvp_american_draw" (py_of_text b1)) "nvp_american_away" (py_of_text b2).
Proof.
  unfold display_moneyline. intros H.
  destruct (calculate_nvp_for_market _ _ _ _) as [nvps|] eqn:En; [cbn [bind] in H | discriminate H].
  pose proof (aligned_length _ _ (nvp_aligned _ _ _ _ _ En)) as Hl. cbn [List.length] in Hl.
  cbv zeta in H. rewrite Hl in H. cbn [Nat.eqb] in H.
  repeat match type of H with
         | bind (set_american ?d ?t ?s) _ = Ok _ =>
             let d' := fresh "d" in
             let E := fresh "E" in
             destruct (set_american d t s) as [d'|] eqn:E; [cbn [bind] in H | discriminate H];
             apply set_american_spec in E; destruct E as [? [E ->]]
         end.
  apply set_american_spec in H. destruct H as [b2 [H ->]].
  lookups_in E. lookups_in E0. lookups_in E1. lookups_in E2. lookups_in E3. lookups_in H.
  eexists nvps, _, _, _, _, _, b2. repeat split; eassumption.
Qed.

End DisplayValues.

Lemma field_get_none (d : list (string * pyval)) (k : string) :
  field (PDict d) k = dict_get_none d k.
Proof. reflexivity. Qed.

Section DisplayLeaves.

Variable math_pow : float -> float -> res float.
Variable math_log : float -> res float.
Variable round3 : float -> float.

Lemma display_two_way_spec (a b : string) (details details' : list (string * pyval)) :
  In (a, b) (map snd two_way_markets) ->
  display_two_way math_pow math_log round3 a b details = Ok details' ->
  exists nvps a0 a1 b0 b1,
    calculate_nvp_for_market math_pow math_log round3
      [dict_get_none details a; dict_get_none details b] = Ok nvps
    /\ List.length nvps = 2%nat
    /\ decimal_to_american (dict_get_none details a) = Ok a0
    /\ decimal_to_american (dict_get_none details b) = Ok a1
    /\ decimal_to_american (item nvps 0) = Ok b0
    /\ decimal_to_american (item nvps 1) = Ok b1
    /\ details' = dict_set (dict_set (dict_set (dict_set
                    (dict_set (dict_set details ("nvp_" ++ a) (item nvps 0))
                       ("nvp_" ++ b) (item nvps 1))
                    ("american_" ++ a) (py_of_text a0)) ("american_" ++ b) (py_of_text a1))
                    ("nvp_american_" ++ a) (py_of_text b0))
                    ("nvp_american_" ++ b) (py_of_text b1).
Proof.
  intros Hab. unfold display_two_way. intros H.
  destruct (calculate_nvp_for_market _ _ _ _) as [nvps|] eqn:En; [cbn [bind] in H | discriminate H].
  pose proof (aligned_length _ _ (nvp_aligned _ _ _ _ _ En)) as Hl. cbn [List.length] in Hl.
  cbv zeta in H. rewrite Hl in H. cbn [Nat.eqb] in H.
  repeat match type of H with
         | bind (set_american ?d ?t ?s) _ = Ok _ =>
             let d' := fresh "d" in
             let E := fresh "E" in
             destruct (set_american d t s) as [d'|] eqn:E; [cbn [bind] in H | discriminate H];
             apply set_american_spec in E; destruct E as [? [E ->]]
         end.
  apply set_american_spec in H. destruct H as [b1 [H ->]].
  cbn in Hab. destruct Hab as [Hab | [Hab | []]]; injection Hab as <- <-;
    cbn [append] in *;
    lookups_in E; lookups_in E0; lookups_in E1; lookups_in H;
    (eexists nvps, _, _, _, b1; repeat split; eassumption).
Qed.

(** A processed moneyline is a fixed point of its block. *)
Lemma display_moneyline_fixed (ml ml' : list (string * pyval)) :
  display_moneyline math_pow math_log round3 ml = Ok ml' ->
  display_moneyline math_pow math_log round3 ml' = Ok ml'.
Proof.
  intros H. destruct (display_moneyline_spec _ _ _ _ _ H)
    as [nvps [a0 [a1 [a2 [b0 [b1 [b2 [En [Hl [A0 [A1 [A2 [B0 [B1 [B2 ->]]]]]]]]]]]]]]].
  unfold display_moneyline, set_american. lookups. rewrite En. cbn [bind]. rewrite Hl.
  cbn [Nat.eqb]. cbv zeta.
  repeat (rewrite (dict_set_same_value _ _ _) by (lookups; reflexivity)).
  lookups. rewrite A0. cbn [bind].
  repeat (rewrite (dict_set_same_value _ _ _) by (lookups; reflexivity)).
  lookups. rewrite A1. cbn [bind].
  repeat (rewrite (dict_set_same_value _ _ _) by (lookups; reflexivity)).
  lookups. rewrite A2. cbn [bind].
  repeat (rewrite (dict_set_same_value _ _ _) by (lookups; reflexivity)).
  lookups. rewrite B0. cbn [bind].
  repeat (rewrite (dict_set_same_value _ _ _) by (lookups; reflexivity)).
  lookups. rewrite B1. cbn [bind].
  repeat (rewrite (dict_set_same_value _ _ _) by (lookups; reflexivity)).
  lookups. rewrite B2. cbn [bind].
  repeat (rewrite (dict_set_same_value _ _ _) by (lookups; reflexivity)).
  reflexivity.
Qed.

End DisplayLeaves.

Lemma dict_set_not_empty (d : list (string * pyval)) (k : string) (v : pyval) :
  exists entry entries, dict_set d k v = entry :: entries.
Proof.
  destruct d as [|[k0 v0] r]; cbn [dict_set]; [eexists _, _; reflexivity|].
  destruct (String.eqb k0 k); eexists _, _; reflexivity.
Qed.

Lemma for_each_fixed {A} (body : A -> res A) (l : list A) :
  Forall (fun x => body x = Ok x) l -> for_each l body = Ok l.
Proof.
  induction 1 as [|x l Hx Hl IH]; [reflexivity|].
  cbn [for_each]. rewrite Hx. cbn [bind]. rewrite IH. reflexivity.
Qed.

Lemma Forall2_right {A B} (R : A -> B -> Prop) (P : B -> Prop) (l : list A) (l' : list B) :
  (forall x y, R x y -> P y) -> Forall2 R l l' -> Forall P l'.
Proof. intros H. induction 1; constructor; eauto. Qed.

Section DisplayFixed.

Variable math_pow : float -> float -> res float.
Variable math_log : float -> res float.
Variable round3 : float -> float.

(** A processed spread or total is a fixed point of its block. *)
Lemma display_two_way_fixed (a b : string) (details details' : list (string * pyval)) :
  In (a, b) (map snd two_way_markets) ->
  display_two_way math_pow math_log round3 a b details = Ok details' ->
  display_two_way math_pow math_log round3 a b details' = Ok details'.
Proof.
  intros Hab H. destruct (display_two_way_spec _ _ _ _ _ _ _ Hab H)
    as [nvps [a0 [a1 [b0 [b1 [En [Hl [A0 [A1 [B0 [B1 ->]]]]]]]]]]].
  clear H. cbn in Hab. destruct Hab as [Hab | [Hab | []]]; injection Hab as <- <-;
    cbn [append] in *;
    unfold display_two_way, set_american; cbn [append]; lookups; rewrite En; cbn [bind];
    rewrite Hl; cbn [Nat.eqb]; cbv zeta;
    repeat (rewrite (dict_set_same_value _ _ _) by (lookups; reflexivity));
    lookups; rewrite A0; cbn [bind];
    repeat (rewrite (dict_set_same_value _ _ _) by (lookups; reflexivity));
    lookups; rewrite A1; cbn [bind];
    repeat (rewrite (dict_set_same_value _ _ _) by (lookups; reflexivity));
    lookups; rewrite B0; cbn [bind];
    repeat (rewrite (dict_set_same_value _ _ _) by (lookups; reflexivity));
    lookups; rewrite B1; cbn [bind];
    repeat (rewrite (dict_set_same_value _ _ _) by (lookups; reflexivity));
    reflexivity.
Qed.

Lemma lines_fixed_display (key a b : string) (pd : list (string * pyval)) :
  lines_fixed math_pow math_log round3 key a b pd -> display_lines math_pow math_log round3 key a b pd = Ok pd.
Proof.
  unfold lines_fixed, display_lines. destruct (dict_get pd key) as [v|] eqn:Ek; [|reflexivity].
  destruct v as [| | | | | |lines]; try reflexivity.
  destruct lines as [|entry entries]; [reflexivity|].
  intros ->. cbn [bind]. rewrite (dict_set_same_value _ _ _ Ek). reflexivity.
Qed.

Lemma lines_fixed_same (key a b : string) (pd pd' : list (string * pyval)) :
  dict_get pd' key = dict_get pd key -> lines_fixed math_pow math_log round3 key a b pd -> lines_fixed math_pow math_log round3 key a b pd'.
Proof. unfold lines_fixed. intros ->. exact (fun H => H). Qed.

Lemma display_lines_result (key a b : string) (pd pd' : list (string * pyval)) :
  In (a, b) (map snd two_way_markets) ->
  display_lines math_pow math_log round3 key a b pd = Ok pd' ->
  lines_fixed math_pow math_log round3 key a b pd'.
Proof.
  intros Hab. unfold display_lines. intros H.
  destruct (dict_get pd key) as [v|] eqn:Ek.
  2:{ injection H as <-. unfold lines_fixed. rewrite Ek. exact I. }
  destruct v as [| | | | | |lines];
    try (injection H as <-; unfold lines_fixed; rewrite Ek; exact I).
  destruct lines as [|entry entries];
    [injection H as <-; unfold lines_fixed; rewrite Ek; exact I|].
  destruct (for_each (entry :: entries) _) as [lines'|] eqn:El; [cbn [bind] in H | discriminate H].
  injection H as <-. unfold lines_fixed. rewrite dict_get_set_same.
  assert (Hf : Forall (fun kv =>
                 match snd kv with
                 | PDict details =>
                     details <- display_two_way math_pow math_log round3 a b details ;;
                     Ok (fst kv, PDict details)
                 | _ => Ok kv
                 end = Ok kv) lines').
  { refine (Forall2_right (fun x y => _ x = Ok y) _ _ _ _
              (for_each_Forall2 (fun x y => _ x = Ok y) _ _ (fun x y _ Hy => Hy) _ El)).
    intros [k0 v0] [k1 v1] Hy. cbn [fst snd] in Hy |- *.
    destruct v0 as [| | | | | |details]; try (injection Hy as <- <-; reflexivity).
    destruct (display_two_way _ _ _ a b details) as [details'|] eqn:Ed;
      [cbn [bind] in Hy | discriminate Hy].
    injection Hy as <- <-. rewrite (display_two_way_fixed _ _ _ _ Hab Ed). reflexivity. }
  destruct lines' as [|entry' entries'].
  { cbn [for_each bind] in El.
    destruct (match snd entry with PDict _ => _ | _ => _ end); [|discriminate El].
    cbn [bind] in El. destruct (for_each entries _); discriminate El. }
  apply for_each_fixed. exact Hf.
Qed.

(** A processed period is a fixed point of the processing of a period. *)
Lemma display_period_fixed (period_data period_data' : pyval) :
  display_period math_pow math_log round3 period_data = Ok period_data' ->
  display_period math_pow math_log round3 period_data' = Ok period_data'.
Proof.
  unfold display_period at 1. intros H.
  destruct period_data as [| | | | | |pd]; try (injection H as <-; reflexivity).
  cbv zeta in H.
  match type of H with
  | bind ?m _ = _ => destruct m as [pd1|] eqn:E1; [cbn [bind] in H | discriminate H]
  end.
  destruct (display_lines _ _ _ "spreads" "home" "away" pd1) as [pd2|] eqn:E2;
    [cbn [bind] in H | discriminate H].
  destruct (display_lines _ _ _ "totals" "over" "under" pd2) as [pd3|] eqn:E3;
    [cbn [bind] in H | discriminate H].
  injection H as <-.
  destruct (display_lines_kept _ _ _ _ _ _ _ _ E2) as [O2 _].
  destruct (display_lines_kept _ _ _ _ _ _ _ _ E3) as [O3 _].
  pose proof (display_lines_result _ _ _ _ _ (or_introl eq_refl) E2) as F2.
  pose proof (display_lines_result _ _ _ _ _ (or_intror (or_introl eq_refl)) E3) as F3.
  assert (M1 : dict_get pd1 "history" = None
               /\ match dict_get pd1 "money_line" with
                  | Some (PDict (entry :: entries)) =>
                      display_moneyline math_pow math_log round3 (entry :: entries)
                      = Ok (entry :: entries)
                  | _ => True
                  end).
  { destruct (dict_get (dict_del pd "history") "money_line") as [v|] eqn:Em.
    2:{ injection E1 as <-. rewrite Em. split; [apply dict_get_del_same | exact I]. }
    destruct v as [| | | | | |ml];
      try (injection E1 as <-; rewrite Em; split; [apply dict_get_del_same | exact I]).
    destruct ml as [|entry entries];
      [injection E1 as <-; rewrite Em; split; [apply dict_get_del_same | exact I]|].
    destruct (display_moneyline _ _ _ (entry :: entries)) as [ml'|] eqn:Eml;
      [cbn [bind] in E1 | discriminate E1].
    injection E1 as <-. rewrite dict_get_set_same.
    split; [rewrite dict_get_set_other by discriminate; apply dict_get_del_same|].
    pose proof (display_moneyline_fixed _ _ _ _ _ Eml) as Hfix.
    destruct (display_moneyline_spec _ _ _ _ _ Eml) as [nvps [a0 [a1 [a2 [b0 [b1 [b2 [_ [_ [_ [_ [_ [_ [_ [_ Hml]]]]]]]]]]]]]]].
    destruct (dict_set_not_empty
                (dict_set (dict_set (dict_set (dict_set (dict_set (dict_set (dict_set (dict_set
                   (entry :: entries) "nvp_home" (item nvps 0)) "nvp_draw" (item nvps 1))
                   "nvp_away" (item nvps 2)) "american_home" (py_of_text a0))
                   "american_draw" (py_of_text a1)) "american_away" (py_of_text a2))
                   "nvp_american_home" (py_of_text b0)) "nvp_american_draw" (py_of_text b1))
                "nvp_american_away" (py_of_text b2)) as [e' [es' He']].
    rewrite He' in Hml. subst ml'. exact Hfix. }
  destruct M1 as [Hh Hm].
  assert (G3 : forall k, "spreads" <> k -> "totals" <> k -> dict_get pd3 k = dict_get pd1 k).
  { intros k Hs Ht. rewrite (O3 k Ht). exact (O2 k Hs). }
  cbn [display_period]. cbv zeta.
  rewrite (dict_del_absent pd3 "history")
    by (rewrite G3 by discriminate; exact Hh).
  assert (Hml : match dict_get pd3 "money_line" with
                | Some (PDict (entry :: entries)) =>
                    ml <- display_moneyline math_pow math_log round3 (entry :: entries) ;;
                    Ok (dict_set pd3 "money_line" (PDict ml))
                | _ => Ok pd3
                end = Ok pd3).
  { destruct (dict_get pd3 "money_line") as [v|] eqn:Em3; [|reflexivity].
    rewrite G3 in Em3 by discriminate. rewrite Em3 in Hm.
    destruct v as [| | | | | |ml]; try reflexivity.
    destruct ml as [|entry entries]; [reflexivity|].
    rewrite Hm. cbn [bind]. rewrite dict_set_same_value; [reflexivity|].
    rewrite G3 by discriminate. exact Em3. }
  rewrite Hml. cbn [bind].
  rewrite (lines_fixed_display "spreads" "home" "away" pd3)
    by (apply (lines_fixed_same _ _ _ pd2); [apply O3; discriminate | exact F2]).
  cbn [bind]. rewrite (lines_fixed_display "totals" "over" "under" pd3 F3). reflexivity.
Qed.

(** Processing an event that has been processed changes nothing, and does
    not fail. *)
Theorem display_is_idempotent (pinnacle_data pinnacle_data' : pyval) :
  process_event_odds_for_display math_pow math_log round3 pinnacle_data = Ok pinnacle_data' ->
  process_event_odds_for_display math_pow math_log round3 pinnacle_data' = Ok pinnacle_data'.
Proof.
  intros H. destruct (process_periods _ _ _ _ _ H)
    as [[-> _] | [event [detail [periods [periods' [-> [Ed [Ep [-> Hs]]]]]]]]]; [exact H|].
  unfold process_event_odds_for_display.
  destruct (dict_set_not_empty event "data"
              (PDict (dict_set detail "periods" (PDict periods')))) as [e0 [es0 He0]].
  assert (T : truthy (PDict (dict_set event "data"
                        (PDict (dict_set detail "periods" (PDict periods'))))) = true)
    by (rewrite He0; reflexivity).
  rewrite T. cbn [negb py_contains_data bind py_getitem].
  rewrite dict_get_set_same. cbn [negb bind]. rewrite dict_get_set_same.
  rewrite (for_each_fixed _ periods').
  - cbn [bind]. rewrite (dict_set_same_value (dict_set detail _ _) "periods")
      by apply dict_get_set_same.
    rewrite (dict_set_same_value (dict_set event _ _) "data") by apply dict_get_set_same.
    reflexivity.
  - refine (Forall2_right _ _ _ _ _ Hs).
    intros [k v] [k' v'] [Hk Hv]. cbn [fst snd] in Hk, Hv |- *. subst k'.
    rewrite (display_period_fixed _ _ Hv). reflexivity.
Qed.

End DisplayFixed.

Section DisplayStored.

Variable math_pow : float -> float -> res float.
Variable math_log : float -> res float.
Variable round3 : float -> float.

Lemma display_lines_entry (key a b : string) (pd pd' : list (string * pyval))
    (line_key : string) (details : list (string * pyval)) :
  display_lines math_pow math_log round3 key a b pd = Ok pd' ->
  field (field (PDict pd) key) line_key = PDict details ->
  exists details',
    display_two_way math_pow math_log round3 a b details = Ok details'
    /\ field (field (PDict pd') key) line_key = PDict details'.
Proof.
  unfold display_lines. intros H Hf. cbn [field] in Hf.
  destruct (dict_get pd key) as [v|] eqn:Ek; [|discriminate Hf].
  destruct v as [| | | | | |lines]; try discriminate Hf.
  destruct lines as [|entry entries]; [discriminate Hf|].
  destruct (for_each (entry :: entries) _) as [lines'|] eqn:El; [cbn [bind] in H | discriminate H].
  injection H as <-. cbn [field]. rewrite dict_get_set_same.
  assert (Hs : same_keys (fun v v' =>
                 match v with
                 | PDict d => exists d', display_two_way math_pow math_log round3 a b d = Ok d'
                                         /\ v' = PDict d'
                 | _ => v' = v
                 end) (entry :: entries) lines').
  { revert El. apply for_each_Forall2. intros [k0 v0] y _ Hy. cbn [snd fst] in Hy |- *.
    destruct v0 as [| | | | | |d]; try (injection Hy as <-; split; reflexivity).
    destruct (display_two_way _ _ _ a b d) as [d'|] eqn:Ed; [cbn [bind] in Hy | discriminate Hy].
    injection Hy as <-. split; [reflexivity|]. exists d'. split; reflexivity. }
  pose proof (same_keys_get _ _ _ line_key Hs) as Hg. cbn [field] in Hf |- *.
  destruct (dict_get (entry :: entries) line_key) as [v0|]; [|discriminate Hf].
  subst v0. destruct Hg as [v' [-> [d' [Hd ->]]]]. exists d'. split; [exact Hd | reflexivity].
Qed.

Lemma display_period_moneyline (pd : list (string * pyval)) (period_data' : pyval)
    (entry : string * pyval) (entries : list (string * pyval)) :
  display_period math_pow math_log round3 (PDict pd) = Ok period_data' ->
  dict_get pd "money_line" = Some (PDict (entry :: entries)) ->
  exists ml',
    display_moneyline math_pow math_log round3 (entry :: entries) = Ok ml'
    /\ field period_data' "money_line" = PDict ml'.
Proof.
  unfold display_period. intros H Hm. cbv zeta in H.
  rewrite (dict_get_del_other pd "history" "money_line"), Hm in H by discriminate.
  destruct (display_moneyline _ _ _ (entry :: entries)) as [ml'|] eqn:Eml;
    [cbn [bind] in H | discriminate H].
  destruct (display_lines _ _ _ "spreads" "home" "away" _) as [pd2|] eqn:E2;
    [cbn [bind] in H | discriminate H].
  destruct (display_lines _ _ _ "totals" "over" "under" pd2) as [pd3|] eqn:E3;
    [cbn [bind] in H | discriminate H].
  injection H as <-.
  destruct (display_lines_kept _ _ _ _ _ _ _ _ E2) as [O2 _].
  destruct (display_lines_kept _ _ _ _ _ _ _ _ E3) as [O3 _].
  exists ml'. split; [reflexivity|]. cbn [field].
  rewrite (O3 "money_line"), (O2 "money_line") by discriminate.
  rewrite dict_get_set_same. reflexivity.
Qed.

Lemma display_period_lines (key a b : string) (pd : list (string * pyval))
    (period_data' : pyval) (line_key : string) (details : list (string * pyval)) :
  In (key, (a, b)) two_way_markets ->
  display_period math_pow math_log round3 (PDict pd) = Ok period_data' ->
  field (field (PDict pd) key) line_key = PDict details ->
  exists details',
    display_two_way math_pow math_log round3 a b details = Ok details'
    /\ field (field period_data' key) line_key = PDict details'.
Proof.
  intros Hk. unfold display_period. intros H Hf. cbv zeta in H.
  match type of H with
  | bind ?m _ = _ => destruct m as [pd1|] eqn:E1; [cbn [bind] in H | discriminate H]
  end.
  destruct (display_lines _ _ _ "spreads" "home" "away" pd1) as [pd2|] eqn:E2;
    [cbn [bind] in H | discriminate H].
  destruct (display_lines _ _ _ "totals" "over" "under" pd2) as [pd3|] eqn:E3;
    [cbn [bind] in H | discriminate H].
  injection H as <-.
  destruct (display_lines_kept _ _ _ _ _ _ _ _ E2) as [O2 _].
  destruct (display_lines_kept _ _ _ _ _ _ _ _ E3) as [O3 _].
  assert (O1 : forall k, "money_line" <> k -> "history" <> k -> dict_get pd1 k = dict_get pd k).
  { intros k Hm Hh.
    destruct (dict_get (dict_del pd "history") "money_line") as [v|];
      [|injection E1 as <-; exact (dict_get_del_other _ _ _ Hh)].
    destruct v as [| | | | | |ml]; try (injection E1 as <-; exact (dict_get_del_other _ _ _ Hh)).
    destruct ml as [|e es]; [injection E1 as <-; exact (dict_get_del_other _ _ _ Hh)|].
    destruct (display_moneyline _ _ _ (e :: es)); [cbn [bind] in E1 | discriminate E1].
    injection E1 as <-. rewrite (dict_get_set_other _ _ _ _ Hm).
    exact (dict_get_del_other _ _ _ Hh). }
  cbn in Hk. destruct Hk as [Hk | [Hk | []]]; injection Hk as <- <- <-.
  - assert (Hf1 : field (field (PDict pd1) "spreads") line_key = PDict details).
    { cbn [field] in Hf |- *. rewrite O1 by discriminate. exact Hf. }
    destruct (display_lines_entry _ _ _ _ _ _ _ E2 Hf1) as [d' [Hd Hr]].
    exists d'. split; [exact Hd|]. cbn [field] in Hr |- *.
    rewrite (O3 "spreads") by discriminate. exact Hr.
  - assert (Hf2 : field (field (PDict pd2) "totals") line_key = PDict details).
    { cbn [field] in Hf |- *. rewrite (O2 "totals"), O1 by discriminate. exact Hf. }
    exact (display_lines_entry _ _ _ _ _ _ _ E3 Hf2).
Qed.

(** The processing stores, in every non-empty moneyline, the no-vig
    prices [calculate_nvp_for_market] gives for its home, draw and away
    prices, and for each side the American text of the price and of the
    no-vig price. *)
Theorem display_stores_moneyline (pinnacle_data pinnacle_data' : pyval) (period_key : string)
    (entry : string * pyval) (entries : list (string * pyval)) :
  process_event_odds_for_display math_pow math_log round3 pinnacle_data = Ok pinnacle_data' ->
  field (field (reference_periods pinnacle_data) period_key) "money_line"
  = PDict (entry :: entries) ->
  let ml := PDict (entry :: entries) in
  let ml' := field (field (reference_periods pinnacle_data') period_key) "money_line" in
  exists nvps,
    calculate_nvp_for_market math_pow math_log round3
      [field ml "home"; field ml "draw"; field ml "away"] = Ok nvps
    /\ field ml' "nvp_home" = item nvps 0
    /\ field ml' "nvp_draw" = item nvps 1
    /\ field ml' "nvp_away" = item nvps 2
    /\ priced ml ml' "home" /\ priced ml ml' "draw" /\ priced ml ml' "away".
Proof.
  intros H Hm. cbv zeta.
  destruct (processed_period _ _ _ _ _ period_key H) as [Hp | [Hn _]];
    [|rewrite Hn in Hm; discriminate Hm].
  destruct (field (reference_periods pinnacle_data) period_key) as [| | | | | |pd];
    try discriminate Hm.
  cbn [field] in Hm.
  destruct (dict_get pd "money_line") as [v|] eqn:Em; [subst v | discriminate Hm].
  destruct (display_period_moneyline _ _ _ _ Hp Em) as [ml' [Hml ->]].
  destruct (display_moneyline_spec _ _ _ _ _ Hml)
    as [nvps [a0 [a1 [a2 [b0 [b1 [b2 [En [Hl [A0 [A1 [A2 [B0 [B1 [B2 ->]]]]]]]]]]]]]]].
  exists nvps. rewrite !field_get_none. unfold priced. cbn [append].
  rewrite !field_get_none. lookups.
  split; [exact En|]. repeat split; try reflexivity.
  - exists a0, b0. repeat split; assumption.
  - exists a1, b1. repeat split; assumption.
  - exists a2, b2. repeat split; assumption.
Qed.

(** The same for every spread (sides [home] and [away]) and every total
    (sides [over] and [under]) that is a dict. *)
Theorem display_stores_lines (pinnacle_data pinnacle_data' : pyval)
    (period_key key a b line_key : string) (details : list (string * pyval)) :
  process_event_odds_for_display math_pow math_log round3 pinnacle_data = Ok pinnacle_data' ->
  In (key, (a, b)) two_way_markets ->
  field (field (field (reference_periods pinnacle_data) period_key) key) line_key
  = PDict details ->
  let line := PDict details in
  let line' := field (field (field (reference_periods pinnacle_data') period_key) key) line_key in
  exists nvps,
    calculate_nvp_for_market math_pow math_log round3 [field line a; field line b] = Ok nvps
    /\ field line' ("nvp_" ++ a) = item nvps 0
    /\ field line' ("nvp_" ++ b) = item nvps 1
    /\ priced line line' a /\ priced line line' b.
Proof.
  intros H Hk Hf. cbv zeta.
  destruct (processed_period _ _ _ _ _ period_key H) as [Hp | [Hn _]];
    [|rewrite Hn in Hf; discriminate Hf].
  destruct (field (reference_periods pinnacle_data) period_key) as [| | | | | |pd];
    try discriminate Hf.
  destruct (display_period_lines _ _ _ _ _ _ _ Hk Hp Hf) as [d' [Hd ->]].
  assert (Hab : In (a, b) (map snd two_way_markets)) by (apply (in_map snd _ _ Hk)).
  destruct (display_two_way_spec _ _ _ _ _ _ _ Hab Hd)
    as [nvps [a0 [a1 [b0 [b1 [En [Hl [A0 [A1 [B0 [B1 ->]]]]]]]]]]].
  exists nvps. rewrite !field_get_none. unfold priced. rewrite !field_get_none.
  split; [exact En|].
  cbn in Hk. destruct Hk as [Hk | [Hk | []]]; injection Hk as <- <- <-;
    cbn [append]; lookups;
    (repeat split; try reflexivity;
     [exists a0, b0; repeat split; assumption | exists a1, b1; repeat split; assumption]).
Qed.

End DisplayStored.

(* ===================================================================== *)
(** * The sample event *)
(* ===================================================================== *)

Lemma displayed_event_processed :
  process_event_odds_for_display (fun _ _ => Raise ValueError) (fun _ => Raise ValueError)
    (fun x => x) display_event = Ok displayed_event.
Proof. vm_compute. reflexivity. Defined.

(** The prices and the handicap of the sample event. *)
Lemma display_keeps_unwritten_entries_witness :
  written "home" = false
  /\ field (field (field (reference_periods display_event) "num_0") "money_line") "home"
     = PFloat 2.5
  /\ field (field (field (reference_periods displayed_event) "num_0") "money_line") "home"
     = field (field (field (reference_periods display_event) "num_0") "money_line") "home"
  /\ field (field (field (field (reference_periods displayed_event) "num_0") "spreads")
              "-1.5") "home"
     = field (field (field (field (reference_periods display_event) "num_0") "spreads")
                "-1.5") "home"
  /\ field (field (field (field (reference_periods displayed_event) "num_0") "totals")
              "-1.5") "home"
     = field (field (field (field (reference_periods display_event) "num_0") "totals")
                "-1.5") "home".
Proof.
  split; [reflexivity|]. split; [reflexivity|].
  apply (display_keeps_unwritten_entries (fun _ _ => Raise ValueError)
           (fun _ => Raise ValueError) (fun x => x) display_event displayed_event
           "num_0" "-1.5" "home" displayed_event_processed).
  reflexivity.
Defined.

Lemma display_removes_history_witness :
  field (field (reference_periods display_event) "num_0") "history" = PList [PFloat 2.4]
  /\ field (field (reference_periods displayed_event) "num_0") "history" = PNone.
Proof.
  split; [reflexivity|].
  apply (display_removes_history (fun _ _ => Raise ValueError) (fun _ => Raise ValueError)
           (fun x => x) display_event displayed_event "num_0" displayed_event_processed).
Defined.

(** An event whose [data] is a text. *)
Lemma display_without_periods_witness :
  is_dict (reference_periods (PDict [("data", PStr "pending")])) = false
  /\ process_event_odds_for_display (fun _ _ => Raise ValueError) (fun _ => Raise ValueError)
       (fun x => x) (PDict [("data", PStr "pending")])
     = Ok (PDict [("data", PStr "pending")]).
Proof.
  split; [reflexivity|].
  apply (display_without_periods (fun _ _ => Raise ValueError) (fun _ => Raise ValueError)
           (fun x => x) [("data", PStr "pending")]).
  reflexivity.
Defined.

Lemma display_is_idempotent_witness :
  displayed_event <> display_event
  /\ process_event_odds_for_display (fun _ _ => Raise ValueError) (fun _ => Raise ValueError)
       (fun x => x) displayed_event = Ok displayed_event.
Proof.
  split; [discriminate|].
  apply (display_is_idempotent (fun _ _ => Raise ValueError) (fun _ => Raise ValueError)
           (fun x => x) display_event displayed_event displayed_event_processed).
Defined.

Lemma display_stores_moneyline_witness :
  exists nvps,
    calculate_nvp_for_market (fun _ _ => Raise ValueError) (fun _ => Raise ValueError)
      (fun x => x)
      [field display_moneyline_sample "home"; field display_moneyline_sample "draw";
       field display_moneyline_sample "away"] = Ok nvps
    /\ field (field (field (reference_periods displayed_event) "num_0") "money_line")
         "nvp_home" = item nvps 0
    /\ field (field (field (reference_periods displayed_event) "num_0") "money_line")
         "nvp_draw" = item nvps 1
    /\ field (field (field (reference_periods displayed_event) "num_0") "money_line")
         "nvp_away" = item nvps 2
    /\ priced display_moneyline_sample
         (field (field (reference_periods displayed_event) "num_0") "money_line") "home"
    /\ priced display_moneyline_sample
         (field (field (reference_periods displayed_event) "num_0") "money_line") "draw"
    /\ priced display_moneyline_sample
         (field (field (reference_periods displayed_event) "num_0") "money_line") "away".
Proof.
  apply (display_stores_moneyline (fun _ _ => Raise ValueError) (fun _ => Raise ValueError)
           (fun x => x) display_event displayed_event "num_0"
           ("home", PFloat 2.5) [("away", PFloat 1.7)] displayed_event_processed).
  reflexivity.
Defined.

Lemma display_stores_lines_witness :
  In ("spreads", ("home", "away")) two_way_markets
  /\ exists nvps,
       calculate_nvp_for_market (fun _ _ => Raise ValueError) (fun _ => Raise ValueError)
         (fun x => x) [field display_spread_sample "home"; field display_spread_sample "away"]
       = Ok nvps
       /\ field (field (field (field (reference_periods displayed_event) "num_0") "spreads")
                   "-1.5") "nvp_home" = item nvps 0
       /\ field (field (field (field (reference_periods displayed_event) "num_0") "spreads")
                   "-1.5") "nvp_away" = item nvps 1
       /\ priced display_spread_sample
            (field (field (field (reference_periods displayed_event) "num_0") "spreads") "-1.5")
            "home"
       /\ priced display_spread_sample
            (field (field (field (reference_periods displayed_event) "num_0") "spreads") "-1.5")
            "away".
Proof.
  split; [left; reflexivity|].
  apply (display_stores_lines (fun _ _ => Raise ValueError) (fun _ => Raise ValueError)
           (fun x => x) display_event displayed_event "num_0" "spreads" "home" "away" "-1.5"
           [("hdp", PFloat (-1.5)); ("home", PFloat 2); ("away", PFloat 2)]
           displayed_event_processed); [left; reflexivity | reflexivity].
Defined.
